(** * Certificate.Generator: the batch generation pipeline

    A shallow embedding of [src/utils.ts], [src/errors.ts],
    [src/certificate-generator.ts] (the constructor,
    [validateCertificateConfig], [calculateTextPosition],
    [generateOutputPath], [generateCertificate], [generateCertificates]),
    [src/data-loader.ts], the [main] of [src/index.ts] and the [parseColor]
    of [src/config.ts], followed by the properties of the pipeline.

    JavaScript values are modelled as the language has them: a string is its
    sequence of UTF-16 code units, a [number] is a binary64 float, an optional
    field is an [option], and the truthiness tests of the source ([if (x)],
    [x && ...], [x || d]) are written out. *)

From Stdlib Require Import Ascii String.
From Stdlib Require Import ZArith NArith List Bool Lia Floats Permutation.
Import ListNotations.

Set Warnings "-inexact-float,-register-all".

(** ** JavaScript strings *)

Definition codeunit := N.
Definition jsstring := list codeunit.

(** A string literal of the source, as code units (the literals of this
    program are ASCII, except in log messages, which are not modelled). *)
Definition js (s : string) : jsstring :=
  map N_of_ascii (list_ascii_of_string s).
Arguments js s%_string.

Definition isUpper (c : codeunit) : bool := ((65 <=? c) && (c <=? 90))%N.
Definition isLower (c : codeunit) : bool := ((97 <=? c) && (c <=? 122))%N.
Definition isDigit (c : codeunit) : bool := ((48 <=? c) && (c <=? 57))%N.
Definition underscore : codeunit := 95%N.
Definition isUnderscore (c : codeunit) : bool := (c =? underscore)%N.

(** [String.prototype.toLowerCase] on the ASCII range. Its only call site is
    in [sanitizeFilename], on the output of the first [replace], which holds
    nothing but [A-Za-z0-9_]; there the Unicode case mapping is this map. *)
Definition lowerUnit (c : codeunit) : codeunit :=
  if isUpper c then (c + 32)%N else c.
Definition toLowerCase (s : jsstring) : jsstring := map lowerUnit s.

(** ECMAScript WhiteSpace and LineTerminator code units, as [trim] strips. *)
Definition isWhiteSpace (c : codeunit) : bool :=
  ((9 <=? c) && (c <=? 13) || (c =? 32) || (c =? 160) || (c =? 5760)
   || (8192 <=? c) && (c <=? 8202) || (c =? 8232) || (c =? 8233)
   || (c =? 8239) || (c =? 8287) || (c =? 12288) || (c =? 65279))%N.

Fixpoint trimStart (s : jsstring) : jsstring :=
  match s with
  | c :: t => if isWhiteSpace c then trimStart t else s
  | [] => []
  end.
Definition trimEnd (s : jsstring) : jsstring := rev (trimStart (rev s)).
Definition trim (s : jsstring) : jsstring := trimEnd (trimStart s).

(** Truthiness of an optional string: [undefined] and the empty string are
    falsy. *)
Definition truthyString (o : option jsstring) : bool :=
  match o with
  | Some (_ :: _) => true
  | _ => false
  end.

(** ** utils.ts: FileUtil.sanitizeFilename *)

(** [/[^a-z0-9]/gi]: without the [u] flag the ignore-case canonicalisation
    never maps a non-ASCII unit into ASCII, so the class is [A-Za-z0-9]. *)
Definition matchesNonAlnum (c : codeunit) : bool :=
  negb (isLower c || isUpper c || isDigit c).

(** [.replace(/[^a-z0-9]/gi, "_")] *)
Definition replaceNonAlnum (s : jsstring) : jsstring :=
  map (fun c => if matchesNonAlnum c then underscore else c) s.

(** [.replace(/_+/g, "_")]: every maximal run of underscores becomes one. *)
Fixpoint collapseUnderscores (s : jsstring) : jsstring :=
  match s with
  | [] => []
  | c :: t =>
      if isUnderscore c then
        match t with
        | c' :: _ =>
            if isUnderscore c' then collapseUnderscores t
            else c :: collapseUnderscores t
        | [] => [c]
        end
      else c :: collapseUnderscores t
  end.

(** [.replace(/^_|_$/g, "")]: the first alternative can match at index 0
    only, the second at the last index only; each removes one unit. *)
Definition removeLeadingUnderscore (s : jsstring) : jsstring :=
  match s with
  | c :: t => if isUnderscore c then t else s
  | [] => []
  end.

Fixpoint removeTrailingUnderscore (s : jsstring) : jsstring :=
  match s with
  | [] => []
  | [c] => if isUnderscore c then [] else [c]
  | c :: t => c :: removeTrailingUnderscore t
  end.

Definition removeEdgeUnderscores (s : jsstring) : jsstring :=
  removeTrailingUnderscore (removeLeadingUnderscore s).

Definition sanitizeFilename (filename : jsstring) : jsstring :=
  removeEdgeUnderscores
    (collapseUnderscores (toLowerCase (replaceNonAlnum filename))).

(** *** The sanitisation rule as the specification words it *)

(** "replace every character outside [A-Za-z0-9] with _" *)
Definition spec_replace (s : jsstring) : jsstring :=
  map (fun c => if isUpper c || isLower c || isDigit c then c else underscore) s.

(** "lowercase the result" *)
Definition spec_lowercase (s : jsstring) : jsstring :=
  map (fun c => if isUpper c then (c + 32)%N else c) s.

(** "collapse runs of _ to one": an underscore that follows an underscore is
    dropped. *)
Fixpoint spec_collapse_from (afterUnderscore : bool) (s : jsstring) : jsstring :=
  match s with
  | [] => []
  | c :: t =>
      if isUnderscore c then
        if afterUnderscore then spec_collapse_from true t
        else c :: spec_collapse_from true t
      else c :: spec_collapse_from false t
  end.
Definition spec_collapse (s : jsstring) : jsstring := spec_collapse_from false s.

(** "strip leading/trailing _": all of them, at both ends. *)
Fixpoint spec_strip_leading (s : jsstring) : jsstring :=
  match s with
  | c :: t => if isUnderscore c then spec_strip_leading t else s
  | [] => []
  end.
Definition spec_strip (s : jsstring) : jsstring :=
  rev (spec_strip_leading (rev (spec_strip_leading s))).

Definition spec_sanitize (s : jsstring) : jsstring :=
  spec_strip (spec_collapse (spec_lowercase (spec_replace s))).

(** "only lowercase alphanumerics and single underscores, with no
    leading/trailing underscore" *)
Definition isFilenameUnit (c : codeunit) : bool :=
  isLower c || isDigit c || isUnderscore c.

Fixpoint singleUnderscores (s : jsstring) : bool :=
  match s with
  | c :: t =>
      match t with
      | c' :: _ => negb (isUnderscore c && isUnderscore c') && singleUnderscores t
      | [] => true
      end
  | [] => true
  end.

Definition noEdgeUnderscore (s : jsstring) : bool :=
  negb (isUnderscore (hd 0%N s)) && negb (isUnderscore (last s 0%N)).

Definition cleanFilename (s : jsstring) : bool :=
  forallb isFilenameUnit s && singleUnderscores s && noEdgeUnderscore s.

(** ** JavaScript numbers *)

(** Truthiness of a number: [0], [-0] and [NaN] are falsy. *)
Definition truthyNumber (n : float) : bool :=
  negb (PrimFloat.is_zero n || PrimFloat.is_nan n).

(** [Math.max] of two numbers: [NaN] if either is, and [+0] above [-0]. *)
Definition Math_max (a b : float) : float :=
  if PrimFloat.is_nan a || PrimFloat.is_nan b then PrimFloat.nan
  else if PrimFloat.ltb a b then b
  else if PrimFloat.ltb b a then a
  else if PrimFloat.get_sign a then b else a.

(** [s.length] as a number (a string has fewer than 2^53 units). *)
Definition lengthNumber (s : jsstring) : float :=
  PrimFloat.of_uint63 (Uint63.of_Z (Z.of_nat (length s))).

(** [Array.prototype.slice(start, end)], negative indices counting from the
    end of the array. *)
Definition relativeIndex (len k : Z) : Z :=
  if (k <? 0)%Z then Z.max (len + k) 0 else Z.min k len.

Definition slice {A : Type} (l : list A) (start end_ : Z) : list A :=
  let len := Z.of_nat (length l) in
  let k := relativeIndex len start in
  let final := relativeIndex len end_ in
  firstn (Z.to_nat (final - k)) (skipn (Z.to_nat k) l).

(** [Math.min] of two numbers: [NaN] if either is, and [-0] below [+0]. *)
Definition Math_min (a b : float) : float :=
  if PrimFloat.is_nan a || PrimFloat.is_nan b then PrimFloat.nan
  else if PrimFloat.ltb a b then a
  else if PrimFloat.ltb b a then b
  else if PrimFloat.get_sign a then a else b.

(** The number for an integer from 0 to 2^63 - 1. *)
Definition wholeNumber (z : Z) : float := PrimFloat.of_uint63 (Uint63.of_Z z).

(** [array.length] as a number (an array has fewer than 2^32 elements). *)
Definition arrayLength {A : Type} (l : list A) : float :=
  wholeNumber (Z.of_nat (length l)).

(** [ToIntegerOrInfinity]: a number as an index, its fraction dropped;
    [NaN] is 0. *)
Inductive IntegerOrInfinity : Type :=
| MinusInfinity
| Integer (z : Z)
| PlusInfinity.

Definition toIntegerOrInfinity (n : float) : IntegerOrInfinity :=
  match Prim2SF n with
  | S754_nan => Integer 0
  | S754_zero _ => Integer 0
  | S754_infinity negative =>
      if negative then MinusInfinity else PlusInfinity
  | S754_finite negative m e =>
      Integer (cond_Zopp negative (Z.shiftl (Zpos m) e))
  end.

(** The integer that a number is, when it is finite and has no fraction. *)
Definition wholeValue (n : float) : option Z :=
  match Prim2SF n with
  | S754_zero _ => Some 0%Z
  | S754_finite negative m e =>
      let z := Z.shiftl (Zpos m) e in
      if (Z.shiftl z (- e) =? Zpos m)%Z then Some (cond_Zopp negative z)
      else None
  | _ => None
  end.

(** The float of a whole number from 1 to 2^53 - 1: its digits moved up
    to 53 bits, and the exponent that moves them back. *)
Definition canonical (n : positive) : spec_float :=
  S754_finite false
              (Z.to_pos (Zpos n * 2 ^ (53 - Zpos (digits2_pos n))))
              (Zpos (digits2_pos n) - 53).

Definition relativeIndexOf (len : Z) (k : IntegerOrInfinity) : Z :=
  match k with
  | MinusInfinity => 0
  | Integer z => relativeIndex len z
  | PlusInfinity => len
  end.

(** [Array.prototype.slice(start, end)] when the two indices are numbers
    that the program has computed. *)
Definition sliceNumber {A : Type} (l : list A) (start end_ : float) : list A :=
  let len := Z.of_nat (length l) in
  let k := relativeIndexOf len (toIntegerOrInfinity start) in
  let final := relativeIndexOf len (toIntegerOrInfinity end_) in
  firstn (Z.to_nat (final - k)) (skipn (Z.to_nat k) l).

(** [parts.join(sep)] on an array of strings. *)
Fixpoint joinWith (sep : jsstring) (parts : list jsstring) : jsstring :=
  match parts with
  | [] => []
  | [p] => p
  | p :: rest => p ++ sep ++ joinWith sep rest
  end.

(** ** errors.ts *)

(** The class of a thrown value: one of the four classes of [errors.ts], or
    anything else (the built-in [Error], errors of pdf-lib and of [fs]). *)
Inductive ErrorClass : Type :=
| ClassError
| ClassCertificateGeneratorError
| ClassFileNotFoundError
| ClassInvalidConfigError
| ClassDataValidationError.

Inductive JsError : Type :=
| mkJsError (cls : ErrorClass) (nm : jsstring) (msg : jsstring)
            (cse : option JsError).

Definition errorClass (e : JsError) : ErrorClass :=
  match e with mkJsError c _ _ _ => c end.
Definition errorName (e : JsError) : jsstring :=
  match e with mkJsError _ n _ _ => n end.
Definition message (e : JsError) : jsstring :=
  match e with mkJsError _ _ m _ => m end.
Definition cause (e : JsError) : option JsError :=
  match e with mkJsError _ _ _ c => c end.

Definition Error (msg : jsstring) : JsError :=
  mkJsError ClassError (js "Error") msg None.

Definition CertificateGeneratorError (msg : jsstring) (cse : option JsError)
  : JsError :=
  mkJsError ClassCertificateGeneratorError (js "CertificateGeneratorError")
            msg cse.

Definition FileNotFoundError (filePath : jsstring) (cse : option JsError)
  : JsError :=
  mkJsError ClassFileNotFoundError (js "FileNotFoundError")
            (js "File not found: " ++ filePath) cse.

Definition InvalidConfigError (msg : jsstring) : JsError :=
  mkJsError ClassInvalidConfigError (js "InvalidConfigError")
            (js "Invalid configuration: " ++ msg) None.

Definition DataValidationError (msg : jsstring) : JsError :=
  mkJsError ClassDataValidationError (js "DataValidationError")
            (js "Data validation error: " ++ msg) None.

(** [error instanceof CertificateGeneratorError]: the class or a subclass. *)
Definition instanceofCertificateGeneratorError (e : JsError) : bool :=
  match errorClass e with
  | ClassError => false
  | _ => true
  end.

(** ** types.ts *)

Record RGB : Type := { r : float; g : float; b : float }.

Record Position : Type := { x : float; y : float }.

Inductive Mode : Type := test | production.

Definition isProduction (m : Mode) : bool :=
  match m with production => true | test => false end.
Definition isTest (m : Mode) : bool :=
  match m with test => true | production => false end.

Record CertificateConfig : Type := {
  name : jsstring;
  email : option jsstring;
  outputPath : option jsstring;
  fontSize : option float;
  fontColor : option RGB;
  position : option Position
}.

(** [concurrency] is a [number] as the two defaults are: nothing in the
    types makes it a whole number, or a number at all ([parseInt] returns
    [NaN] for a text without digits). *)
Record GeneratorOptions : Type := {
  templatePath : jsstring;
  fontPath : jsstring;
  outputDir : jsstring;
  defaultFontSize : float;
  defaultFontColor : RGB;
  concurrency : float;
  mode : Mode;
  testName : option jsstring
}.

(** ** The collaborators: pdf-lib, fs, path and the clock *)

Definition bytes := list N.

Record Page : Type := { getWidth : float; getHeight : float }.

Record Color : Type := { red : float; green : float; blue : float }.

(** What the outside world answers to the calls made for one render. A call
    that throws answers with the value thrown. *)
Record Host : Type := {
  existsSync : jsstring -> bool;
  mkdirSync : jsstring -> option JsError;
  readFileSync : jsstring -> JsError + bytes;
  writeFileSync : jsstring -> bytes -> option JsError;
  dirname : jsstring -> jsstring;
  join : jsstring -> jsstring -> jsstring;
  (** [new Date().toISOString()] *)
  toISOString_now : jsstring;
  (** [PDFDocument.load(buffer)] followed by [getPages()] *)
  load_getPages : bytes -> JsError + list Page;
  embedFont : bytes -> option JsError;
  (** pdf-lib's [rgb], which rejects components outside [0, 1] *)
  rgb : float -> float -> float -> JsError + Color;
  drawText : jsstring -> Position -> float -> Color -> option JsError;
  save : JsError + bytes
}.

(** ** Effects of a render: the calls made, in order, and then either the
    value returned or the value thrown *)

Inductive Effect : Type :=
| CallExistsSync (path : jsstring)
| CallMkdirSync (path : jsstring)
| CallReadFileSync (path : jsstring)
| CallWriteFileSync (path : jsstring) (data : bytes)
| CallLoad
| CallRegisterFontkit
| CallEmbedFont
| CallRgb (cr cg cb : float)
| CallDrawText (text : jsstring) (at_ : Position) (size : float)
| CallSave
| LogSuccess (msg : jsstring)
| LogError (msg : jsstring) (e : JsError).

Definition M (A : Type) : Type := (list Effect * (JsError + A))%type.

Definition ret {A : Type} (a : A) : M A := ([], inr a).
Definition throw {A : Type} (e : JsError) : M A := ([], inl e).
Definition bind {A B : Type} (m : M A) (f : A -> M B) : M B :=
  match m with
  | (t, inl e) => (t, inl e)
  | (t, inr a) => let (t', res) := f a in (t ++ t', res)
  end.
Definition tryCatch {A : Type} (m : M A) (handler : JsError -> M A) : M A :=
  match m with
  | (t, inl e) => let (t', res) := handler e in (t ++ t', res)
  | (t, inr a) => (t, inr a)
  end.
(** A call to a collaborator: recorded, then it returns or throws. *)
Definition call {A : Type} (ev : Effect) (answer : JsError + A) : M A :=
  ([ev], answer).
Definition callVoid (ev : Effect) (answer : option JsError) : M unit :=
  ([ev], match answer with Some e => inl e | None => inr tt end).
Definition emit (ev : Effect) : M unit := ([ev], inr tt).
Definition calls {A : Type} (m : M A) : list Effect := fst m.
Definition outcome {A : Type} (m : M A) : JsError + A := snd m.

Declare Scope js_scope.
Delimit Scope js_scope with js.
Notation "v <- m ;; k" := (bind m (fun v => k))
  (at level 61, m at next level, right associativity) : js_scope.
Notation "m ;; k" := (bind m (fun _ => k))
  (at level 61, right associativity) : js_scope.

Local Open Scope js_scope.

(** ** utils.ts: the file helpers *)

Definition ensureDir (h : Host) (path : jsstring) : M unit :=
  exists_ <- call (CallExistsSync path) (inr (existsSync h path)) ;;
  if negb exists_ then callVoid (CallMkdirSync path) (mkdirSync h path)
  else ret tt.

Definition ensureDirForFile (h : Host) (filePath : jsstring) : M unit :=
  let dir := dirname h filePath in
  ensureDir h dir.

Fixpoint filterMissing (h : Host) (filePaths : list jsstring)
  : M (list jsstring) :=
  match filePaths with
  | [] => ret []
  | path :: rest =>
      exists_ <- call (CallExistsSync path) (inr (existsSync h path)) ;;
      missing <- filterMissing h rest ;;
      ret (if negb exists_ then path :: missing else missing)
  end.

Definition validateFilesExist (h : Host) (filePaths : list jsstring) : M unit :=
  missingFiles <- filterMissing h filePaths ;;
  if (0 <? length missingFiles)%nat then
    throw (FileNotFoundError
             (js "Missing required files: " ++ joinWith (js ", ") missingFiles)
             None)
  else ret tt.

(** ** certificate-generator.ts *)

(** The state of a [CertificateGenerator] instance. *)
Record CertificateGenerator : Type := {
  options : GeneratorOptions;
  templateBuffer : bytes;
  fontBuffer : bytes
}.

Definition isEmptyString (s : jsstring) : bool :=
  match s with [] => true | _ => false end.

Definition validateOptions (h : Host) (opts : GeneratorOptions) : M unit :=
  if isEmptyString (templatePath opts) || isEmptyString (fontPath opts)
     || isEmptyString (outputDir opts) then
    throw (InvalidConfigError
             (js "templatePath, fontPath, and outputDir are required"))
  else if PrimFloat.leb (concurrency opts) 0 then
    throw (InvalidConfigError (js "concurrency must be greater than 0"))
  else if isTest (mode opts)
          && (negb (truthyString (testName opts))
              || match testName opts with
                 | Some n => (length (trim n) =? 0)%nat
                 | None => true
                 end) then
    throw (InvalidConfigError
             (js "testName is required when mode is " ++ [34%N] ++ js "test"
                 ++ [34%N]))
  else
    validateFilesExist h [templatePath opts; fontPath opts] ;;
    ensureDir h (outputDir opts).

Definition loadAssets (h : Host) (opts : GeneratorOptions)
  : M (bytes * bytes) :=
  tryCatch
    (template <- call (CallReadFileSync (templatePath opts))
                      (readFileSync h (templatePath opts)) ;;
     font <- call (CallReadFileSync (fontPath opts))
                  (readFileSync h (fontPath opts)) ;;
     emit (LogSuccess (js "Assets loaded successfully")) ;;
     ret (template, font))
    (fun error =>
       throw (FileNotFoundError (js "Failed to load required assets")
                                (Some error))).

(** [new CertificateGenerator(options)] *)
Definition newCertificateGenerator (h : Host) (opts : GeneratorOptions)
  : M CertificateGenerator :=
  validateOptions h opts ;;
  buffers <- loadAssets h opts ;;
  ret {| options := opts;
         templateBuffer := fst buffers;
         fontBuffer := snd buffers |}.

Definition wrapRGB (h : Host) (color : RGB) : M Color :=
  let cr := (r color / 255)%float in
  let cg := (g color / 255)%float in
  let cb := (b color / 255)%float in
  call (CallRgb cr cg cb) (rgb h cr cg cb).

Definition calculateTextPosition (text : jsstring)
           (fontSize pageWidth pageHeight : float)
           (customPosition : option Position) : Position :=
  match customPosition with
  | Some p => p
  | None =>
      let textWidth := (lengthNumber text * fontSize * 0.6)%float in
      {| x := Math_max 0 ((pageWidth - textWidth) / 2)%float;
         y := (pageHeight / 2 - fontSize / 2)%float |}
  end.

Definition generateOutputPath (h : Host) (opts : GeneratorOptions)
           (config : CertificateConfig) : jsstring :=
  if truthyString (outputPath config) then
    match outputPath config with Some p => p | None => [] end
  else
    let sanitizedName := sanitizeFilename (name config) in
    let timestamp := slice (toISOString_now h) 0 10 in
    let filename :=
      match email config with
      | Some e =>
          if truthyString (Some e) && isProduction (mode opts) then
            sanitizedName ++ js "_" ++ sanitizeFilename e
          else sanitizedName
      | None => sanitizedName
      end in
    join h (outputDir opts) (filename ++ js "_" ++ timestamp ++ js ".pdf").

(** A validation either passes or throws; it calls nothing. *)
Definition validateCertificateConfig (opts : GeneratorOptions)
           (config : CertificateConfig) : JsError + unit :=
  if isEmptyString (name config) || (length (trim (name config)) =? 0)%nat then
    inl (InvalidConfigError (js "Certificate name cannot be empty"))
  else if match fontSize config with
          | Some size =>
              truthyNumber size
              && (PrimFloat.leb size 0 || PrimFloat.ltb 200 size)
          | None => false
          end then
    inl (InvalidConfigError (js "Font size must be between 1 and 200"))
  else if isProduction (mode opts)
          && match email config with
             | Some e => isEmptyString e || (length (trim e) =? 0)%nat
             | None => true
             end then
    inl (InvalidConfigError (js "Email is required in production mode"))
  else inr tt.

Definition orDefaultNumber (o : option float) (d : float) : float :=
  match o with
  | Some n => if truthyNumber n then n else d
  | None => d
  end.

Definition orDefaultColor (o : option RGB) (d : RGB) : RGB :=
  match o with Some c => c | None => d end.

Definition failedToGenerate (config : CertificateConfig) : jsstring :=
  js "Failed to generate certificate for: " ++ name config.

(** The body of the [try] block of [generateCertificate]. After the test of
    [pages.length] the array has a first page, so the second test,
    [!firstPage], never throws. *)
Definition render (h : Host) (gen : CertificateGenerator)
           (config : CertificateConfig) : M jsstring :=
  let opts := options gen in
  pages <- call CallLoad (load_getPages h (templateBuffer gen)) ;;
  emit CallRegisterFontkit ;;
  match pages with
  | [] => throw (CertificateGeneratorError (js "Template PDF has no pages") None)
  | firstPage :: _ =>
      let fontSize := orDefaultNumber (fontSize config) (defaultFontSize opts) in
      let fontColor := orDefaultColor (fontColor config) (defaultFontColor opts) in
      let position :=
        calculateTextPosition (name config) fontSize (getWidth firstPage)
                              (getHeight firstPage) (position config) in
      callVoid CallEmbedFont (embedFont h (fontBuffer gen)) ;;
      color <- wrapRGB h fontColor ;;
      callVoid (CallDrawText (name config) position fontSize)
               (drawText h (name config) position fontSize color) ;;
      let outputPath := generateOutputPath h opts config in
      ensureDirForFile h outputPath ;;
      pdfBytes <- call CallSave (save h) ;;
      callVoid (CallWriteFileSync outputPath pdfBytes)
               (writeFileSync h outputPath pdfBytes) ;;
      emit (LogSuccess
              (js "Certificate generated: " ++ name config ++
               match email config with
               | Some e => if truthyString (Some e)
                           then js " (" ++ e ++ js ")" else []
               | None => []
               end)) ;;
      ret outputPath
  end.

Definition generateCertificate (h : Host) (gen : CertificateGenerator)
           (config : CertificateConfig) : M jsstring :=
  match validateCertificateConfig (options gen) config with
  | inl e => throw e
  | inr _ =>
      tryCatch (render h gen config)
        (fun error =>
           let errorMessage := failedToGenerate config in
           emit (LogError errorMessage error) ;;
           if instanceofCertificateGeneratorError error then throw error
           else throw (CertificateGeneratorError errorMessage (Some error)))
  end.

(** *** generateCertificates *)

(** What one [async (config) => ...] callback resolves to. *)
Record ItemResult : Type := {
  success : bool;
  result_outputPath : option jsstring;
  result_error : option JsError;
  result_config : CertificateConfig
}.

Record Failure : Type := { config : CertificateConfig; error : JsError }.

Record BatchResult : Type := {
  successful : list jsstring;
  failed : list Failure
}.

(** What the driver does that can be observed from outside: it logs, it
    launches a render (the callback is called) and a launched render settles
    (its promise resolves). Items are named by their index in the batch. *)
Inductive BatchEvent : Type :=
| Starting (m : Mode) (total : nat)
| Launch (index : nat)
| Settle (index : nat)
| Progress (processed : float) (total : Z).

(** [Promise.all]: the array of the values, or a rejection (here that of the
    first promise of the array that rejects; the callbacks of this driver
    never reject, see [attempt_resolves]). *)
Fixpoint promiseAll {A : Type} (promises : list (JsError + A))
  : JsError + list A :=
  match promises with
  | [] => inr []
  | inl e :: _ => inl e
  | inr a :: rest =>
      match promiseAll rest with
      | inl e => inl e
      | inr values => inr (a :: values)
      end
  end.

Fixpoint removeAt (k : nat) (l : list nat) : list nat :=
  match l, k with
  | [], _ => []
  | _ :: t, O => t
  | a :: t, S k' => a :: removeAt k' t
  end.

(** The items of a batch with their indices, counted from [start]. *)
Definition indexedFrom (start : nat) (configs : list CertificateConfig)
  : list (nat * CertificateConfig) :=
  combine (seq start (length configs)) configs.

Definition indexed (configs : list CertificateConfig)
  : list (nat * CertificateConfig) :=
  indexedFrom 0 configs.

Section Batch.

(** The world as the render of the item at a given index meets it. *)
Variable hosts : nat -> Host.

(** The event loop: of the renders in flight, which one settles next. Any
    function is a schedule, and every order in which the renders of a group
    can settle is the choice of some function. *)
Variable sched : list nat -> nat.

Variable gen : CertificateGenerator.

Fixpoint settleOrderAux (fuel : nat) (inFlight : list nat) : list nat :=
  match fuel with
  | O => []
  | S fuel' =>
      match inFlight with
      | [] => []
      | _ :: _ =>
          let k := (sched inFlight mod length inFlight)%nat in
          nth k inFlight O :: settleOrderAux fuel' (removeAt k inFlight)
      end
  end.

Definition settleOrder (launched : list nat) : list nat :=
  settleOrderAux (length launched) launched.

(** The callback of [chunk.map]: it catches whatever the render throws. *)
Definition attempt (item : nat * CertificateConfig) : JsError + ItemResult :=
  let (index, config) := item in
  outcome
    (tryCatch
       (outputPath <- generateCertificate (hosts index) gen config ;;
        ret {| success := true;
               result_outputPath := Some outputPath;
               result_error := None;
               result_config := config |})
       (fun error =>
          ret {| success := false;
                 result_outputPath := None;
                 result_error := Some error;
                 result_config := config |})).

(** The callback of [results.forEach]. *)
Definition collect (acc : BatchResult) (result : ItemResult) : BatchResult :=
  match success result, result_outputPath result with
  | true, Some outputPath =>
      {| successful := successful acc ++ [outputPath];
         failed := failed acc |}
  | _, _ =>
      {| successful := successful acc;
         failed := failed acc ++
                   [{| config := result_config result;
                       error := match result_error result with
                                | Some e => e
                                | None => Error (js "Unknown error")
                                end |}] |}
  end.

(** The [for] loop, from the value [i] on. [None]: the loop is still running
    after [fuel] iterations. *)
Fixpoint batchLoop (configs : list CertificateConfig) (fuel : nat) (i : float)
         (acc : BatchResult)
  : option (list BatchEvent * (JsError + BatchResult)) :=
  match fuel with
  | O => None
  | S fuel' =>
      let limit := concurrency (options gen) in
      if PrimFloat.ltb i (arrayLength configs) then
        let chunk := sliceNumber (indexed configs) i (i + limit) in
        let promises := map attempt chunk in
        let launched := map fst chunk in
        let events :=
          map Launch launched ++ map Settle (settleOrder launched) in
        match promiseAll promises with
        | inl e => Some (events, inl e)
        | inr results =>
            let acc' := fold_left collect results acc in
            let processed := Math_min (i + limit) (arrayLength configs) in
            match batchLoop configs fuel' (i + limit)%float acc' with
            | Some (later, res) =>
                Some (events
                        ++ Progress processed (Z.of_nat (length configs))
                        :: later,
                      res)
            | None => None
            end
        end
      else Some ([], inr acc)
  end.

(** The call, given [fuel] iterations of its loop: with some limits the
    loop takes more iterations than the batch has items, and with others it
    never ends. *)
Definition generateCertificates (configs : list CertificateConfig)
           (fuel : nat)
  : option (list BatchEvent * (JsError + BatchResult)) :=
  match batchLoop configs fuel 0 {| successful := []; failed := [] |} with
  | Some (events, res) =>
      Some (Starting (mode (options gen)) (length configs) :: events, res)
  | None => None
  end.

End Batch.

(** *** Reading a run of the driver *)

(** The number of renders launched and not yet settled after [events]. *)
Fixpoint outstanding (events : list BatchEvent) : Z :=
  match events with
  | [] => 0
  | Launch _ :: rest => 1 + outstanding rest
  | Settle _ :: rest => -1 + outstanding rest
  | _ :: rest => outstanding rest
  end.

(** The events of a group that is launched, drains and is reported. *)
Definition groupEvents (sched : list nat -> nat) (total : nat)
           (group : list nat) : list BatchEvent :=
  map Launch group ++ map Settle (settleOrder sched group)
      ++ [Progress (wholeNumber (Z.of_nat (S (last group O))))
                   (Z.of_nat total)].

Definition ceilDiv (n c : Z) : Z := ((n + c - 1) / c)%Z.

(** The value of [i] in the loop when the limit is the whole number [C] of
    at least one: 0 at first, and then a whole number of at least [C]. *)
Definition atIndex (C : Z) (i : float) (a : Z) : Prop :=
  (i = 0%float /\ a = 0%Z) \/ (wholeValue i = Some a /\ (C <= a)%Z).

(** The groups the loop slices, from the value [i] on: the indices of the
    items of each [chunk]. *)
Fixpoint groupsFrom (limit : Z) (total : nat) (fuel : nat) (i : Z)
  : list (list nat) :=
  match fuel with
  | O => []
  | S fuel' =>
      if (i <? Z.of_nat total)%Z then
        slice (seq 0 total) i (i + limit)
              :: groupsFrom limit total fuel' (i + limit)%Z
      else []
  end.

Section Outcomes.

Variable hosts : nat -> Host.
Variable gen : CertificateGenerator.

(** How the render of an item ended. *)
Definition ended (item : nat * CertificateConfig) : JsError + jsstring :=
  outcome (generateCertificate (hosts (fst item)) gen (snd item)).

(** What an item adds to [successful] and what it adds to [failed]. *)
Definition pathsOf (item : nat * CertificateConfig) : list jsstring :=
  match ended item with
  | inr outputPath => [outputPath]
  | inl _ => []
  end.

Definition failuresOf (item : nat * CertificateConfig) : list Failure :=
  match ended item with
  | inr _ => []
  | inl e => [{| config := snd item; error := e |}]
  end.

(** What the callback of [chunk.map] resolves to for an item. *)
Definition resultOf (item : nat * CertificateConfig) : ItemResult :=
  match ended item with
  | inr outputPath =>
      {| success := true;
         result_outputPath := Some outputPath;
         result_error := None;
         result_config := snd item |}
  | inl e =>
      {| success := false;
         result_outputPath := None;
         result_error := Some e;
         result_config := snd item |}
  end.

End Outcomes.

(** ** A concrete world, for the examples *)

Fixpoint dropLastSegment (reversed : jsstring) : jsstring :=
  match reversed with
  | [] => []
  | c :: t => if (c =? 47)%N then t else dropLastSegment t
  end.

(** Everything exists and every call succeeds; the template has one A4
    landscape page; [join] puts a slash between its arguments and [dirname]
    cuts a path at its last slash. *)
Definition quietHost : Host := {|
  existsSync := fun _ => true;
  mkdirSync := fun _ => None;
  readFileSync := fun _ => inr [37; 80; 68; 70]%N;
  writeFileSync := fun _ _ => None;
  dirname := fun path => rev (dropLastSegment (rev path));
  join := fun dir file => dir ++ js "/" ++ file;
  toISOString_now := js "2025-03-14T09:26:53.589Z";
  load_getPages := fun _ => inr [{| getWidth := 842; getHeight := 595 |}];
  embedFont := fun _ => None;
  rgb := fun cr cg cb => inr {| red := cr; green := cg; blue := cb |};
  drawText := fun _ _ _ _ => None;
  save := inr [37; 80; 68; 70]%N
|}.

(** The same world with a template that has no page. *)
Definition emptyTemplateHost : Host := {|
  existsSync := existsSync quietHost;
  mkdirSync := mkdirSync quietHost;
  readFileSync := readFileSync quietHost;
  writeFileSync := writeFileSync quietHost;
  dirname := dirname quietHost;
  join := join quietHost;
  toISOString_now := toISOString_now quietHost;
  load_getPages := fun _ => inr [];
  embedFont := embedFont quietHost;
  rgb := rgb quietHost;
  drawText := drawText quietHost;
  save := save quietHost
|}.

(** The same world with a disk that refuses the write. *)
Definition fullDiskHost : Host := {|
  existsSync := existsSync quietHost;
  mkdirSync := mkdirSync quietHost;
  readFileSync := readFileSync quietHost;
  writeFileSync := fun _ _ => Some (Error (js "ENOSPC: no space left on device"));
  dirname := dirname quietHost;
  join := join quietHost;
  toISOString_now := toISOString_now quietHost;
  load_getPages := load_getPages quietHost;
  embedFont := embedFont quietHost;
  rgb := rgb quietHost;
  drawText := drawText quietHost;
  save := save quietHost
|}.

Definition demoOptions (m : Mode) (limit : float) : GeneratorOptions := {|
  templatePath := js "assets/certificate-template.pdf";
  fontPath := js "assets/font.ttf";
  outputDir := js "/out";
  defaultFontSize := 54;
  defaultFontColor := {| r := 93; g := 97; b := 103 |};
  concurrency := limit;
  mode := m;
  testName := Some (js "Demo User")
|}.

Definition demoGenerator (m : Mode) (limit : float)
  : CertificateGenerator := {|
  options := demoOptions m limit;
  templateBuffer := [37; 80; 68; 70]%N;
  fontBuffer := [0; 1; 0; 0]%N
|}.

Definition person (n : string) (e : option string) : CertificateConfig := {|
  name := js n;
  email := option_map js e;
  outputPath := None;
  fontSize := None;
  fontColor := None;
  position := None
|}.

Definition ada : CertificateConfig := person "Ada Lovelace" (Some "ada@x.com"%string).
Definition nameless : CertificateConfig := person "" (Some "b@x.com"%string).
Definition grace : CertificateConfig := person "Grace Hopper" (Some "grace@x.com"%string).

(** The scheduler that settles the second oldest render in flight first. *)
Definition secondFirst : list nat -> nat := fun _ => 1%nat.

(** ** The wording of the specification, where it needs definitions of its own *)

Definition isBlank (s : jsstring) : bool := forallb isWhiteSpace s.

(** "name is empty/whitespace-only; font size override is present and outside
    [1, 200]; mode is production and email is missing/empty" *)
Definition spec_fontSizeOutside (size : float) : bool :=
  PrimFloat.ltb size 1 || PrimFloat.ltb 200 size.

Definition spec_invalid (opts : GeneratorOptions) (config : CertificateConfig)
  : bool :=
  isBlank (name config)
  || match fontSize config with
     | Some size => spec_fontSizeOutside size
     | None => false
     end
  || isProduction (mode opts)
     && match email config with
        | Some e => isBlank e
        | None => true
        end.

(** What the source tests for the font size. *)
Definition fontSizeRejected (config : CertificateConfig) : bool :=
  match fontSize config with
  | Some size =>
      truthyNumber size && (PrimFloat.leb size 0 || PrimFloat.ltb 200 size)
  | None => false
  end.

Definition threw {A : Type} (res : JsError + A) : bool :=
  match res with inl _ => true | inr _ => false end.

(** "<sanitize(name)>[_<sanitize(email)> if mode==production and email
    present]_<YYYY-MM-DD>.pdf" *)
Definition spec_filename (m : Mode) (n : jsstring) (e : option jsstring)
           (date : jsstring) : jsstring :=
  sanitizeFilename n
  ++ (if isProduction m && truthyString e
      then js "_" ++ sanitizeFilename (match e with Some a => a | None => [] end)
      else [])
  ++ js "_" ++ date ++ js ".pdf".

(** The calendar date of an ISO timestamp: its first ten units. *)
Definition isoDate (timestamp : jsstring) : jsstring := firstn 10 timestamp.

(** What the [catch] clause of [generateCertificate] throws for what it
    caught. *)
Definition rethrown (config : CertificateConfig) (caught : JsError) : JsError :=
  if instanceofCertificateGeneratorError caught then caught
  else CertificateGeneratorError (failedToGenerate config) (Some caught).

Definition isWrite (ev : Effect) : bool :=
  match ev with CallWriteFileSync _ _ => true | _ => false end.

(** An item with a font size of half a point, one with an empty output path,
    and Ada without her email. *)
Definition halfPoint : CertificateConfig := {|
  name := js "Ada Lovelace";
  email := None;
  outputPath := None;
  fontSize := Some 0.5%float;
  fontColor := None;
  position := None
|}.

Definition emptyOutputPath : CertificateConfig := {|
  name := js "Ada Lovelace";
  email := None;
  outputPath := Some [];
  fontSize := None;
  fontColor := None;
  position := None
|}.

Definition explicitOutputPath : CertificateConfig := {|
  name := js "Ada Lovelace";
  email := Some (js "ada@x.com");
  outputPath := Some (js "Custom Dir/Ada's Certificate.PDF");
  fontSize := None;
  fontColor := None;
  position := None
|}.

Definition adaNoEmail : CertificateConfig := person "Ada Lovelace" None.

(** ** Further definitions: the constructor, the calls of a render, the
    options of a batch *)

(** [a === b] on strings. *)
Fixpoint sameString (a b : jsstring) : bool :=
  match a, b with
  | [], [] => true
  | c :: a', d :: b' => (c =? d)%N && sameString a' b'
  | _, _ => false
  end.

(** What [validateOptions] refuses before it looks at the file system. *)
Definition refusedInMemory (opts : GeneratorOptions) : bool :=
  isEmptyString (templatePath opts) || isEmptyString (fontPath opts)
  || isEmptyString (outputDir opts)
  || PrimFloat.leb (concurrency opts) 0
  || isTest (mode opts)
     && match testName opts with
        | Some n => isBlank n
        | None => true
        end.

Definition isMkdir (ev : Effect) : bool :=
  match ev with CallMkdirSync _ => true | _ => false end.

Definition isRead (ev : Effect) : bool :=
  match ev with CallReadFileSync _ => true | _ => false end.

(** The same generator with another concurrency limit. *)
Definition withConcurrency (limit : float) (gen : CertificateGenerator)
  : CertificateGenerator :=
  {| options :=
       {| templatePath := templatePath (options gen);
          fontPath := fontPath (options gen);
          outputDir := outputDir (options gen);
          defaultFontSize := defaultFontSize (options gen);
          defaultFontColor := defaultFontColor (options gen);
          concurrency := limit;
          mode := mode (options gen);
          testName := testName (options gen) |};
     templateBuffer := templateBuffer gen;
     fontBuffer := fontBuffer gen |}.

(** An 8-bit colour channel as a number. *)
Definition channel (n : Z) : float := PrimFloat.of_uint63 (Uint63.of_Z n).

(** The quiet world without the font file, and the quiet world in which no
    file can be read. *)
Definition missingFontHost : Host := {|
  existsSync := fun path =>
    negb (sameString path (js "assets/font.ttf"));
  mkdirSync := mkdirSync quietHost;
  readFileSync := readFileSync quietHost;
  writeFileSync := writeFileSync quietHost;
  dirname := dirname quietHost;
  join := join quietHost;
  toISOString_now := toISOString_now quietHost;
  load_getPages := load_getPages quietHost;
  embedFont := embedFont quietHost;
  rgb := rgb quietHost;
  drawText := drawText quietHost;
  save := save quietHost
|}.

Definition unreadableHost : Host := {|
  existsSync := existsSync quietHost;
  mkdirSync := mkdirSync quietHost;
  readFileSync := fun _ => inl (Error (js "EACCES: permission denied"));
  writeFileSync := writeFileSync quietHost;
  dirname := dirname quietHost;
  join := join quietHost;
  toISOString_now := toISOString_now quietHost;
  load_getPages := load_getPages quietHost;
  embedFont := embedFont quietHost;
  rgb := rgb quietHost;
  drawText := drawText quietHost;
  save := save quietHost
|}.

(** ** utils.ts: FileUtil.isValidEmail *)

(** Regular expressions over code units, and what they match: the whole of a
    string, as a pattern between [^] and [$] does. *)
Inductive Regex : Type :=
| Never
| Empty
| Unit (class : codeunit -> bool)
| Cat (r1 r2 : Regex)
| Alt (r1 r2 : Regex)
| Star (r : Regex).

Definition Plus (r : Regex) : Regex := Cat r (Star r).

Inductive Matches : Regex -> jsstring -> Prop :=
| MatchesEmpty : Matches Empty []
| MatchesUnit (class : codeunit -> bool) (c : codeunit) :
    class c = true -> Matches (Unit class) [c]
| MatchesCat (r1 r2 : Regex) (s1 s2 : jsstring) :
    Matches r1 s1 -> Matches r2 s2 -> Matches (Cat r1 r2) (s1 ++ s2)
| MatchesAltLeft (r1 r2 : Regex) (s : jsstring) :
    Matches r1 s -> Matches (Alt r1 r2) s
| MatchesAltRight (r1 r2 : Regex) (s : jsstring) :
    Matches r2 s -> Matches (Alt r1 r2) s
| MatchesStarNone (r : Regex) : Matches (Star r) []
| MatchesStarMore (r : Regex) (s1 s2 : jsstring) :
    Matches r s1 -> Matches (Star r) s2 -> Matches (Star r) (s1 ++ s2).

(** [regex.test(s)], by derivatives. *)
Fixpoint nullable (r : Regex) : bool :=
  match r with
  | Never => false
  | Empty => true
  | Unit _ => false
  | Cat r1 r2 => nullable r1 && nullable r2
  | Alt r1 r2 => nullable r1 || nullable r2
  | Star _ => true
  end.

Fixpoint derive (c : codeunit) (r : Regex) : Regex :=
  match r with
  | Never => Never
  | Empty => Never
  | Unit class => if class c then Empty else Never
  | Cat r1 r2 =>
      Alt (Cat (derive c r1) r2) (if nullable r1 then derive c r2 else Never)
  | Alt r1 r2 => Alt (derive c r1) (derive c r2)
  | Star r' => Cat (derive c r') (Star r')
  end.

Fixpoint regexTest (r : Regex) (s : jsstring) : bool :=
  match s with
  | [] => nullable r
  | c :: rest => regexTest (derive c r) rest
  end.

Definition atSign : codeunit := 64%N.
Definition fullStop : codeunit := 46%N.

(** [[^\s@]]; the class [\s] is the white space that [trim] strips. *)
Definition notSpaceNorAt (c : codeunit) : bool :=
  negb (isWhiteSpace c || (c =? atSign)%N).

(** [/^[^\s@]+@[^\s@]+\.[^\s@]+$/] *)
Definition emailRegex : Regex :=
  Cat (Plus (Unit notSpaceNorAt))
      (Cat (Unit (fun c => (c =? atSign)%N))
           (Cat (Plus (Unit notSpaceNorAt))
                (Cat (Unit (fun c => (c =? fullStop)%N))
                     (Plus (Unit notSpaceNorAt))))).

Definition isValidEmail (email : jsstring) : bool :=
  regexTest emailRegex email.

(** ** utils.ts: FileUtil.loadPersonData *)

(** What [JSON.parse] returns. An object is the list of its members, each
    key once. *)
Inductive Json : Type :=
| JNull
| JBool (b : bool)
| JNumber (n : float)
| JString (s : jsstring)
| JArray (items : list Json)
| JObject (members : list (jsstring * Json)).

Fixpoint lookupMember (key : jsstring) (members : list (jsstring * Json))
  : option Json :=
  match members with
  | [] => None
  | (k, v) :: rest => if sameString k key then Some v else lookupMember key rest
  end.

(** [item.key]: [undefined] on an array and on an object without the key. *)
Definition getMember (key : jsstring) (item : Json) : option Json :=
  match item with
  | JObject members => lookupMember key members
  | _ => None
  end.

Definition truthyJson (v : option Json) : bool :=
  match v with
  | None => false
  | Some JNull => false
  | Some (JBool b) => b
  | Some (JNumber n) => truthyNumber n
  | Some (JString s) => negb (isEmptyString s)
  | Some (JArray _) => true
  | Some (JObject _) => true
  end.

(** [typeof v === "object"] and [typeof v === "string"] *)
Definition typeofObject (v : option Json) : bool :=
  match v with
  | Some JNull | Some (JArray _) | Some (JObject _) => true
  | _ => false
  end.

Definition typeofString (v : option Json) : bool :=
  match v with
  | Some (JString _) => true
  | _ => false
  end.

Definition stringOf (v : option Json) : jsstring :=
  match v with
  | Some (JString s) => s
  | _ => []
  end.

Module PersonData.
Record t : Type := { name : jsstring; email : jsstring }.
End PersonData.

(** What the runtime answers to [loadPersonData]: the file system, the file
    read as text, [JSON.parse], the conversion of a value inside a template
    literal, and [toLowerCase] on a string that is not ASCII. *)
Record Runtime : Type := {
  fs : Host;
  readFileSync_utf8 : jsstring -> JsError + jsstring;
  JSON_parse : jsstring -> JsError + Json;
  templateString : option Json -> jsstring;
  toLowerCase_unicode : jsstring -> jsstring
}.

Definition isAscii (c : codeunit) : bool := (c <? 128)%N.

(** [s.toLowerCase()] on any string: on ASCII it is the map that
    [sanitizeFilename] uses. *)
Definition toLowerCaseOf (rt : Runtime) (s : jsstring) : jsstring :=
  if forallb isAscii s then toLowerCase s else toLowerCase_unicode rt s.

Fixpoint startsWith (s prefix : jsstring) : bool :=
  match prefix, s with
  | [], _ => true
  | p :: prefix', c :: s' => (c =? p)%N && startsWith s' prefix'
  | _ :: _, [] => false
  end.

(** [s.includes(part)] *)
Fixpoint includes (s part : jsstring) : bool :=
  startsWith s part
  || match s with
     | [] => false
     | _ :: s' => includes s' part
     end.

Fixpoint digitsOf (d : Decimal.uint) : jsstring :=
  match d with
  | Decimal.Nil => []
  | Decimal.D0 d' => 48%N :: digitsOf d'
  | Decimal.D1 d' => 49%N :: digitsOf d'
  | Decimal.D2 d' => 50%N :: digitsOf d'
  | Decimal.D3 d' => 51%N :: digitsOf d'
  | Decimal.D4 d' => 52%N :: digitsOf d'
  | Decimal.D5 d' => 53%N :: digitsOf d'
  | Decimal.D6 d' => 54%N :: digitsOf d'
  | Decimal.D7 d' => 55%N :: digitsOf d'
  | Decimal.D8 d' => 56%N :: digitsOf d'
  | Decimal.D9 d' => 57%N :: digitsOf d'
  end.

(** An array index inside a template literal. *)
Definition indexString (index : nat) : jsstring := digitsOf (Nat.to_uint index).

Definition invalidObject (index : nat) : JsError :=
  DataValidationError
    (js "Item at index " ++ indexString index ++ js " is not a valid object").

Definition invalidName (index : nat) : JsError :=
  DataValidationError
    (js "Item at index " ++ indexString index
        ++ js " has invalid or missing name").

Definition invalidEmail (rt : Runtime) (index : nat) (item : Json) : JsError :=
  DataValidationError
    (js "Item at index " ++ indexString index
        ++ js " has invalid or missing email: "
        ++ templateString rt (getMember (js "email") item)).

(** The callback of [data.forEach], from the item at [index] on. *)
Fixpoint validateItems (rt : Runtime) (index : nat) (data : list Json)
         (validatedData : list PersonData.t) : JsError + list PersonData.t :=
  match data with
  | [] => inr validatedData
  | item :: rest =>
      let itemName := getMember (js "name") item in
      let itemEmail := getMember (js "email") item in
      if negb (truthyJson (Some item)) || negb (typeofObject (Some item)) then
        inl (invalidObject index)
      else if negb (truthyJson itemName) || negb (typeofString itemName)
              || (length (trim (stringOf itemName)) =? 0)%nat then
        inl (invalidName index)
      else if negb (truthyJson itemEmail) || negb (typeofString itemEmail)
              || negb (isValidEmail (stringOf itemEmail)) then
        inl (invalidEmail rt index item)
      else
        validateItems rt (S index) rest
          (validatedData
             ++ [{| PersonData.name := trim (stringOf itemName);
                    PersonData.email :=
                      toLowerCaseOf rt (trim (stringOf itemEmail)) |}])
  end.

(** The second [forEach]: the emails met again, in the order met. *)
Fixpoint findDuplicates (persons : list PersonData.t)
         (emailSet duplicates : list jsstring) : list jsstring :=
  match persons with
  | [] => duplicates
  | person :: rest =>
      if existsb (sameString (PersonData.email person)) emailSet then
        findDuplicates rest emailSet (duplicates ++ [PersonData.email person])
      else
        findDuplicates rest (PersonData.email person :: emailSet) duplicates
  end.

Definition pure {A : Type} (answer : JsError + A) : M A := ([], answer).

Definition loadPersonData (rt : Runtime) (filePath : jsstring)
  : M (list PersonData.t) :=
  tryCatch
    (exists_ <- call (CallExistsSync filePath)
                     (inr (existsSync (fs rt) filePath)) ;;
     if negb exists_ then throw (FileNotFoundError filePath None)
     else
       fileContent <- call (CallReadFileSync filePath)
                           (readFileSync_utf8 rt filePath) ;;
       data <- pure (JSON_parse rt fileContent) ;;
       match data with
       | JArray items =>
           validatedData <- pure (validateItems rt 0 items []) ;;
           let duplicates := findDuplicates validatedData [] [] in
           if (0 <? length duplicates)%nat then
             throw (DataValidationError
                      (js "Duplicate emails found: "
                          ++ joinWith (js ", ") duplicates))
           else ret validatedData
       | _ => throw (DataValidationError (js "JSON file must contain an array"))
       end)
    (fun error =>
       if includes (errorName error) (js "JSON") then
         throw (DataValidationError
                  (js "Invalid JSON format: " ++ message error))
       else throw error).

(** ** data-loader.ts *)

Module AppConfig.
Record t : Type := {
  mode : Mode;
  fontSize : float;
  fontColor : RGB;
  concurrency : float;
  testName : option jsstring;
  templatePath : jsstring;
  fontPath : jsstring;
  emailsJsonPath : jsstring;
  outputDir : jsstring
}.
End AppConfig.

Definition loadTestModeConfigs (config : AppConfig.t)
  : M (list CertificateConfig) :=
  if negb (truthyString (AppConfig.testName config)) then
    throw (Error (js "TEST_NAME environment variable is required in test mode"))
  else
    ret [{| name := match AppConfig.testName config with
                    | Some n => n
                    | None => []
                    end;
            email := None;
            outputPath := None;
            fontSize := Some (AppConfig.fontSize config);
            fontColor := Some (AppConfig.fontColor config);
            position := None |}].

Definition loadProductionModeConfigs (rt : Runtime) (config : AppConfig.t)
  : M (list CertificateConfig) :=
  personData <- loadPersonData rt (AppConfig.emailsJsonPath config) ;;
  ret (map (fun person =>
              {| name := PersonData.name person;
                 email := Some (PersonData.email person);
                 outputPath := None;
                 fontSize := Some (AppConfig.fontSize config);
                 fontColor := Some (AppConfig.fontColor config);
                 position := None |})
           personData).

Definition loadCertificateConfigs (rt : Runtime) (config : AppConfig.t)
  : M (list CertificateConfig) :=
  match AppConfig.mode config with
  | test => loadTestModeConfigs config
  | production => loadProductionModeConfigs rt config
  end.

(** The options that [main] hands to the constructor. *)
Definition generatorOptions (config : AppConfig.t) : GeneratorOptions := {|
  templatePath := AppConfig.templatePath config;
  fontPath := AppConfig.fontPath config;
  outputDir := AppConfig.outputDir config;
  defaultFontSize := AppConfig.fontSize config;
  defaultFontColor := AppConfig.fontColor config;
  concurrency := AppConfig.concurrency config;
  mode := AppConfig.mode config;
  testName := AppConfig.testName config
|}.

(** A record of the data file and the person that [loadPersonData] makes of
    it: the name trimmed, the address in lower case. *)
Definition recordOf (rt : Runtime) (item : Json) (person : PersonData.t)
  : Prop :=
  exists n e,
    getMember (js "name") item = Some (JString n)
    /\ isBlank n = false
    /\ getMember (js "email") item = Some (JString e)
    /\ isValidEmail e = true
    /\ PersonData.name person = trim n
    /\ PersonData.email person = toLowerCaseOf rt e.

(** Whether the first [forEach] lets an item through. *)
Definition accepted (rt : Runtime) (item : Json) : bool :=
  negb (threw (validateItems rt 0 [item] [])).

Definition record (n e : string) : Json :=
  JObject [(js "name", JString (js n)); (js "email", JString (js e))].

(** A runtime for the examples: the quiet world, a data file of two records,
    and a data file that is not JSON. *)
Definition demoRuntime : Runtime := {|
  fs := quietHost;
  readFileSync_utf8 := fun _ => inr (js "[ two records ]");
  JSON_parse := fun _ =>
    inr (JArray [record "  Ada Lovelace " "Ada@X.com";
                 record "Grace Hopper" "grace@x.com"]);
  templateString := fun v =>
    match v with Some (JString s) => s | _ => js "undefined" end;
  toLowerCase_unicode := toLowerCase
|}.

Definition brokenJsonRuntime : Runtime := {|
  fs := quietHost;
  readFileSync_utf8 := fun _ => inr (js "[ not json");
  JSON_parse := fun _ =>
    inl (mkJsError ClassError (js "SyntaxError")
                   (js "JSON Parse error: Unexpected EOF") None);
  templateString := templateString demoRuntime;
  toLowerCase_unicode := toLowerCase
|}.

Definition noDataRuntime : Runtime := {|
  fs := missingFontHost;
  readFileSync_utf8 := readFileSync_utf8 demoRuntime;
  JSON_parse := JSON_parse demoRuntime;
  templateString := templateString demoRuntime;
  toLowerCase_unicode := toLowerCase
|}.

Definition demoAppConfig (m : Mode) : AppConfig.t := {|
  AppConfig.mode := m;
  AppConfig.fontSize := 54;
  AppConfig.fontColor := {| r := 93; g := 97; b := 103 |};
  AppConfig.concurrency := 3;
  AppConfig.testName := Some (js "Demo User");
  AppConfig.templatePath := js "assets/certificate-template.pdf";
  AppConfig.fontPath := js "assets/font.ttf";
  AppConfig.emailsJsonPath := js "emails.json";
  AppConfig.outputDir := js "/out"
|}.

(** A data file with the same address twice, in two spellings, and one whose
    second record has no usable address. *)
Definition duplicateRuntime : Runtime := {|
  fs := quietHost;
  readFileSync_utf8 := fun _ => inr (js "[ the same address twice ]");
  JSON_parse := fun _ =>
    inr (JArray [record "Ada Lovelace" "Ada@X.com";
                 record "Ada L." "ada@x.com"]);
  templateString := templateString demoRuntime;
  toLowerCase_unicode := toLowerCase
|}.

Definition badRecordRuntime : Runtime := {|
  fs := quietHost;
  readFileSync_utf8 := fun _ => inr (js "[ a record without address ]");
  JSON_parse := fun _ =>
    inr (JArray [record "Ada Lovelace" "ada@x.com";
                 record "Grace Hopper" "grace at x.com";
                 JNull]);
  templateString := templateString demoRuntime;
  toLowerCase_unicode := toLowerCase
|}.

(** [[A-Za-z0-9]] *)
Definition isAlnum (c : codeunit) : bool := negb (matchesNonAlnum c).

Definition notUnderscore (c : codeunit) : bool := negb (isUnderscore c).

Definition unitRange (component : float) : bool :=
  PrimFloat.leb 0 component && PrimFloat.leb component 1.

Definition blankTestConfig : AppConfig.t := {|
  AppConfig.mode := test;
  AppConfig.fontSize := 54;
  AppConfig.fontColor := {| r := 93; g := 97; b := 103 |};
  AppConfig.concurrency := 3;
  AppConfig.testName := Some (js "   ");
  AppConfig.templatePath := js "assets/certificate-template.pdf";
  AppConfig.fontPath := js "assets/font.ttf";
  AppConfig.emailsJsonPath := js "emails.json";
  AppConfig.outputDir := js "/out"
|}.

(** ** index.ts: main, from the configuration on *)

(** The exit code of [main] once [loadConfig] has returned [config]; [None]
    if the batch is still running after [fuel] iterations of its loop.
    Whatever is thrown on the way is caught and exits with 1. *)
Definition mainWith (h : Host) (rt : Runtime) (hosts : nat -> Host)
           (sched : list nat -> nat) (config : AppConfig.t) (fuel : nat)
  : option Z :=
  match outcome (loadCertificateConfigs rt config) with
  | inl _ => Some 1%Z
  | inr certificateConfigs =>
      match outcome (newCertificateGenerator h (generatorOptions config)) with
      | inl _ => Some 1%Z
      | inr generator =>
          match generateCertificates hosts sched generator
                                     certificateConfigs fuel with
          | None => None
          | Some (_, inl _) => Some 1%Z
          | Some (_, inr results) =>
              Some (if (0 <? length (failed results))%nat then 1%Z else 0%Z)
          end
      end
  end.

(** Whether every render of a batch returns. *)
Definition allRendered (hosts : nat -> Host) (gen : CertificateGenerator)
           (configs : list CertificateConfig) : bool :=
  forallb (fun item => negb (threw (ended hosts gen item))) (indexed configs).

(** ** config.ts: ConfigManager.parseColor *)

(** The value of a code unit as a digit of [parseInt]: [0-9], then the
    letters of either case for 10 to 35. *)
Definition digitValue (c : codeunit) : option Z :=
  if (48 <=? c)%N && (c <=? 57)%N then Some (Z.of_N c - 48)%Z
  else if (97 <=? c)%N && (c <=? 122)%N then Some (Z.of_N c - 87)%Z
  else if (65 <=? c)%N && (c <=? 90)%N then Some (Z.of_N c - 55)%Z
  else None.

Definition radixDigit (R : Z) (c : codeunit) : option Z :=
  match digitValue c with
  | Some d => if (d <? R)%Z then Some d else None
  | None => None
  end.

(** The integer written by the longest prefix of digits of radix [R];
    [None] if that prefix is empty. *)
Fixpoint readDigits (R : Z) (s : jsstring) (mathInt : Z) (any : bool)
  : option Z :=
  match s with
  | c :: rest =>
      match radixDigit R c with
      | Some d => readDigits R rest (mathInt * R + d) true
      | None => if any then Some mathInt else None
      end
  | [] => if any then Some mathInt else None
  end.

(** The number for an integer and its sign: the nearest binary64 float, and
    [-0] for a negative zero. *)
Definition numberOfInteger (negative : bool) (mathInt : Z) : float :=
  if (mathInt =? 0)%Z then
    if negative then PrimFloat.neg_zero else PrimFloat.zero
  else
    FloatOps.SF2Prim
      (SpecFloat.binary_normalize FloatOps.prec FloatOps.emax
         (if negative then (- mathInt)%Z else mathInt) 0 false).

(** [parseInt(string, radix)], with 0 for a radix that is not given. (The
    language lets an engine round a decimal of more than twenty digits as it
    likes; here every integer is rounded to the nearest float.) *)
Definition parseInt (string : jsstring) (radix : Z) : float :=
  let trimmed := trimStart string in
  let negative := match trimmed with
                  | c :: _ => (c =? 45)%N
                  | [] => false
                  end in
  let unsigned := match trimmed with
                  | c :: rest =>
                      if (c =? 43)%N || (c =? 45)%N then rest else trimmed
                  | [] => trimmed
                  end in
  if negb (radix =? 0)%Z && ((radix <? 2)%Z || (36 <? radix)%Z) then
    PrimFloat.nan
  else
    let hasPrefix :=
      ((radix =? 0)%Z || (radix =? 16)%Z)
      && match unsigned with
         | zero :: x :: _ =>
             (zero =? 48)%N && ((x =? 120)%N || (x =? 88)%N)
         | _ => false
         end in
    let digits := if hasPrefix then skipn 2 unsigned else unsigned in
    let R := if hasPrefix then 16%Z
             else if (radix =? 0)%Z then 10%Z else radix in
    match readDigits R digits 0 false with
    | Some mathInt => numberOfInteger negative mathInt
    | None => PrimFloat.nan
    end.

Definition isDecimalDigit (c : codeunit) : bool :=
  (48 <=? c)%N && (c <=? 57)%N.

(** The matches of [/\d+/g] in [s]: the maximal runs of digits, from the
    left; [run] is the run that is being read. *)
Fixpoint digitRuns (s run : jsstring) : list jsstring :=
  match s with
  | [] => if isEmptyString run then [] else [run]
  | c :: rest =>
      if isDecimalDigit c then digitRuns rest (run ++ [c])
      else if isEmptyString run then digitRuns rest []
      else run :: digitRuns rest []
  end.

(** [s.match(/\d+/g)]: [null] when nothing matches. *)
Definition matchDigits (s : jsstring) : option (list jsstring) :=
  match digitRuns s [] with
  | [] => None
  | values => Some values
  end.

(** [s.split(sep)] for a separator of one unit; [part] is the part that is
    being read. *)
Fixpoint splitOn (sep : codeunit) (s part : jsstring) : list jsstring :=
  match s with
  | [] => [part]
  | c :: rest =>
      if (c =? sep)%N then part :: splitOn sep rest []
      else splitOn sep rest (part ++ [c])
  end.

Definition comma : codeunit := 44%N.

(** The default format of [parseColor]: "93,97,103". *)
Definition parseColorDefault (colorStr : jsstring) : RGB :=
  let numbers := map (fun s => parseInt (trim s) 0)
                     (splitOn comma colorStr []) in
  {| r := orDefaultNumber (nth_error numbers 0) 0;
     g := orDefaultNumber (nth_error numbers 1) 0;
     b := orDefaultNumber (nth_error numbers 2) 0 |}.

Definition parseColor (colorStr : jsstring) : RGB :=
  if startsWith colorStr (js "#") then
    let hex := slice colorStr 1 (Z.of_nat (length colorStr)) in
    {| r := parseInt (slice hex 0 2) 16;
       g := parseInt (slice hex 2 4) 16;
       b := parseInt (slice hex 4 6) 16 |}
  else if startsWith colorStr (js "rgb(") then
    match matchDigits colorStr with
    | Some values =>
        if (3 <=? length values)%nat then
          {| r := parseInt (nth 0 values (js "0")) 0;
             g := parseInt (nth 1 values (js "0")) 0;
             b := parseInt (nth 2 values (js "0")) 0 |}
        else parseColorDefault colorStr
    | None => parseColorDefault colorStr
    end
  else parseColorDefault colorStr.

(** The integer that a string of decimal or hexadecimal digits writes. *)
Definition digitOf (c : codeunit) : Z :=
  match digitValue c with
  | Some d => d
  | None => 0
  end.

Definition isHexDigit (c : codeunit) : bool :=
  match radixDigit 16 c with
  | Some _ => true
  | None => false
  end.

Definition decimalValue (digits : jsstring) : Z :=
  fold_left (fun value c => (value * 10 + digitOf c)%Z) digits 0%Z.

Definition decimalByte (digits : jsstring) : bool :=
  negb (isEmptyString digits) && forallb isDecimalDigit digits
  && (decimalValue digits <=? 255)%Z.

(** * Properties *)

(** ** The filename sanitizer *)

Section Sanitizer.

Ltac units :=
  unfold isFilenameUnit, matchesNonAlnum, lowerUnit, isUpper, isLower,
         isDigit, isUnderscore, underscore in *.

Ltac split_units :=
  repeat match goal with
         | |- context [(?a <=? ?b)%N] => destruct (N.leb_spec a b)
         | |- context [(?a =? ?b)%N] => destruct (N.eqb_spec a b)
         end; simpl in *; try reflexivity; try lia.

Lemma replaced_then_lowered_unit (c : codeunit) :
  isFilenameUnit (lowerUnit (if matchesNonAlnum c then underscore else c))
  = true.
Proof.
  units.
  destruct (N.leb_spec 97 c), (N.leb_spec c 122), (N.leb_spec 65 c),
    (N.leb_spec c 90), (N.leb_spec 48 c), (N.leb_spec c 57);
    simpl; split_units.
Qed.

Lemma lowered_units (s : jsstring) :
  forallb isFilenameUnit (toLowerCase (replaceNonAlnum s)) = true.
Proof.
  induction s as [|c t IH]; simpl; [reflexivity|].
  now rewrite replaced_then_lowered_unit, IH.
Qed.

Lemma collapse_cons (c : codeunit) (t : jsstring) :
  collapseUnderscores (c :: t) =
  if isUnderscore c then
    match t with
    | c' :: _ =>
        if isUnderscore c' then collapseUnderscores t
        else c :: collapseUnderscores t
    | [] => [c]
    end
  else c :: collapseUnderscores t.
Proof. reflexivity. Qed.

Lemma collapse_head (c : codeunit) (t : jsstring) :
  exists rest, collapseUnderscores (c :: t) = c :: rest.
Proof.
  revert c. induction t as [|c' t' IH]; intros c; rewrite collapse_cons.
  - destruct (isUnderscore c); eauto.
  - destruct (isUnderscore c) eqn:Hc; [|eauto].
    destruct (isUnderscore c') eqn:Hc'; [|eauto].
    destruct (IH c') as [rest Hrest]. rewrite Hrest.
    unfold isUnderscore in *. apply N.eqb_eq in Hc, Hc'. subst. eauto.
Qed.

Lemma collapse_units (P : codeunit -> bool) (s : jsstring) :
  forallb P s = true -> forallb P (collapseUnderscores s) = true.
Proof.
  induction s as [|c t IH]; [reflexivity|].
  intros H. simpl in H. apply andb_true_iff in H as [Hc Ht].
  specialize (IH Ht). rewrite collapse_cons.
  destruct (isUnderscore c); [destruct t as [|c' t']|].
  - simpl. now rewrite Hc.
  - destruct (isUnderscore c'); [exact IH|].
    change (P c && forallb P (collapseUnderscores (c' :: t')) = true).
    now rewrite Hc, IH.
  - change (P c && forallb P (collapseUnderscores t) = true).
    now rewrite Hc, IH.
Qed.

Lemma collapse_single (s : jsstring) :
  singleUnderscores (collapseUnderscores s) = true.
Proof.
  induction s as [|c t IH]; [reflexivity|].
  rewrite collapse_cons. destruct (isUnderscore c) eqn:Hc.
  - destruct t as [|c' t']; [reflexivity|].
    destruct (isUnderscore c') eqn:Hc'; [exact IH|].
    destruct (collapse_head c' t') as [rest Hrest].
    rewrite Hrest in *.
    change (negb (isUnderscore c && isUnderscore c')
            && singleUnderscores (c' :: rest) = true).
    now rewrite Hc, Hc', IH.
  - destruct t as [|c' t']; [reflexivity|].
    destruct (collapse_head c' t') as [rest Hrest].
    rewrite Hrest in *.
    change (negb (isUnderscore c && isUnderscore c')
            && singleUnderscores (c' :: rest) = true).
    now rewrite Hc, IH.
Qed.

Lemma single_tail (c : codeunit) (t : jsstring) :
  singleUnderscores (c :: t) = true -> singleUnderscores t = true.
Proof.
  destruct t as [|c' t']; [reflexivity|].
  simpl. intros H. apply andb_true_iff in H. tauto.
Qed.

Lemma single_head (c c' : codeunit) (t : jsstring) :
  singleUnderscores (c :: c' :: t) = true ->
  isUnderscore c = true -> isUnderscore c' = false.
Proof.
  simpl. intros H Hc. rewrite Hc in H.
  destruct (isUnderscore c'); [discriminate|reflexivity].
Qed.

Lemma removeLeading_units (P : codeunit -> bool) (s : jsstring) :
  forallb P s = true -> forallb P (removeLeadingUnderscore s) = true.
Proof.
  destruct s as [|c t]; [reflexivity|]. intros H. simpl.
  destruct (isUnderscore c); [|exact H].
  simpl in H. apply andb_true_iff in H. tauto.
Qed.

Lemma removeLeading_single (s : jsstring) :
  singleUnderscores s = true ->
  singleUnderscores (removeLeadingUnderscore s) = true.
Proof.
  destruct s as [|c t]; [reflexivity|]. intros H. simpl.
  destruct (isUnderscore c); [|exact H]. exact (single_tail _ _ H).
Qed.

Lemma removeLeading_head (s : jsstring) :
  singleUnderscores s = true ->
  isUnderscore (hd 0%N (removeLeadingUnderscore s)) = false.
Proof.
  destruct s as [|c t]; [reflexivity|]. intros H. simpl.
  destruct (isUnderscore c) eqn:Hc; [|exact Hc].
  destruct t as [|c' t']; [reflexivity|].
  exact (single_head _ _ _ H Hc).
Qed.

Lemma removeTrailing_units (P : codeunit -> bool) (s : jsstring) :
  forallb P s = true -> forallb P (removeTrailingUnderscore s) = true.
Proof.
  induction s as [|c t IH]; [reflexivity|]. intros H.
  simpl in H. apply andb_true_iff in H as [Hc Ht].
  destruct t as [|c' t'].
  - simpl. destruct (isUnderscore c); simpl; [reflexivity|now rewrite Hc].
  - change (P c && forallb P (removeTrailingUnderscore (c' :: t')) = true).
    now rewrite Hc, IH.
Qed.

Lemma removeTrailing_single (s : jsstring) :
  singleUnderscores s = true ->
  singleUnderscores (removeTrailingUnderscore s) = true.
Proof.
  induction s as [|c t IH]; [reflexivity|]. intros H.
  destruct t as [|c' t'].
  - simpl. destruct (isUnderscore c); reflexivity.
  - specialize (IH (single_tail _ _ H)).
    destruct t' as [|c'' t''].
    + clear IH. cbn [removeTrailingUnderscore].
      destruct (isUnderscore c') eqn:Hc'; [reflexivity|].
      cbn [singleUnderscores]. rewrite Hc'.
      now rewrite andb_false_r.
    + change (removeTrailingUnderscore (c :: c' :: c'' :: t''))
        with (c :: c' :: removeTrailingUnderscore (c'' :: t'')).
      change (removeTrailingUnderscore (c' :: c'' :: t''))
        with (c' :: removeTrailingUnderscore (c'' :: t'')) in IH.
      simpl in H. apply andb_true_iff in H as [H1 _].
      change (negb (isUnderscore c && isUnderscore c')
              && singleUnderscores
                   (c' :: removeTrailingUnderscore (c'' :: t'')) = true).
      now rewrite H1, IH.
Qed.

Lemma removeTrailing_head (s : jsstring) :
  isUnderscore (hd 0%N s) = false ->
  isUnderscore (hd 0%N (removeTrailingUnderscore s)) = false.
Proof.
  destruct s as [|c [|c' t']]; simpl; intros H; [reflexivity| |exact H].
  now rewrite H.
Qed.

Lemma removeTrailing_last (s : jsstring) :
  singleUnderscores s = true ->
  isUnderscore (last (removeTrailingUnderscore s) 0%N) = false.
Proof.
  induction s as [|c t IH]; [reflexivity|]. intros H.
  destruct t as [|c' t'].
  - simpl. destruct (isUnderscore c) eqn:Hc; simpl; [reflexivity|exact Hc].
  - specialize (IH (single_tail _ _ H)).
    destruct t' as [|c'' t''].
    + simpl in *. destruct (isUnderscore c') eqn:Hc'; simpl.
      * destruct (isUnderscore c); [discriminate|reflexivity].
      * exact Hc'.
    + change (removeTrailingUnderscore (c :: c' :: c'' :: t''))
        with (c :: c' :: removeTrailingUnderscore (c'' :: t'')).
      change (removeTrailingUnderscore (c' :: c'' :: t''))
        with (c' :: removeTrailingUnderscore (c'' :: t'')) in IH.
      exact IH.
Qed.

Lemma sanitize_clean (s : jsstring) :
  cleanFilename (sanitizeFilename s) = true.
Proof.
  unfold cleanFilename, sanitizeFilename, removeEdgeUnderscores,
    noEdgeUnderscore.
  set (u := collapseUnderscores (toLowerCase (replaceNonAlnum s))).
  assert (Hu : forallb isFilenameUnit u = true)
    by (apply collapse_units, lowered_units).
  assert (Hs : singleUnderscores u = true) by apply collapse_single.
  rewrite removeTrailing_units by now apply removeLeading_units.
  rewrite removeTrailing_single by now apply removeLeading_single.
  rewrite removeTrailing_head by now apply removeLeading_head.
  rewrite removeTrailing_last by now apply removeLeading_single.
  reflexivity.
Qed.

(** A clean filename goes through every step unchanged. *)

Lemma filename_unit_kept (c : codeunit) :
  isFilenameUnit c = true ->
  lowerUnit (if matchesNonAlnum c then underscore else c) = c.
Proof.
  units.
  destruct (N.leb_spec 97 c), (N.leb_spec c 122), (N.leb_spec 65 c),
    (N.leb_spec c 90), (N.leb_spec 48 c), (N.leb_spec c 57),
    (N.eqb_spec c 95);
    simpl; intros Hk; try discriminate Hk; subst; split_units.
Qed.

Lemma lowered_fixed (s : jsstring) :
  forallb isFilenameUnit s = true -> toLowerCase (replaceNonAlnum s) = s.
Proof.
  induction s as [|c t IH]; [reflexivity|]. intros H.
  simpl in H. apply andb_true_iff in H as [Hc Ht].
  simpl. now rewrite filename_unit_kept, IH.
Qed.

Lemma collapse_fixed (s : jsstring) :
  singleUnderscores s = true -> collapseUnderscores s = s.
Proof.
  induction s as [|c t IH]; [reflexivity|]. intros H.
  specialize (IH (single_tail _ _ H)). rewrite collapse_cons, IH.
  destruct (isUnderscore c) eqn:Hc; [|reflexivity].
  destruct t as [|c' t']; [reflexivity|].
  now rewrite (single_head _ _ _ H Hc).
Qed.

Lemma removeLeading_fixed (s : jsstring) :
  isUnderscore (hd 0%N s) = false -> removeLeadingUnderscore s = s.
Proof.
  destruct s as [|c t]; [reflexivity|]. simpl. now intros ->.
Qed.

Lemma removeTrailing_fixed (s : jsstring) :
  isUnderscore (last s 0%N) = false -> removeTrailingUnderscore s = s.
Proof.
  induction s as [|c t IH]; [reflexivity|].
  destruct t as [|c' t']; [simpl; now intros ->|].
  intros H.
  change (c :: removeTrailingUnderscore (c' :: t') = c :: c' :: t').
  now rewrite IH.
Qed.

Lemma clean_fixed (s : jsstring) :
  cleanFilename s = true -> sanitizeFilename s = s.
Proof.
  unfold cleanFilename, noEdgeUnderscore. intros H.
  apply andb_true_iff in H as [H Hedge].
  apply andb_true_iff in H as [Hunits Hsingle].
  apply andb_true_iff in Hedge as [Hhd Hlast].
  apply negb_true_iff in Hhd, Hlast.
  unfold sanitizeFilename, removeEdgeUnderscores.
  rewrite lowered_fixed, collapse_fixed, removeLeading_fixed,
    removeTrailing_fixed; auto.
Qed.

(** The steps of the source against the steps of the specification. *)

Lemma spec_replace_lowercase (s : jsstring) :
  spec_lowercase (spec_replace s) = toLowerCase (replaceNonAlnum s).
Proof.
  unfold spec_lowercase, spec_replace, toLowerCase, replaceNonAlnum.
  rewrite !map_map. apply map_ext. intros c.
  unfold lowerUnit, matchesNonAlnum.
  destruct (isUpper c), (isLower c), (isDigit c); reflexivity.
Qed.

Lemma spec_collapse_from_eq (s : jsstring) :
  spec_collapse_from false s = collapseUnderscores s
  /\ spec_collapse_from true s
     = removeLeadingUnderscore (collapseUnderscores s).
Proof.
  induction s as [|c t [IHf IHt]]; [split; reflexivity|].
  rewrite collapse_cons. cbn [spec_collapse_from].
  destruct (isUnderscore c) eqn:Hc.
  - rewrite IHt. destruct t as [|c' t'].
    + simpl. rewrite Hc. split; reflexivity.
    + destruct (isUnderscore c') eqn:Hc'.
      * split; [|reflexivity].
        destruct (collapse_head c' t') as [rest Hrest]. rewrite Hrest.
        cbn [removeLeadingUnderscore]. rewrite Hc'.
        unfold isUnderscore in Hc, Hc'. apply N.eqb_eq in Hc, Hc'.
        congruence.
      * destruct (collapse_head c' t') as [rest Hrest]. rewrite Hrest.
        cbn [removeLeadingUnderscore]. rewrite Hc, Hc'. split; reflexivity.
  - rewrite IHf. cbn [removeLeadingUnderscore]. rewrite Hc.
    split; reflexivity.
Qed.

Lemma spec_strip_leading_single (s : jsstring) :
  singleUnderscores s = true ->
  spec_strip_leading s = removeLeadingUnderscore s.
Proof.
  destruct s as [|c t]; [reflexivity|]. intros H. simpl.
  destruct (isUnderscore c) eqn:Hc; [|reflexivity].
  destruct t as [|c' t']; [reflexivity|].
  simpl. now rewrite (single_head _ _ _ H Hc).
Qed.

Lemma single_snoc (u : jsstring) (c : codeunit) :
  singleUnderscores (u ++ [c]) = true ->
  singleUnderscores u = true
  /\ (isUnderscore c = true -> isUnderscore (last u 0%N) = false).
Proof.
  induction u as [|a u IH]; [split; reflexivity|]. intros H.
  destruct u as [|a' u'].
  - split; [reflexivity|]. intros Hc. simpl in *.
    rewrite Hc in H. destruct (isUnderscore a); [discriminate|reflexivity].
  - change ((a :: a' :: u') ++ [c]) with (a :: a' :: (u' ++ [c])) in H.
    cbn [singleUnderscores] in H. apply andb_true_iff in H as [H1 H2].
    destruct (IH H2) as [IH1 IH2]. split.
    + cbn [singleUnderscores]. now rewrite H1.
    + exact IH2.
Qed.

Lemma removeTrailing_snoc (u : jsstring) (c : codeunit) :
  removeTrailingUnderscore (u ++ [c]) = if isUnderscore c then u else u ++ [c].
Proof.
  induction u as [|a u IH]; [simpl; destruct (isUnderscore c); reflexivity|].
  destruct u as [|a' u'].
  - simpl. destruct (isUnderscore c); reflexivity.
  - change ((a :: a' :: u') ++ [c]) with (a :: a' :: (u' ++ [c])).
    change (removeTrailingUnderscore (a :: a' :: u' ++ [c]))
      with (a :: removeTrailingUnderscore ((a' :: u') ++ [c])).
    rewrite IH. destruct (isUnderscore c); reflexivity.
Qed.

Lemma spec_strip_leading_rev (u : jsstring) :
  isUnderscore (last u 0%N) = false -> spec_strip_leading (rev u) = rev u.
Proof.
  destruct u as [|a u] using rev_ind; [reflexivity|].
  rewrite last_last, rev_app_distr. simpl. now intros ->.
Qed.

Lemma spec_strip_single (s : jsstring) :
  singleUnderscores s = true -> spec_strip s = removeEdgeUnderscores s.
Proof.
  intros H. unfold spec_strip, removeEdgeUnderscores.
  rewrite (spec_strip_leading_single s H).
  apply removeLeading_single in H.
  destruct (removeLeadingUnderscore s) as [|a u] using rev_ind;
    [reflexivity|].
  rewrite removeTrailing_snoc, rev_app_distr.
  destruct (single_snoc _ _ H) as [_ Hlast]. simpl.
  destruct (isUnderscore a) eqn:Ha.
  - rewrite spec_strip_leading_rev by auto. apply rev_involutive.
  - simpl. now rewrite rev_involutive.
Qed.

Lemma spec_sanitize_eq (s : jsstring) :
  spec_sanitize s = sanitizeFilename s.
Proof.
  unfold spec_sanitize, sanitizeFilename, spec_collapse.
  rewrite spec_replace_lowercase.
  rewrite (proj1 (spec_collapse_from_eq _)).
  apply spec_strip_single, collapse_single.
Qed.

End Sanitizer.

(** C6. For every input string, [sanitizeFilename] returns what the rule of
    the specification returns (every character outside [A-Za-z0-9] replaced by
    an underscore, the result lowercased, runs of underscores collapsed to
    one, leading and trailing underscores stripped); consequently the
    sanitized filename holds only lowercase alphanumerics and underscores, no
    two underscores are adjacent, and it neither starts nor ends with an
    underscore. *)
Theorem sanitizeFilename_rule (s : jsstring) :
  sanitizeFilename s = spec_sanitize s
  /\ forallb isFilenameUnit (sanitizeFilename s) = true
  /\ singleUnderscores (sanitizeFilename s) = true
  /\ isUnderscore (hd 0%N (sanitizeFilename s)) = false
  /\ isUnderscore (last (sanitizeFilename s) 0%N) = false.
Proof.
  split; [symmetry; apply spec_sanitize_eq|].
  pose proof (sanitize_clean s) as H.
  unfold cleanFilename, noEdgeUnderscore in H.
  apply andb_true_iff in H as [H Hedge].
  apply andb_true_iff in H as [Hunits Hsingle].
  apply andb_true_iff in Hedge as [Hhd Hlast].
  apply negb_true_iff in Hhd, Hlast. auto.
Qed.

(** C10. The sanitizer is idempotent: sanitizing a sanitized filename gives
    the same filename. *)
Theorem sanitizeFilename_idempotent (s : jsstring) :
  sanitizeFilename (sanitizeFilename s) = sanitizeFilename s.
Proof. apply clean_fixed, sanitize_clean. Qed.

(** ** Validation of an item *)

Section Validation.

Lemma trim_blank (s : jsstring) :
  (length (trim s) =? 0)%nat = isBlank s.
Proof.
  unfold trim, trimEnd, isBlank. rewrite length_rev.
  induction s as [|c t IH]; [reflexivity|].
  simpl. destruct (isWhiteSpace c) eqn:Hc; [exact IH|].
  simpl. clear IH.
  assert (H : forall u v, (exists a, In a v /\ isWhiteSpace a = false) ->
                          length (trimStart (u ++ v)) <> O).
  { induction u as [|a u IHu]; intros v [w [Hin Hw]]; simpl.
    - induction v as [|a v IHv]; [destruct Hin|]. simpl.
      destruct (isWhiteSpace a) eqn:Ha; [|discriminate].
      destruct Hin as [->|Hin]; [congruence|auto].
    - destruct (isWhiteSpace a); [|discriminate].
      apply IHu. eauto. }
  specialize (H (rev t) [c]). simpl in H.
  destruct (length (trimStart (rev t ++ [c]))); [|reflexivity].
  exfalso. apply H; [|reflexivity]. exists c. simpl. auto.
Qed.

Lemma blank_empty (s : jsstring) :
  isEmptyString s || isBlank s = isBlank s.
Proof. destruct s; reflexivity. Qed.

(** What [validateCertificateConfig] tests, in one expression. *)
Lemma validate_threw (opts : GeneratorOptions) (config : CertificateConfig) :
  threw (validateCertificateConfig opts config)
  = isBlank (name config)
    || fontSizeRejected config
    || isProduction (mode opts)
       && match email config with
          | Some e => isBlank e
          | None => true
          end.
Proof.
  unfold validateCertificateConfig, fontSizeRejected.
  rewrite trim_blank, blank_empty.
  destruct (isBlank (name config)); [reflexivity|].
  destruct (fontSize config) as [size|]; simpl.
  - destruct (truthyNumber size && _); [reflexivity|]. simpl.
    destruct (email config) as [e|];
      [rewrite trim_blank, blank_empty|];
      destruct (isProduction (mode opts) && _); reflexivity.
  - destruct (email config) as [e|];
      [rewrite trim_blank, blank_empty|];
      destruct (isProduction (mode opts) && _); reflexivity.
Qed.

(** Whatever it throws is an [InvalidConfigError]. *)
Lemma validate_class (opts : GeneratorOptions) (config : CertificateConfig)
      (e : JsError) :
  validateCertificateConfig opts config = inl e ->
  errorClass e = ClassInvalidConfigError.
Proof.
  unfold validateCertificateConfig.
  repeat match goal with
         | |- context [if ?b then _ else _] => destruct b
         end; intros H; inversion H; reflexivity.
Qed.

(** A render that fails validation has called nothing. *)
Lemma invalid_item_calls_nothing (h : Host) (gen : CertificateGenerator)
      (config : CertificateConfig) :
  threw (validateCertificateConfig (options gen) config) = true ->
  calls (generateCertificate h gen config) = []
  /\ outcome (generateCertificate h gen config)
     = match validateCertificateConfig (options gen) config with
       | inl e => inl e
       | inr _ => inr []
       end.
Proof.
  unfold generateCertificate.
  destruct (validateCertificateConfig (options gen) config);
    [split; reflexivity|discriminate].
Qed.

End Validation.

(** C3. The validation does not throw exactly when the specification says it
    must: an item with a font size of 0.5 is outside [1, 200], so the
    specification rejects it, while [validateCertificateConfig] passes it
    (its test is [fontSize <= 0 || fontSize > 200]) and the render then draws
    the name at size 0.5. *)
Theorem validation_accepts_half_point_font :
  spec_invalid (demoOptions test 3) halfPoint = true
  /\ validateCertificateConfig (demoOptions test 3) halfPoint = inr tt
  /\ In (CallDrawText (js "Ada Lovelace")
                      {| x := 419.2; y := 297.25 |} 0.5%float)
        (calls (generateCertificate quietHost (demoGenerator test 3) halfPoint)).
Proof.
  split; [vm_compute; reflexivity|].
  split; [vm_compute; reflexivity|].
  vm_compute. tauto.
Qed.

(** ** Placement of the text *)

Section Placement.

Lemma ltb_leb (a c : float) :
  PrimFloat.ltb a c = true -> PrimFloat.leb a c = true.
Proof.
  rewrite ltb_spec, leb_spec. unfold SFltb, SFleb.
  destruct (SFcompare _ _) as [[]|]; congruence.
Qed.

(** [Math.max(0, a)] is at least zero unless [a] is [NaN], and then it is
    [NaN]. *)
Lemma Math_max_zero (a : float) :
  PrimFloat.leb 0 (Math_max 0 a) = negb (PrimFloat.is_nan a)
  /\ PrimFloat.is_nan (Math_max 0 a) = PrimFloat.is_nan a.
Proof.
  unfold Math_max.
  change (PrimFloat.is_nan 0) with false. cbn [orb].
  destruct (PrimFloat.is_nan a) eqn:Hnan; [split; reflexivity|].
  destruct (PrimFloat.ltb 0 a) eqn:Hpos.
  - split; [now apply ltb_leb|exact Hnan].
  - destruct (PrimFloat.ltb a 0); split; reflexivity.
Qed.

Lemma SFcompare_refl (s : spec_float) :
  s <> S754_nan -> SFcompare s s = Some Eq.
Proof.
  destruct s as [sg|sg| |sg m e]; intros H; try congruence; simpl.
  - reflexivity.
  - destruct sg; reflexivity.
  - rewrite Z.compare_refl, Pos.compare_cont_refl. destruct sg; reflexivity.
Qed.

Lemma is_nan_Prim2SF (a : float) :
  PrimFloat.is_nan a = true <-> Prim2SF a = S754_nan.
Proof.
  unfold PrimFloat.is_nan. rewrite eqb_spec. unfold SFeqb. split.
  - intros H. destruct (Prim2SF a) eqn:Ha; try reflexivity;
      rewrite SFcompare_refl in H by congruence; discriminate.
  - intros ->. reflexivity.
Qed.

(** A font size or a page width that is NaN makes the centring offset
    NaN. *)
Lemma nan_offset (len fontSize pageWidth : float) :
  PrimFloat.is_nan fontSize || PrimFloat.is_nan pageWidth = true ->
  PrimFloat.is_nan ((pageWidth - len * fontSize * 0.6) / 2)%float = true.
Proof.
  intros H. apply is_nan_Prim2SF.
  rewrite div_spec, sub_spec, !mul_spec.
  apply orb_true_iff in H as [H|H]; apply is_nan_Prim2SF in H; rewrite H.
  - destruct (Prim2SF len), (Prim2SF pageWidth); reflexivity.
  - reflexivity.
Qed.

End Placement.

(** C4 (amended). For every text, font size and page size: with an explicit
    position the placement is that position, unchanged; without one it is
    x = max(0, (pageWidth - len(text)*fontSize*0.6) / 2) and
    y = pageHeight/2 - fontSize/2, and x is at least zero exactly when the
    centring offset (pageWidth - len(text)*fontSize*0.6) / 2 is a number;
    when the offset is NaN, as it is whenever the font size or the page width
    is NaN, x is NaN. The computation never fails. *)
Theorem calculateTextPosition_placement
        (text : jsstring) (fontSize pageWidth pageHeight : float)
        (explicit : Position) :
  let offset :=
    ((pageWidth - lengthNumber text * fontSize * 0.6) / 2)%float in
  let centred :=
    calculateTextPosition text fontSize pageWidth pageHeight None in
  calculateTextPosition text fontSize pageWidth pageHeight (Some explicit)
  = explicit
  /\ x centred = Math_max 0 offset
  /\ y centred = (pageHeight / 2 - fontSize / 2)%float
  /\ PrimFloat.leb 0 (x centred) = negb (PrimFloat.is_nan offset)
  /\ PrimFloat.is_nan (x centred) = PrimFloat.is_nan offset
  /\ implb (PrimFloat.is_nan fontSize || PrimFloat.is_nan pageWidth)
           (PrimFloat.is_nan (x centred)) = true.
Proof.
  cbv zeta. cbn [calculateTextPosition x y].
  repeat split; try apply Math_max_zero.
  destruct (PrimFloat.is_nan fontSize || PrimFloat.is_nan pageWidth) eqn:Hnan;
    [|reflexivity].
  cbn [implb]. rewrite (proj2 (Math_max_zero _)). now apply nan_offset.
Qed.

(** C4 (as stated, refuted). With a font size that is NaN -- what
    [parseInt] makes of a FONT_SIZE that is not a number, and what validation
    lets through -- the returned x is NaN, which is not at least zero. *)
Lemma calculateTextPosition_nan_x :
  PrimFloat.leb 0
    (x (calculateTextPosition (js "Ada Lovelace") PrimFloat.nan 842 595 None))
  = false
  /\ validateCertificateConfig (demoOptions test 3)
       {| name := js "Ada Lovelace"; email := None; outputPath := None;
          fontSize := Some PrimFloat.nan; fontColor := None;
          position := None |} = inr tt.
Proof. split; vm_compute; reflexivity. Qed.

(** ** The output path *)

Section OutputPath.

Lemma slice_prefix {A : Type} (l : list A) (n : nat) :
  slice l 0 (Z.of_nat n) = firstn n l.
Proof.
  assert (H0 : relativeIndex (Z.of_nat (length l)) 0 = 0%Z)
    by (unfold relativeIndex; simpl; lia).
  assert (Hn : relativeIndex (Z.of_nat (length l)) (Z.of_nat n)
               = Z.min (Z.of_nat n) (Z.of_nat (length l))).
  { unfold relativeIndex.
    destruct (Z.ltb_spec (Z.of_nat n) 0) as [Hneg|_]; [lia|reflexivity]. }
  unfold slice. rewrite H0, Hn, Z.sub_0_r. cbn [Z.to_nat skipn].
  destruct (Nat.le_ge_cases n (length l)) as [Hle|Hge].
  - rewrite Z.min_l by lia. now rewrite Nat2Z.id.
  - rewrite Z.min_r by lia. rewrite Nat2Z.id.
    now rewrite !firstn_all2 by lia.
Qed.

(** In production an item that passed validation has a non-empty email, so
    "the item has an email" and the truthiness test of the resolver agree
    wherever the resolver is reached. *)
Lemma validated_production_email (opts : GeneratorOptions)
      (config : CertificateConfig) :
  validateCertificateConfig opts config = inr tt ->
  mode opts = production ->
  truthyString (email config) = true.
Proof.
  intros Hvalid Hmode.
  pose proof (validate_threw opts config) as H.
  rewrite Hvalid, Hmode in H. simpl in H. symmetry in H.
  apply orb_false_iff in H as [_ H].
  destruct (email config) as [[|c e]|]; simpl in *; congruence.
Qed.

End OutputPath.

(** C5. For every item without an output-path override (none, or an empty
    one, which the resolver takes for none), the resolved path is the output
    directory joined with [<sanitize(name)>_<YYYY-MM-DD>.pdf], or with
    [<sanitize(name)>_<sanitize(email)>_<YYYY-MM-DD>.pdf] when the mode is
    production and the item has an email; the date is the date of the clock
    reading of the call, whatever the item. *)
Theorem generateOutputPath_default (h : Host) (opts : GeneratorOptions)
        (config : CertificateConfig) :
  truthyString (outputPath config) = false ->
  generateOutputPath h opts config
  = join h (outputDir opts)
         (spec_filename (mode opts) (name config) (email config)
                        (isoDate (toISOString_now h))).
Proof.
  intros Hnone. unfold generateOutputPath, spec_filename, isoDate.
  rewrite Hnone. change 10%Z with (Z.of_nat 10). rewrite slice_prefix.
  f_equal.
  destruct (email config) as [[|c e]|], (mode opts); simpl;
    rewrite <- ?app_assoc; reflexivity.
Qed.

Lemma generateOutputPath_default_witness :
  truthyString (outputPath ada) = false
  /\ generateOutputPath quietHost (demoOptions production 2) ada
     = js "/out/ada_lovelace_ada_x_com_2025-03-14.pdf".
Proof.
  split; [reflexivity|].
  rewrite (generateOutputPath_default quietHost (demoOptions production 2) ada);
    reflexivity.
Defined.

(** C7 (amended). For every item whose [outputPath] is set to a non-empty
    string, the resolver returns exactly that string, unmodified and
    unsanitized, whatever the name, the email, the mode, the output directory
    and the date. *)
Theorem generateOutputPath_override (h : Host) (opts : GeneratorOptions)
        (config : CertificateConfig) (path : jsstring) :
  outputPath config = Some path ->
  path <> [] ->
  generateOutputPath h opts config = path.
Proof.
  intros Hset Hnonempty. unfold generateOutputPath. rewrite Hset.
  destruct path; [congruence|reflexivity].
Qed.

Lemma generateOutputPath_override_witness :
  outputPath explicitOutputPath = Some (js "Custom Dir/Ada's Certificate.PDF")
  /\ generateOutputPath quietHost (demoOptions production 2) explicitOutputPath
     = js "Custom Dir/Ada's Certificate.PDF".
Proof.
  split; [reflexivity|].
  apply (generateOutputPath_override quietHost (demoOptions production 2)
           explicitOutputPath (js "Custom Dir/Ada's Certificate.PDF")).
  - reflexivity.
  - discriminate.
Defined.

(** C7 (as stated, refuted). An item whose [outputPath] is set to the empty
    string does not get that path back: the resolver builds the default
    one. *)
Lemma generateOutputPath_empty_override :
  outputPath emptyOutputPath = Some []
  /\ generateOutputPath quietHost (demoOptions test 2) emptyOutputPath
     = js "/out/ada_lovelace_2025-03-14.pdf"
  /\ generateOutputPath quietHost (demoOptions test 2) emptyOutputPath <> [].
Proof. repeat split. discriminate. Qed.

(** ** The render of one item *)

Section Render.

Variable h : Host.
Variable gen : CertificateGenerator.
Variable config : CertificateConfig.

Lemma rethrown_instanceof (caught : JsError) :
  instanceofCertificateGeneratorError (rethrown config caught) = true.
Proof.
  unfold rethrown.
  destruct (instanceofCertificateGeneratorError caught) eqn:H;
    [exact H|reflexivity].
Qed.

Lemma generateCertificate_outcome :
  outcome (generateCertificate h gen config)
  = match validateCertificateConfig (options gen) config with
    | inl invalid => inl invalid
    | inr _ =>
        match outcome (render h gen config) with
        | inl caught => inl (rethrown config caught)
        | inr path => inr path
        end
    end.
Proof.
  unfold generateCertificate, rethrown.
  destruct (validateCertificateConfig (options gen) config);
    [reflexivity|].
  destruct (render h gen config) as [t [caught|path]]; [|reflexivity].
  simpl. destruct (instanceofCertificateGeneratorError caught); reflexivity.
Qed.

Lemma generateCertificate_calls :
  calls (generateCertificate h gen config)
  = match validateCertificateConfig (options gen) config with
    | inl _ => []
    | inr _ =>
        calls (render h gen config)
        ++ match outcome (render h gen config) with
           | inl caught => [LogError (failedToGenerate config) caught]
           | inr _ => []
           end
    end.
Proof.
  unfold generateCertificate.
  destruct (validateCertificateConfig (options gen) config);
    [reflexivity|].
  destruct (render h gen config) as [t [caught|path]]; simpl.
  - destruct (instanceofCertificateGeneratorError caught); reflexivity.
  - now rewrite app_nil_r.
Qed.

Lemma render_empty_template :
  load_getPages h (templateBuffer gen) = inr [] ->
  render h gen config
  = ([CallLoad; CallRegisterFontkit],
     inl (CertificateGeneratorError (js "Template PDF has no pages") None)).
Proof. intros Hload. unfold render. rewrite Hload. reflexivity. Qed.

End Render.

(** C8 (amended). For every item, a failure of the render is propagated as
    one error of the class [CertificateGeneratorError] or of a subclass: what
    the validation throws and what the render itself throws in that class
    propagate unchanged, and anything else is wrapped, once, into a
    [CertificateGeneratorError] whose message is "Failed to generate
    certificate for: " followed by the name of the item and whose cause is
    the error caught. *)
Theorem generateCertificate_failure_policy
        (h : Host) (gen : CertificateGenerator) (config : CertificateConfig) :
  outcome (generateCertificate h gen config)
  = match validateCertificateConfig (options gen) config with
    | inl invalid => inl invalid
    | inr _ =>
        match outcome (render h gen config) with
        | inl caught =>
            inl (if instanceofCertificateGeneratorError caught then caught
                 else CertificateGeneratorError
                        (js "Failed to generate certificate for: "
                            ++ name config)
                        (Some caught))
        | inr path => inr path
        end
    end
  /\ match outcome (generateCertificate h gen config) with
     | inl e => instanceofCertificateGeneratorError e = true
     | inr _ => True
     end.
Proof.
  split; [apply generateCertificate_outcome|].
  rewrite generateCertificate_outcome.
  destruct (validateCertificateConfig (options gen) config) as [invalid|] eqn:Hv.
  - apply validate_class in Hv.
    unfold instanceofCertificateGeneratorError. now rewrite Hv.
  - destruct (outcome (render h gen config)); [|exact I].
    apply rethrown_instanceof.
Qed.

(** C8 (as stated, refuted). The error does not carry the item: Ada with her
    email and Ada without it are two items, and when the disk refuses the
    write both renders fail with the very same error, which holds her name,
    in its message, and the cause. *)
Lemma generateCertificate_error_forgets_item :
  ada <> adaNoEmail
  /\ outcome (generateCertificate fullDiskHost (demoGenerator test 2) ada)
     = outcome (generateCertificate fullDiskHost (demoGenerator test 2)
                                    adaNoEmail)
  /\ outcome (generateCertificate fullDiskHost (demoGenerator test 2) ada)
     = inl (CertificateGeneratorError
              (js "Failed to generate certificate for: Ada Lovelace")
              (Some (Error (js "ENOSPC: no space left on device")))).
Proof. repeat split. discriminate. Qed.

(** C9 (amended). For every valid item, if the template loads with zero pages
    the render fails with the [CertificateGeneratorError] "Template PDF has no
    pages", of the base class and without a cause, and it has not called
    [writeFileSync]: after loading it only logs the failure. *)
Theorem generateCertificate_empty_template
        (h : Host) (gen : CertificateGenerator) (config : CertificateConfig) :
  validateCertificateConfig (options gen) config = inr tt ->
  load_getPages h (templateBuffer gen) = inr [] ->
  outcome (generateCertificate h gen config)
  = inl (CertificateGeneratorError (js "Template PDF has no pages") None)
  /\ filter isWrite (calls (generateCertificate h gen config)) = []
  /\ calls (generateCertificate h gen config)
     = [CallLoad; CallRegisterFontkit;
        LogError (js "Failed to generate certificate for: " ++ name config)
          (CertificateGeneratorError (js "Template PDF has no pages") None)].
Proof.
  intros Hvalid Hload.
  rewrite generateCertificate_outcome, generateCertificate_calls, Hvalid.
  rewrite (render_empty_template h gen config Hload).
  repeat split.
Qed.

Lemma generateCertificate_empty_template_witness :
  validateCertificateConfig (options (demoGenerator production 2)) ada = inr tt
  /\ load_getPages emptyTemplateHost
                   (templateBuffer (demoGenerator production 2)) = inr []
  /\ outcome (generateCertificate emptyTemplateHost
                                  (demoGenerator production 2) ada)
     = inl (CertificateGeneratorError (js "Template PDF has no pages") None).
Proof.
  split; [reflexivity|]. split; [reflexivity|].
  apply (generateCertificate_empty_template emptyTemplateHost
           (demoGenerator production 2) ada); reflexivity.
Defined.

(** C9 (as stated, refuted). With a template that has no page the render of
    Ada fails with an error whose class is [CertificateGeneratorError] and
    whose name is "CertificateGeneratorError": it is not a TemplateError. *)
Lemma generateCertificate_no_TemplateError :
  exists e,
    outcome (generateCertificate emptyTemplateHost
                                 (demoGenerator production 2) ada) = inl e
    /\ errorClass e = ClassCertificateGeneratorError
    /\ errorName e = js "CertificateGeneratorError"
    /\ errorName e <> js "TemplateError".
Proof.
  eexists. split; [reflexivity|]. repeat split. discriminate.
Qed.

(** ** The constructor *)

Section Constructor.

Lemma bind_returned {A B : Type} (m : M A) (f : A -> M B) (b : B) :
  outcome (bind m f) = inr b ->
  exists a, outcome m = inr a /\ outcome (f a) = inr b.
Proof.
  destruct m as [t [e|a]]; simpl; [discriminate|].
  destruct (f a) as [t' res] eqn:Hf. simpl. intros ->.
  exists a. rewrite Hf. split; reflexivity.
Qed.

(** A generator that was constructed has the options it was given, and a
    concurrency that is not zero or less: a positive number, or NaN. *)
Lemma newCertificateGenerator_limit (h : Host) (opts : GeneratorOptions)
      (gen : CertificateGenerator) :
  outcome (newCertificateGenerator h opts) = inr gen ->
  options gen = opts /\ PrimFloat.leb (concurrency (options gen)) 0 = false.
Proof.
  unfold newCertificateGenerator. intros H.
  apply bind_returned in H as (done & Hvalid & H).
  apply bind_returned in H as (buffers & _ & H).
  simpl in H. inversion H; subst gen; clear H. cbn [options].
  split; [reflexivity|].
  unfold validateOptions in Hvalid.
  destruct (isEmptyString (templatePath opts) || _ || _);
    [discriminate|].
  destruct (PrimFloat.leb (concurrency opts) 0); [discriminate|reflexivity].
Qed.

End Constructor.

(** ** Whole numbers among the floats *)

Section WholeNumbers.

Local Open Scope Z_scope.

Lemma digits_bounds (p : positive) :
  2 ^ (Zpos (digits2_pos p) - 1) <= Zpos p < 2 ^ Zpos (digits2_pos p).
Proof.
  induction p as [p IH|p IH|]; cbn [digits2_pos].
  - rewrite Pos2Z.inj_succ.
    replace (Z.succ (Zpos (digits2_pos p)) - 1)
      with (Z.succ (Zpos (digits2_pos p) - 1)) by lia.
    rewrite !Z.pow_succ_r by lia. lia.
  - rewrite Pos2Z.inj_succ.
    replace (Z.succ (Zpos (digits2_pos p)) - 1)
      with (Z.succ (Zpos (digits2_pos p) - 1)) by lia.
    rewrite !Z.pow_succ_r by lia. lia.
  - cbn. lia.
Qed.

Lemma digits_unique (p : positive) (k : Z) :
  2 ^ (k - 1) <= Zpos p < 2 ^ k -> Zpos (digits2_pos p) = k.
Proof.
  intros [Hlow Hhigh]. pose proof (digits_bounds p) as [Hl Hh].
  destruct (Z.lt_trichotomy (Zpos (digits2_pos p)) k) as [Hlt|[Heq|Hgt]];
    [|exact Heq|].
  - assert (2 ^ Zpos (digits2_pos p) <= 2 ^ (k - 1))
      by (apply Z.pow_le_mono_r; lia).
    lia.
  - assert (0 <= k).
    { destruct (Z.le_gt_cases 0 k) as [Hk|Hk]; [exact Hk|].
      rewrite (Z.pow_neg_r 2 k) in Hhigh by lia. lia. }
    assert (2 ^ k <= 2 ^ (Zpos (digits2_pos p) - 1))
      by (apply Z.pow_le_mono_r; lia).
    lia.
Qed.

Lemma digits_shifted (p q : positive) (k : Z) :
  0 <= k -> Zpos q = Zpos p * 2 ^ k ->
  Zpos (digits2_pos q) = Zpos (digits2_pos p) + k.
Proof.
  intros Hk Hq. apply digits_unique. rewrite Hq.
  pose proof (digits_bounds p) as [Hl Hh].
  replace (Zpos (digits2_pos p) + k - 1)
    with (Zpos (digits2_pos p) - 1 + k) by lia.
  rewrite !Z.pow_add_r by lia.
  assert (0 < 2 ^ k) by (apply Z.pow_pos_nonneg; lia).
  split; [apply Z.mul_le_mono_nonneg_r; lia|apply Z.mul_lt_mono_pos_r; lia].
Qed.

Lemma iter_xO (m d : positive) :
  Zpos (Pos.iter xO m d) = Zpos m * 2 ^ Zpos d.
Proof.
  induction d as [|d IH] using Pos.peano_ind.
  - cbn. lia.
  - rewrite Pos.iter_succ, Pos2Z.inj_succ, Z.pow_succ_r by lia.
    rewrite Pos2Z.inj_xO, IH. lia.
Qed.

Lemma shr_1_even (z : Z) :
  0 <= z ->
  shr_1 {| shr_m := 2 * z; shr_r := false; shr_s := false |}
  = {| shr_m := z; shr_r := false; shr_s := false |}.
Proof. intros Hz. destruct z as [|p|p]; [reflexivity|reflexivity|lia]. Qed.

Lemma iter_shr_1 (k : positive) (z : Z) :
  0 <= z ->
  iter_pos shr_1 k {| shr_m := z * 2 ^ Zpos k; shr_r := false; shr_s := false |}
  = {| shr_m := z; shr_r := false; shr_s := false |}.
Proof.
  revert z. induction k as [k IH|k IH|]; intros z Hz; cbn [iter_pos].
  - replace (z * 2 ^ Zpos k~1) with (2 * ((z * 2 ^ Zpos k) * 2 ^ Zpos k)).
    + assert (0 < 2 ^ Zpos k) by (apply Z.pow_pos_nonneg; lia).
      rewrite shr_1_even by nia. rewrite IH by nia. apply IH, Hz.
    + replace (Zpos k~1) with (Zpos k + Zpos k + 1) by lia.
      rewrite !Z.pow_add_r, Z.pow_1_r by lia. ring.
  - replace (z * 2 ^ Zpos k~0) with ((z * 2 ^ Zpos k) * 2 ^ Zpos k).
    + assert (0 < 2 ^ Zpos k) by (apply Z.pow_pos_nonneg; lia).
      rewrite IH by nia. apply IH, Hz.
    + replace (Zpos k~0) with (Zpos k + Zpos k) by lia.
      rewrite Z.pow_add_r by lia. ring.
  - replace (z * 2 ^ 1) with (2 * z) by lia. apply shr_1_even, Hz.
Qed.

(** A mantissa of 53 digits followed by [k] zero bits is shifted back to
    its 53 digits, exactly. *)
Lemma shr_fexp_exact (M m : positive) (e k : Z) :
  Zpos (digits2_pos m) = 53 -> -1074 <= e -> 0 <= k ->
  Zpos M = Zpos m * 2 ^ k ->
  shr_fexp prec emax (Zpos M) (e - k) loc_Exact
  = ({| shr_m := Zpos m; shr_r := false; shr_s := false |}, e).
Proof.
  intros Hm He Hk HM. unfold shr_fexp, fexp, emin, prec, emax.
  cbn [Zdigits2 shr_record_of_loc].
  rewrite (digits_shifted m M k Hk HM), Hm.
  replace (Z.max (53 + k + (e - k) - 53) (3 - 1024 - 53) - (e - k)) with k
    by lia.
  unfold shr. destruct k as [|p|p]; [| |lia].
  - f_equal; [|lia]. f_equal. lia.
  - rewrite HM, iter_shr_1 by lia. f_equal. lia.
Qed.

Lemma round_exact (M m : positive) (e k : Z) :
  Zpos (digits2_pos m) = 53 -> -1074 <= e <= 971 -> 0 <= k ->
  Zpos M = Zpos m * 2 ^ k ->
  binary_round_aux prec emax false (Zpos M) (e - k) loc_Exact
  = S754_finite false m e.
Proof.
  intros Hm He Hk HM. unfold binary_round_aux.
  rewrite (shr_fexp_exact M m e k) by (assumption || lia).
  cbn [shr_m loc_of_shr_record round_nearest_even].
  replace e with (e - 0) at 1 by lia.
  rewrite (shr_fexp_exact m m e 0) by (assumption || lia).
  cbn [shr_m]. unfold prec, emax.
  destruct (Z.leb_spec e (1024 - 53)); [reflexivity|lia].
Qed.

Lemma normalize_whole (M n : positive) (E : Z) :
  Zpos n < 2 ^ 53 -> E <= 0 -> Zpos M = Zpos n * 2 ^ (- E) ->
  binary_normalize prec emax (Zpos M) E false = canonical n.
Proof.
  intros Hn HE HM. unfold canonical.
  set (d := Zpos (digits2_pos n)).
  assert (Hd : 1 <= d <= 53).
  { pose proof (digits_bounds n) as [Hl Hh]. fold d in Hl, Hh.
    split; [unfold d; lia|].
    destruct (Z.le_gt_cases d 53) as [Hle|Hgt]; [exact Hle|].
    assert (2 ^ 53 <= 2 ^ (d - 1)) by (apply Z.pow_le_mono_r; lia). lia. }
  set (m := Z.to_pos (Zpos n * 2 ^ (53 - d))).
  assert (Hpow : 0 < 2 ^ (53 - d)) by (apply Z.pow_pos_nonneg; lia).
  assert (Hmz : Zpos m = Zpos n * 2 ^ (53 - d))
    by (unfold m; apply Z2Pos.id, Z.mul_pos_pos; lia).
  assert (Hm : Zpos (digits2_pos m) = 53).
  { rewrite (digits_shifted n m (53 - d)) by (assumption || lia).
    fold d. lia. }
  assert (HdM : Zpos (digits2_pos M) = d - E)
    by (rewrite (digits_shifted n M (- E)) by (assumption || lia);
        fold d; lia).
  cbn [binary_normalize]. unfold binary_round, fexp, emin.
  rewrite HdM.
  replace (Z.max (d - E + E - prec) (3 - emax - prec)) with (d - 53)
    by (unfold prec, emax; lia).
  unfold shl_align.
  destruct (d - 53 - E) as [|p|p] eqn:Hshift.
  - replace E with (d - 53 - 0) by lia.
    apply round_exact; try lia.
    rewrite HM, Hmz, Z.pow_0_r, Z.mul_1_r.
    replace (- E) with (53 - d) by lia. reflexivity.
  - replace E with (d - 53 - Zpos p) by lia.
    apply round_exact; try lia.
    rewrite HM, Hmz.
    replace (- E) with (53 - d + Zpos p) by lia.
    rewrite Z.pow_add_r by lia. ring.
  - replace (d - 53) with (d - 53 - 0) at 1 by lia.
    apply round_exact; try lia.
    rewrite iter_xO, HM, Hmz.
    replace (53 - d) with (- E + Zpos p) by lia.
    rewrite Z.pow_add_r by lia. ring.
Qed.


Lemma canonical_digits (n : positive) :
  Zpos n < 2 ^ 53 -> 1 <= Zpos (digits2_pos n) <= 53.
Proof.
  intros Hn. pose proof (digits_bounds n) as [Hl Hh]. split; [lia|].
  destruct (Z.le_gt_cases (Zpos (digits2_pos n)) 53) as [Hle|Hgt];
    [exact Hle|].
  assert (2 ^ 53 <= 2 ^ (Zpos (digits2_pos n) - 1))
    by (apply Z.pow_le_mono_r; lia).
  lia.
Qed.

Lemma wholeNumber_canonical (n : positive) :
  Zpos n < 2 ^ 53 -> Prim2SF (wholeNumber (Zpos n)) = canonical n.
Proof.
  intros Hn. unfold wholeNumber. rewrite of_uint63_spec.
  change (Uint63Axioms.to_Z (Uint63.of_Z (Zpos n)))
    with (Uint63.to_Z (Uint63.of_Z (Zpos n))).
  rewrite Uint63.of_Z_spec, Z.mod_small.
  - apply normalize_whole; [exact Hn|lia|cbn; lia].
  - split; [lia|]. apply Z.lt_trans with (2 ^ 53); [exact Hn|reflexivity].
Qed.

(** What [wholeValue] says of the float. *)
Lemma whole_positive (x : float) (n : Z) :
  wholeValue x = Some n -> 1 <= n ->
  exists m e,
    Prim2SF x = S754_finite false m e
    /\ bounded prec emax m e = true
    /\ ((0 <= e /\ n = Zpos m * 2 ^ e) \/ (e < 0 /\ Zpos m = n * 2 ^ (- e))).
Proof.
  unfold wholeValue. intros Hx Hn. pose proof (Prim2SF_valid x) as Hvalid.
  destruct (Prim2SF x) as [s|s| |s m e]; try discriminate.
  - inversion Hx. lia.
  - destruct (Z.eqb_spec (Z.shiftl (Z.shiftl (Zpos m) e) (- e)) (Zpos m))
      as [Hback|]; [|discriminate].
    inversion Hx as [Hvalue]. clear Hx.
    assert (Hz : 0 <= Z.shiftl (Zpos m) e) by (apply Z.shiftl_nonneg; lia).
    destruct s; cbn [cond_Zopp] in *; [lia|].
    exists m, e. split; [reflexivity|]. split; [exact Hvalid|].
    destruct (Z.le_gt_cases 0 e) as [He|He].
    + left. split; [exact He|]. rewrite Z.shiftl_mul_pow2 by exact He.
      reflexivity.
    + right. split; [exact He|].
      rewrite Z.shiftl_mul_pow2 in Hback by lia. lia.
Qed.

Lemma bounded_exponent (m : positive) (e : Z) :
  bounded prec emax m e = true ->
  -1074 <= e <= 971
  /\ (Zpos (digits2_pos m) = 53 \/ (e = -1074 /\ Zpos (digits2_pos m) <= 53)).
Proof.
  unfold bounded, canonical_mantissa, fexp, emin, prec, emax.
  rewrite andb_true_iff, Z.eqb_eq, Z.leb_le. lia.
Qed.

(** A whole number of at least one is a normal float. *)
Lemma whole_normal (m : positive) (e n : Z) :
  bounded prec emax m e = true -> 1 <= n ->
  (0 <= e /\ n = Zpos m * 2 ^ e) \/ (e < 0 /\ Zpos m = n * 2 ^ (- e)) ->
  Zpos (digits2_pos m) = 53 /\ -1074 <= e <= 971.
Proof.
  intros Hb Hn Hvalue. apply bounded_exponent in Hb as [He [Hd|[Hmin Hd]]];
    [split; assumption|].
  exfalso. destruct Hvalue as [[Hpos _]|[_ Hm]]; [lia|].
  subst e. pose proof (digits_bounds m) as [_ Hh].
  assert (2 ^ Zpos (digits2_pos m) <= 2 ^ 53)
    by (apply Z.pow_le_mono_r; lia).
  assert (2 ^ 53 < 2 ^ (- -1074)) by reflexivity.
  assert (0 < 2 ^ (- -1074)) by reflexivity.
  nia.
Qed.

(** Below 2^53 a whole number has one float. *)
Lemma whole_canonical (x : float) (n : positive) :
  wholeValue x = Some (Zpos n) -> Zpos n < 2 ^ 53 ->
  Prim2SF x = canonical n.
Proof.
  intros Hx Hn.
  destruct (whole_positive x (Zpos n) Hx) as (m & e & Hrep & Hb & Hvalue);
    [lia|].
  destruct (whole_normal m e (Zpos n) Hb) as [Hd He]; [lia|exact Hvalue|].
  pose proof (canonical_digits n Hn) as Hdn.
  rewrite Hrep. unfold canonical.
  destruct Hvalue as [[Hpos Hvalue]|[Hneg Hvalue]].
  - assert (Hdigits : Zpos (digits2_pos n) = 53 + e)
      by (rewrite (digits_shifted m n e) by (assumption || lia); lia).
    assert (e = 0) by lia. subst e.
    rewrite Z.pow_0_r, Z.mul_1_r in Hvalue. inversion Hvalue. subst m.
    rewrite Hd. change (53 - 53) with 0.
    rewrite Z.pow_0_r, Z.mul_1_r. reflexivity.
  - assert (Hdigits : 53 = Zpos (digits2_pos n) + - e)
      by (rewrite <- Hd; apply digits_shifted; [lia|exact Hvalue]).
    replace (Zpos (digits2_pos n) - 53) with e by lia.
    replace (53 - Zpos (digits2_pos n)) with (- e) by lia.
    rewrite <- Hvalue. reflexivity.
Qed.

Lemma whole_unique (x : float) (n : Z) :
  wholeValue x = Some n -> 1 <= n < 2 ^ 53 -> x = wholeNumber n.
Proof.
  intros Hx Hn. destruct n as [|n|n]; try lia.
  apply Prim2SF_inj.
  rewrite wholeNumber_canonical by lia. apply whole_canonical; [exact Hx|lia].
Qed.

Lemma canonical_whole (x : float) (n : positive) :
  Zpos n < 2 ^ 53 -> Prim2SF x = canonical n -> wholeValue x = Some (Zpos n).
Proof.
  intros Hn Hx. pose proof (canonical_digits n Hn) as Hd.
  unfold wholeValue. rewrite Hx. unfold canonical.
  set (d := Zpos (digits2_pos n)) in *.
  assert (Hpow : 0 < 2 ^ (53 - d)) by (apply Z.pow_pos_nonneg; lia).
  rewrite Z2Pos.id by (apply Z.mul_pos_pos; lia).
  assert (Hshift : Z.shiftl (Zpos n * 2 ^ (53 - d)) (d - 53) = Zpos n).
  { replace (d - 53) with (- (53 - d)) by lia.
    rewrite Z.shiftl_opp_r, Z.shiftr_div_pow2 by lia.
    apply Z.div_mul. lia. }
  rewrite Hshift.
  replace (- (d - 53)) with (53 - d) by lia.
  rewrite Z.shiftl_mul_pow2 by lia.
  rewrite Z.eqb_refl. reflexivity.
Qed.

Lemma wholeValue_wholeNumber (n : Z) :
  0 <= n < 2 ^ 53 -> wholeValue (wholeNumber n) = Some n.
Proof.
  intros Hn. destruct n as [|n|n]; [reflexivity| |lia].
  apply canonical_whole; [lia|]. apply wholeNumber_canonical. lia.
Qed.

(** The sum of two whole numbers, below 2^53, is exact. *)
Lemma add_whole (x y : float) (a b : Z) :
  wholeValue x = Some a -> wholeValue y = Some b ->
  1 <= a -> 1 <= b -> a + b < 2 ^ 53 ->
  (x + y)%float = wholeNumber (a + b).
Proof.
  intros Hx Hy Ha Hb Hsum.
  destruct a as [|a|a]; try lia. destruct b as [|b|b]; try lia.
  apply whole_canonical in Hx; [|lia]. apply whole_canonical in Hy; [|lia].
  pose proof (canonical_digits a ltac:(lia)) as Hda.
  pose proof (canonical_digits b ltac:(lia)) as Hdb.
  apply Prim2SF_inj. rewrite add_spec, Hx, Hy.
  change (Zpos a + Zpos b) with (Zpos (a + b)).
  rewrite wholeNumber_canonical by lia.
  unfold canonical at 1 2. unfold SF64add, SFadd.
  set (da := Zpos (digits2_pos a)) in *. set (db := Zpos (digits2_pos b)) in *.
  set (ez := Z.min (da - 53) (db - 53)).
  assert (Hpa : 0 < 2 ^ (53 - da)) by (apply Z.pow_pos_nonneg; lia).
  assert (Hpb : 0 < 2 ^ (53 - db)) by (apply Z.pow_pos_nonneg; lia).
  assert (Haligned : forall (n : positive) (d : Z),
             1 <= d <= 53 -> ez <= d - 53 ->
             Zpos (fst (shl_align (Z.to_pos (Zpos n * 2 ^ (53 - d)))
                                  (d - 53) ez))
             = Zpos n * 2 ^ (- ez)).
  { intros n d Hd Hez. unfold shl_align.
    assert (0 < 2 ^ (53 - d)) by (apply Z.pow_pos_nonneg; lia).
    destruct (ez - (d - 53)) as [|p|p] eqn:Hshift; cbn [fst]; try lia.
    - rewrite Z2Pos.id by (apply Z.mul_pos_pos; lia).
      replace (- ez) with (53 - d) by lia. reflexivity.
    - rewrite iter_xO, Z2Pos.id by (apply Z.mul_pos_pos; lia).
      replace (- ez) with (53 - d + Zpos p) by lia.
      rewrite Z.pow_add_r by lia. ring. }
  cbn [cond_Zopp].
  rewrite (Haligned a da), (Haligned b db) by (unfold ez; lia).
  assert (Hpz : 0 < 2 ^ (- ez)) by (apply Z.pow_pos_nonneg; unfold ez; lia).
  replace (Zpos a * 2 ^ (- ez) + Zpos b * 2 ^ (- ez))
    with (Zpos (Z.to_pos (Zpos (a + b) * 2 ^ (- ez)))).
  - apply normalize_whole; [lia|unfold ez; lia|].
    rewrite Z2Pos.id by (apply Z.mul_pos_pos; lia). reflexivity.
  - rewrite Z2Pos.id by (apply Z.mul_pos_pos; lia).
    rewrite Pos2Z.inj_add. ring.
Qed.

Lemma add_zero (y : float) (b : Z) :
  wholeValue y = Some b -> 1 <= b -> (0 + y)%float = y.
Proof.
  intros Hy Hb. destruct (whole_positive y b Hy Hb) as (m & e & Hrep & _).
  apply Prim2SF_inj. rewrite add_spec, Hrep. reflexivity.
Qed.

(** Whole numbers compare as their values. *)
Lemma ltb_whole (x y : float) (a b : Z) :
  wholeValue x = Some a -> wholeValue y = Some b ->
  1 <= a -> 1 <= b ->
  (x <? y)%float = (a <? b).
Proof.
  intros Hx Hy Ha Hb.
  destruct (whole_positive x a Hx Ha) as (m1 & e1 & Hrx & Hbx & Hvx).
  destruct (whole_positive y b Hy Hb) as (m2 & e2 & Hry & Hby & Hvy).
  destruct (whole_normal m1 e1 a Hbx Ha Hvx) as [Hd1 He1].
  destruct (whole_normal m2 e2 b Hby Hb Hvy) as [Hd2 He2].
  rewrite ltb_spec, Hrx, Hry. unfold SFltb, SFcompare.
  pose proof (digits_bounds m1) as [Hl1 Hh1]. rewrite Hd1 in Hl1, Hh1.
  pose proof (digits_bounds m2) as [Hl2 Hh2]. rewrite Hd2 in Hl2, Hh2.
  change (2 ^ (53 - 1)) with (2 ^ 52) in *.
  assert (Hsa : a * 2 ^ 1074 = Zpos m1 * 2 ^ (e1 + 1074)).
  { destruct Hvx as [[Hpos ->]|[Hneg Hm]].
    - rewrite Z.pow_add_r by lia. ring.
    - rewrite Hm. replace 1074 with (- e1 + (e1 + 1074)) at 1 by lia.
      rewrite Z.pow_add_r by lia. ring. }
  assert (Hsb : b * 2 ^ 1074 = Zpos m2 * 2 ^ (e2 + 1074)).
  { destruct Hvy as [[Hpos ->]|[Hneg Hm]].
    - rewrite Z.pow_add_r by lia. ring.
    - rewrite Hm. replace 1074 with (- e2 + (e2 + 1074)) at 1 by lia.
      rewrite Z.pow_add_r by lia. ring. }
  assert (HK : 0 < 2 ^ 1074) by (apply Z.pow_pos_nonneg; lia).
  assert (Hp1 : 0 < 2 ^ (e1 + 1074)) by (apply Z.pow_pos_nonneg; lia).
  assert (Hp2 : 0 < 2 ^ (e2 + 1074)) by (apply Z.pow_pos_nonneg; lia).
  destruct (Z.compare_spec e1 e2) as [Heq|Hlt|Hgt].
  - subst e2.
    change (Pos.compare_cont Eq m1 m2) with (Z.compare (Zpos m1) (Zpos m2)).
    destruct (Z.compare_spec (Zpos m1) (Zpos m2)) as [Hm|Hm|Hm];
      symmetry; [apply Z.ltb_ge|apply Z.ltb_lt|apply Z.ltb_ge]; nia.
  - symmetry. apply Z.ltb_lt.
    assert (2 ^ (e2 + 1074) = 2 ^ (e2 - e1 - 1) * (2 * 2 ^ (e1 + 1074))).
    { replace (e2 + 1074) with (e2 - e1 - 1 + (1 + (e1 + 1074))) by lia.
      rewrite !Z.pow_add_r by lia. reflexivity. }
    assert (0 < 2 ^ (e2 - e1 - 1)) by (apply Z.pow_pos_nonneg; lia).
    assert (Zpos m1 * 2 ^ (e1 + 1074) < Zpos m2 * 2 ^ (e2 + 1074)) by nia.
    nia.
  - symmetry. apply Z.ltb_ge.
    assert (2 ^ (e1 + 1074) = 2 ^ (e1 - e2 - 1) * (2 * 2 ^ (e2 + 1074))).
    { replace (e1 + 1074) with (e1 - e2 - 1 + (1 + (e2 + 1074))) by lia.
      rewrite !Z.pow_add_r by lia. reflexivity. }
    assert (0 < 2 ^ (e1 - e2 - 1)) by (apply Z.pow_pos_nonneg; lia).
    assert (Zpos m2 * 2 ^ (e2 + 1074) < Zpos m1 * 2 ^ (e1 + 1074)) by nia.
    nia.
Qed.


Lemma whole_zero (x : float) :
  wholeValue x = Some 0 -> exists s, Prim2SF x = S754_zero s.
Proof.
  unfold wholeValue. destruct (Prim2SF x) as [s|s| |s m e]; try discriminate.
  - intros _. exists s. reflexivity.
  - destruct (Z.eqb_spec (Z.shiftl (Z.shiftl (Zpos m) e) (- e)) (Zpos m))
      as [Hback|]; [|discriminate].
    intros Hx. inversion Hx as [Hvalue].
    assert (Hz : Z.shiftl (Zpos m) e = 0) by (destruct s; cbn in Hvalue; lia).
    rewrite Hz, Z.shiftl_0_l in Hback. discriminate.
Qed.

Lemma ltb_whole_numbers (x y : float) (a b : Z) :
  wholeValue x = Some a -> wholeValue y = Some b -> 0 <= a -> 0 <= b ->
  (x <? y)%float = (a <? b).
Proof.
  intros Hx Hy Ha Hb.
  destruct (Z.eq_dec a 0) as [->|Hapos], (Z.eq_dec b 0) as [->|Hbpos].
  - apply whole_zero in Hx as [s Hx]. apply whole_zero in Hy as [s' Hy].
    rewrite ltb_spec, Hx, Hy. reflexivity.
  - apply whole_zero in Hx as [s Hx].
    destruct (whole_positive y b Hy) as (m & e & Hry & _); [lia|].
    rewrite ltb_spec, Hx, Hry. symmetry. apply Z.ltb_lt. lia.
  - apply whole_zero in Hy as [s Hy].
    destruct (whole_positive x a Hx) as (m & e & Hrx & _); [lia|].
    rewrite ltb_spec, Hrx, Hy. symmetry. apply Z.ltb_ge. lia.
  - apply ltb_whole; (assumption || lia).
Qed.

(** The test of [validateOptions] on a whole number. *)
Lemma leb_whole_zero (x : float) (a : Z) :
  wholeValue x = Some a -> (x <=? 0)%float = (a <=? 0).
Proof.
  intros Hx. rewrite leb_spec.
  change (Prim2SF 0) with (S754_zero false).
  unfold wholeValue in Hx.
  destruct (Prim2SF x) as [s|s| |s m e]; try discriminate.
  - inversion Hx. reflexivity.
  - destruct (Z.eqb_spec (Z.shiftl (Z.shiftl (Zpos m) e) (- e)) (Zpos m))
      as [Hback|]; [|discriminate].
    inversion Hx as [Hvalue]. clear Hx.
    assert (Hz : 0 <= Z.shiftl (Zpos m) e) by (apply Z.shiftl_nonneg; lia).
    assert (Hnz : Z.shiftl (Zpos m) e <> 0).
    { intros Hzero. rewrite Hzero, Z.shiftl_0_l in Hback. discriminate. }
    destruct s; cbn [cond_Zopp SFleb SFcompare]; symmetry;
      [apply Z.leb_le|apply Z.leb_gt]; lia.
Qed.

Lemma toIntegerOrInfinity_whole (x : float) (a : Z) :
  wholeValue x = Some a -> toIntegerOrInfinity x = Integer a.
Proof.
  unfold wholeValue, toIntegerOrInfinity.
  destruct (Prim2SF x) as [s|s| |s m e]; try discriminate.
  - intros Hx. inversion Hx. reflexivity.
  - destruct (Z.shiftl (Z.shiftl (Zpos m) e) (- e) =? Zpos m);
      [|discriminate].
    intros Hx. inversion Hx. reflexivity.
Qed.

Lemma sliceNumber_whole {A : Type} (l : list A) (x y : float) (a b : Z) :
  wholeValue x = Some a -> wholeValue y = Some b ->
  sliceNumber l x y = slice l a b.
Proof.
  intros Hx Hy. unfold sliceNumber, slice.
  rewrite (toIntegerOrInfinity_whole x a Hx),
    (toIntegerOrInfinity_whole y b Hy).
  reflexivity.
Qed.

Lemma whole_is_number (x : float) (a : Z) :
  wholeValue x = Some a -> PrimFloat.is_nan x = false.
Proof.
  intros Hx. destruct (PrimFloat.is_nan x) eqn:Hnan; [|reflexivity].
  apply is_nan_Prim2SF in Hnan. unfold wholeValue in Hx.
  rewrite Hnan in Hx. discriminate.
Qed.

Lemma whole_sign (x : float) (a : Z) :
  wholeValue x = Some a -> 1 <= a -> PrimFloat.get_sign x = false.
Proof.
  intros Hx Ha. destruct (whole_positive x a Hx Ha) as (m & e & Hrx & _).
  unfold PrimFloat.get_sign, PrimFloat.is_zero.
  rewrite eqb_spec, Hrx. change (Prim2SF zero) with (S754_zero false).
  cbn [SFeqb SFcompare]. rewrite ltb_spec, Hrx.
  reflexivity.
Qed.

(** [Math.min] of two whole numbers of at least one. *)
Lemma Math_min_whole (x y : float) (a b : Z) :
  wholeValue x = Some a -> wholeValue y = Some b -> 1 <= a -> 1 <= b ->
  Math_min x y = if a <? b then x else y.
Proof.
  intros Hx Hy Ha Hb. unfold Math_min.
  rewrite (whole_is_number x a Hx), (whole_is_number y b Hy).
  cbn [orb].
  rewrite (ltb_whole x y a b), (ltb_whole y x b a) by assumption.
  destruct (Z.ltb_spec a b) as [Hlt|Hge]; [reflexivity|].
  destruct (Z.ltb_spec b a) as [Hlt|Hle]; [reflexivity|].
  rewrite (whole_sign x a Hx Ha). reflexivity.
Qed.

End WholeNumbers.

(** ** The batch driver *)

Section Slicing.

Context {A : Type}.

Lemma slice_inside (l : list A) (i limit : Z) :
  (0 <= i < Z.of_nat (length l))%Z -> (1 <= limit)%Z ->
  slice l i (i + limit)
  = firstn (Z.to_nat (Z.min (i + limit) (Z.of_nat (length l)) - i))
           (skipn (Z.to_nat i) l).
Proof.
  intros Hi Hlimit. unfold slice, relativeIndex.
  destruct (Z.ltb_spec i 0) as [Hneg|_]; [lia|].
  destruct (Z.ltb_spec (i + limit) 0) as [Hneg|_]; [lia|].
  now rewrite (Z.min_l i) by lia.
Qed.

(** What is left from [i] on is the chunk sliced at [i] and what is left
    from [i + limit] on. *)
Lemma slice_then_rest (l : list A) (i limit : Z) :
  (0 <= i < Z.of_nat (length l))%Z -> (1 <= limit)%Z ->
  skipn (Z.to_nat i) l
  = slice l i (i + limit) ++ skipn (Z.to_nat (i + limit)) l.
Proof.
  intros Hi Hlimit. rewrite slice_inside by assumption.
  destruct (Z.le_gt_cases (i + limit) (Z.of_nat (length l))) as [Hle|Hgt].
  - rewrite Z.min_l by lia.
    replace (Z.to_nat (i + limit))
      with (Z.to_nat (i + limit - i) + Z.to_nat i)%nat by lia.
    rewrite <- skipn_skipn. symmetry. apply firstn_skipn.
  - rewrite Z.min_r by lia.
    rewrite (skipn_all2 (n := Z.to_nat (i + limit))) by lia.
    rewrite app_nil_r, firstn_all2; [reflexivity|].
    rewrite length_skipn. lia.
Qed.

Lemma slice_map {B : Type} (f : A -> B) (l : list A) (i j : Z) :
  slice (map f l) i j = map f (slice l i j).
Proof.
  unfold slice. now rewrite length_map, skipn_map, firstn_map.
Qed.

End Slicing.

Lemma firstn_seq_min (n start len : nat) :
  firstn n (seq start len) = seq start (Nat.min n len).
Proof.
  revert start len. induction n as [|n IH]; intros start [|len];
    simpl; try reflexivity.
  now rewrite IH.
Qed.

Lemma slice_seq (total : nat) (i limit : Z) :
  (0 <= i < Z.of_nat total)%Z -> (1 <= limit)%Z ->
  slice (seq 0 total) i (i + limit)
  = seq (Z.to_nat i) (Z.to_nat (Z.min (i + limit) (Z.of_nat total) - i)).
Proof.
  intros Hi Hlimit. rewrite slice_inside by (rewrite ?length_seq; lia).
  rewrite length_seq, skipn_seq, firstn_seq_min. f_equal; lia.
Qed.

Lemma indexedFrom_indices (start : nat) (configs : list CertificateConfig) :
  map fst (indexedFrom start configs) = seq start (length configs).
Proof.
  unfold indexedFrom. revert start.
  induction configs as [|c l IH]; intros start; [reflexivity|].
  simpl. now rewrite IH.
Qed.

Lemma indexedFrom_length (start : nat) (configs : list CertificateConfig) :
  length (indexedFrom start configs) = length configs.
Proof.
  rewrite <- (length_map fst), indexedFrom_indices. apply length_seq.
Qed.



(** *** The order in which the renders of a group settle *)

Section Schedule.

Variable sched : list nat -> nat.

Lemma removeAt_perm (k : nat) (l : list nat) :
  (k < length l)%nat -> Permutation (nth k l O :: removeAt k l) l.
Proof.
  revert k. induction l as [|a l IH]; intros k Hk; simpl in Hk; [lia|].
  destruct k as [|k]; simpl; [reflexivity|].
  rewrite perm_swap. apply perm_skip, IH. lia.
Qed.

Lemma settleOrderAux_perm (fuel : nat) (inFlight : list nat) :
  (length inFlight <= fuel)%nat ->
  Permutation (settleOrderAux sched fuel inFlight) inFlight.
Proof.
  revert inFlight. induction fuel as [|fuel IH]; intros inFlight Hlen.
  - destruct inFlight; [reflexivity|simpl in Hlen; lia].
  - destruct inFlight as [|a l]; [reflexivity|].
    cbn [settleOrderAux].
    set (k := (sched (a :: l) mod length (a :: l))%nat).
    assert (Hk : (k < length (a :: l))%nat)
      by (apply Nat.mod_upper_bound; discriminate).
    pose proof (removeAt_perm k (a :: l) Hk) as Hperm.
    apply perm_trans with (nth k (a :: l) O :: removeAt k (a :: l));
      [|exact Hperm].
    apply perm_skip, IH.
    apply Permutation_length in Hperm. simpl in Hperm, Hlen. lia.
Qed.

(** Every render launched in a group settles, once. *)
Lemma settleOrder_perm (launched : list nat) :
  Permutation (settleOrder sched launched) launched.
Proof. apply settleOrderAux_perm. lia. Qed.

Lemma settleOrder_length (launched : list nat) :
  length (settleOrder sched launched) = length launched.
Proof. apply Permutation_length, settleOrder_perm. Qed.

End Schedule.

(** *** Renders in flight *)

Section Outstanding.

Lemma outstanding_app (t u : list BatchEvent) :
  outstanding (t ++ u) = (outstanding t + outstanding u)%Z.
Proof.
  induction t as [|ev t IH]; [reflexivity|].
  destruct ev; cbn [app outstanding]; rewrite IH; lia.
Qed.

Lemma outstanding_launches (l : list nat) :
  outstanding (map Launch l) = Z.of_nat (length l).
Proof.
  induction l as [|a l IH]; [reflexivity|].
  cbn [map outstanding length]. rewrite IH. lia.
Qed.

Lemma outstanding_settles (l : list nat) :
  outstanding (map Settle l) = (- Z.of_nat (length l))%Z.
Proof.
  induction l as [|a l IH]; [reflexivity|].
  cbn [map outstanding length]. rewrite IH. lia.
Qed.

Variable sched : list nat -> nat.
Variable total : nat.

Lemma groupEvents_drained (group : list nat) :
  outstanding (groupEvents sched total group) = 0%Z.
Proof.
  unfold groupEvents.
  rewrite !outstanding_app, outstanding_launches, outstanding_settles,
    settleOrder_length.
  simpl. lia.
Qed.

Lemma groupEvents_bounded (group : list nat) (n : nat) :
  (0 <= outstanding (firstn n (groupEvents sched total group))
   <= Z.of_nat (length group))%Z.
Proof.
  unfold groupEvents.
  rewrite !firstn_app, !outstanding_app, !firstn_map,
    outstanding_launches, outstanding_settles.
  rewrite !length_firstn, !length_map, settleOrder_length.
  pose proof (Nat.min_spec n (length group)) as Hlaunched.
  pose proof (Nat.min_spec (n - length group) (length group)) as Hsettled.
  change Init.Nat.min with Nat.min.
  destruct (n - length group - length group)%nat as [|[|m]];
    cbn [firstn outstanding]; lia.
Qed.

(** While groups run one after the other, the renders in flight are never
    more than the largest group. *)
Lemma groups_bounded (limit : Z) (groups : list (list nat)) (n : nat) :
  Forall (fun group => (Z.of_nat (length group) <= limit)%Z) groups ->
  (0 <= limit)%Z ->
  (0 <= outstanding (firstn n (flat_map (groupEvents sched total) groups))
   <= limit)%Z.
Proof.
  intros Hgroups Hlimit. revert n.
  induction Hgroups as [|group groups Hgroup _ IH]; intros n.
  - rewrite firstn_nil. simpl. lia.
  - cbn [flat_map]. rewrite firstn_app, outstanding_app.
    destruct (Nat.le_gt_cases n (length (groupEvents sched total group)))
      as [Hle|Hgt].
    + replace (n - length (groupEvents sched total group))%nat with O by lia.
      rewrite firstn_O. cbn [outstanding].
      pose proof (groupEvents_bounded group n). lia.
    + rewrite firstn_all2 by lia. rewrite groupEvents_drained.
      apply IH.
Qed.

End Outstanding.

(** *** The loop *)

Lemma ceilDiv_step (n limit : Z) :
  (1 <= limit)%Z -> (0 < n)%Z ->
  ceilDiv n limit = (1 + ceilDiv (Z.max 0 (n - limit)) limit)%Z.
Proof.
  intros Hlimit Hn. unfold ceilDiv.
  destruct (Z.le_gt_cases n limit) as [Hle|Hgt].
  - rewrite Z.max_l by lia.
    replace (n + limit - 1)%Z with (n - 1 + 1 * limit)%Z by lia.
    rewrite Z.div_add by lia.
    rewrite !Z.div_small by lia. reflexivity.
  - rewrite Z.max_r by lia.
    replace (n + limit - 1)%Z with (n - limit + limit - 1 + 1 * limit)%Z by lia.
    rewrite Z.div_add by lia. lia.
Qed.

Lemma last_seq (start len d : nat) :
  last (seq start (S len)) d = (start + len)%nat.
Proof. rewrite seq_S. apply last_last. Qed.

Lemma promiseAll_resolved {A : Type} (values : list A) :
  promiseAll (map inr values) = inr values.
Proof.
  induction values as [|a l IH]; [reflexivity|].
  simpl. now rewrite IH.
Qed.

Section Driver.

Variable hosts : nat -> Host.
Variable sched : list nat -> nat.
Variable gen : CertificateGenerator.

Local Abbreviation limit := (concurrency (options gen)).

(** The limit is the whole number [C], of at least one. *)
Variable C : Z.
Hypothesis whole_limit : wholeValue limit = Some C.
Hypothesis positive_limit : (1 <= C)%Z.

(** The callback of [chunk.map] never rejects. *)
Lemma attempt_resolves (item : nat * CertificateConfig) :
  attempt hosts gen item = inr (resultOf hosts gen item).
Proof.
  unfold attempt, resultOf, ended. destruct item as [index config].
  cbn [fst snd].
  destruct (generateCertificate (hosts index) gen config) as [t [e|path]];
    reflexivity.
Qed.

Lemma chunk_resolves (chunk : list (nat * CertificateConfig)) :
  promiseAll (map (attempt hosts gen) chunk)
  = inr (map (resultOf hosts gen) chunk).
Proof.
  rewrite (map_ext _ (fun item => inr (resultOf hosts gen item))
                   attempt_resolves).
  rewrite <- (map_map (resultOf hosts gen) inr).
  apply promiseAll_resolved.
Qed.

Lemma collect_all (items : list (nat * CertificateConfig))
      (acc : BatchResult) :
  fold_left collect (map (resultOf hosts gen) items) acc
  = {| successful := successful acc ++ flat_map (pathsOf hosts gen) items;
       failed := failed acc ++ flat_map (failuresOf hosts gen) items |}.
Proof.
  revert acc. induction items as [|item items IH]; intros acc.
  - simpl. rewrite !app_nil_r. now destruct acc.
  - cbn [map fold_left flat_map]. rewrite IH.
    unfold collect, resultOf, pathsOf, failuresOf.
    destruct (ended hosts gen item); cbn [success result_outputPath
      result_error result_config successful failed];
      rewrite <- ?app_assoc; reflexivity.
Qed.

Variable configs : list CertificateConfig.

Local Abbreviation total := (length configs).

(** An array has fewer than 2^32 elements. *)
Hypothesis array_length : (Z.of_nat total < 2 ^ 32)%Z.

Local Abbreviation at_index := (atIndex C).

Lemma index_whole (i : float) (a : Z) :
  at_index i a -> wholeValue i = Some a /\ (0 <= a)%Z.
Proof.
  intros [[-> ->]|[Hi Ha]]; [split; [reflexivity|lia]|].
  split; [exact Hi|lia].
Qed.

Lemma length_whole : wholeValue (arrayLength configs) = Some (Z.of_nat total).
Proof.
  apply wholeValue_wholeNumber.
  change (2 ^ 32)%Z with 4294967296%Z in array_length.
  change (2 ^ 53)%Z with 9007199254740992%Z. lia.
Qed.

Lemma next_index (i : float) (a : Z) :
  at_index i a -> (a < Z.of_nat total)%Z ->
  wholeValue (i + limit) = Some (a + C)%Z.
Proof.
  change (2 ^ 32)%Z with 4294967296%Z in array_length.
  intros [[-> ->]|[Hi Ha]] Hlt.
  - rewrite (add_zero limit C) by assumption. exact whole_limit.
  - rewrite (add_whole i limit a C) by
        (try assumption; try lia;
         change (2 ^ 53)%Z with 9007199254740992%Z; lia).
    apply wholeValue_wholeNumber.
    change (2 ^ 53)%Z with 9007199254740992%Z. lia.
Qed.

Lemma loop_test (i : float) (a : Z) :
  at_index i a ->
  PrimFloat.ltb i (arrayLength configs) = (a <? Z.of_nat total)%Z.
Proof.
  intros Hi. apply index_whole in Hi as [Hi Ha].
  apply ltb_whole_numbers; [exact Hi|exact length_whole|lia|lia].
Qed.

Lemma chunk_sliced {A : Type} (l : list A) (i : float) (a : Z) :
  at_index i a -> (a < Z.of_nat total)%Z ->
  sliceNumber l i (i + limit) = slice l a (a + C).
Proof.
  intros Hi Hlt. apply sliceNumber_whole; [|apply next_index; assumption].
  apply index_whole in Hi as [Hi _]. exact Hi.
Qed.

Lemma processed_whole (i : float) (a : Z) :
  at_index i a -> (a < Z.of_nat total)%Z ->
  Math_min (i + limit) (arrayLength configs)
  = wholeNumber (Z.min (a + C) (Z.of_nat total)).
Proof.
  intros Hi Hlt. pose proof (next_index i a Hi Hlt) as Hnext.
  apply index_whole in Hi as [_ Ha].
  rewrite (Math_min_whole _ _ (a + C) (Z.of_nat total) Hnext length_whole)
    by lia.
  destruct (Z.ltb_spec (a + C) (Z.of_nat total)) as [Hin|Hout].
  - rewrite Z.min_l by lia. apply whole_unique; [exact Hnext|].
    change (2 ^ 32)%Z with 4294967296%Z in array_length.
    change (2 ^ 53)%Z with 9007199254740992%Z. lia.
  - rewrite Z.min_r by lia. reflexivity.
Qed.

Lemma chunk_indices (i : Z) :
  map fst (slice (indexed configs) i (i + C))
  = slice (seq 0 total) i (i + C).
Proof.
  rewrite <- slice_map. unfold indexed.
  now rewrite indexedFrom_indices.
Qed.

Lemma progress_report (i : Z) :
  (0 <= i < Z.of_nat total)%Z ->
  Z.min (i + C) (Z.of_nat total)
  = Z.of_nat (S (last (slice (seq 0 total) i (i + C)) O)).
Proof.
  intros Hi. rewrite slice_seq by assumption.
  remember (Z.to_nat (Z.min (i + C) (Z.of_nat total) - i)) as len eqn:Hlen.
  destruct len as [|len]; [lia|].
  rewrite last_seq. lia.
Qed.

Lemma groups_cover (fuel : nat) (i : Z) :
  (0 <= i)%Z -> (Z.of_nat total - i <= Z.of_nat fuel)%Z ->
  concat (groupsFrom C total fuel i)
  = seq (Z.to_nat i) (total - Z.to_nat i).
Proof.
  revert i. induction fuel as [|fuel IH]; intros i Hi Hfuel.
  - replace (total - Z.to_nat i)%nat with O by lia. reflexivity.
  - cbn [groupsFrom].
    destruct (Z.ltb_spec i (Z.of_nat total)) as [Hlt|Hge].
    + cbn [concat]. rewrite IH by lia. rewrite slice_seq by lia.
      destruct (Z.le_gt_cases (i + C) (Z.of_nat total)) as [Hle|Hgt].
      * rewrite Z.min_l by lia.
        replace (Z.to_nat (i + C))
          with (Z.to_nat i + Z.to_nat (i + C - i))%nat by lia.
        rewrite <- seq_app. f_equal. lia.
      * rewrite Z.min_r by lia.
        replace (total - Z.to_nat (i + C))%nat with O by lia.
        rewrite app_nil_r. f_equal. lia.
    + replace (total - Z.to_nat i)%nat with O by lia. reflexivity.
Qed.

Lemma groups_sized (fuel : nat) (i : Z) :
  (0 <= i)%Z ->
  Forall (fun group => (1 <= Z.of_nat (length group) <= C)%Z)
         (groupsFrom C total fuel i).
Proof.
  revert i. induction fuel as [|fuel IH]; intros i Hi; [constructor|].
  cbn [groupsFrom].
  destruct (Z.ltb_spec i (Z.of_nat total)) as [Hlt|Hge]; [|constructor].
  constructor; [|apply IH; lia].
  rewrite slice_seq, length_seq by lia. lia.
Qed.

Lemma groups_counted (fuel : nat) (i : Z) :
  (0 <= i)%Z -> (Z.of_nat total - i <= Z.of_nat fuel)%Z ->
  Z.of_nat (length (groupsFrom C total fuel i))
  = ceilDiv (Z.max 0 (Z.of_nat total - i)) C.
Proof.
  revert i. induction fuel as [|fuel IH]; intros i Hi Hfuel.
  - rewrite Z.max_l by lia. unfold ceilDiv.
    rewrite Z.div_small by lia. reflexivity.
  - cbn [groupsFrom].
    destruct (Z.ltb_spec i (Z.of_nat total)) as [Hlt|Hge].
    + cbn [length]. rewrite Nat2Z.inj_succ, IH by lia.
      rewrite (Z.max_r 0 (Z.of_nat total - i)) by lia.
      rewrite (ceilDiv_step (Z.of_nat total - i)) by lia.
      replace (Z.of_nat total - (i + C))%Z
        with (Z.of_nat total - i - C)%Z by lia.
      lia.
    + rewrite Z.max_l by lia. unfold ceilDiv.
      rewrite Z.div_small by lia. reflexivity.
Qed.

(** The loop ends, without a rejection; its events are those of the groups
    it slices, one group after the other, and it has collected the result
    of every item from [i] on, in the order of the batch. *)
Lemma batchLoop_runs (fuel : nat) (i : float) (a : Z) (acc : BatchResult) :
  at_index i a -> (Z.max 0 (Z.of_nat total - a) < Z.of_nat fuel)%Z ->
  batchLoop hosts sched gen configs fuel i acc
  = Some (flat_map (groupEvents sched total)
                   (groupsFrom C total fuel a),
          inr (fold_left collect
                         (map (resultOf hosts gen)
                              (skipn (Z.to_nat a) (indexed configs)))
                         acc)).
Proof.
  revert i a acc.
  induction fuel as [|fuel IH]; intros i a acc Hi Hfuel; [lia|].
  pose proof (index_whole i a Hi) as [_ Ha].
  cbn [batchLoop groupsFrom]. rewrite (loop_test i a Hi).
  destruct (Z.ltb_spec a (Z.of_nat total)) as [Hlt|Hge].
  - rewrite (chunk_sliced (indexed configs) i a Hi Hlt).
    rewrite (processed_whole i a Hi Hlt).
    rewrite chunk_resolves.
    rewrite (IH (i + limit)%float (a + C)%Z)
      by first [lia|right; split; [apply next_index; assumption|lia]].
    rewrite chunk_indices, progress_report by lia.
    cbn [flat_map]. unfold groupEvents at 2.
    rewrite <- !app_assoc. cbn [app].
    rewrite (slice_then_rest (indexed configs) a C);
      [|unfold indexed; rewrite indexedFrom_length; lia|lia].
    now rewrite map_app, fold_left_app.
  - rewrite skipn_all2;
      [reflexivity|unfold indexed; rewrite indexedFrom_length; lia].
Qed.

Lemma generateCertificates_runs (fuel : nat) :
  (total < fuel)%nat ->
  generateCertificates hosts sched gen configs fuel
  = Some (Starting (mode (options gen)) total
            :: flat_map (groupEvents sched total)
                        (groupsFrom C total fuel 0),
          inr {| successful := flat_map (pathsOf hosts gen) (indexed configs);
                 failed := flat_map (failuresOf hosts gen) (indexed configs)
              |}).
Proof.
  intros Hfuel. unfold generateCertificates.
  rewrite (batchLoop_runs fuel 0%float 0%Z)
    by first [lia|left; split; reflexivity].
  now rewrite collect_all.
Qed.

End Driver.

(** *** A batch with one failing item *)

Section OneFailure.

Variable hosts : nat -> Host.
Variable gen : CertificateGenerator.

Lemma item_in_one_sequence (item : nat * CertificateConfig) :
  (length (pathsOf hosts gen item) + length (failuresOf hosts gen item)
   = 1)%nat.
Proof.
  unfold pathsOf, failuresOf. destruct (ended hosts gen item); reflexivity.
Qed.



End OneFailure.




(** C2. For every batch of N items and every concurrency C of at least one
    (the number [concurrency] is the whole number C),
    [generateCertificates] cuts the batch into consecutive groups of at
    least one and at most C items that keep the order of the batch; there
    are exactly ceil(N/C) groups; they run strictly one after the other,
    each group launching its renders, seeing every one of them settle and
    reporting progress before the next group launches anything; and at no
    point are more than C renders in flight. (An array has fewer than 2^32
    elements, and the loop is given more than N iterations.) *)
Theorem generateCertificates_groups
        (hosts : nat -> Host) (sched : list nat -> nat)
        (gen : CertificateGenerator) (configs : list CertificateConfig)
        (C : Z) (fuel : nat) :
  wholeValue (concurrency (options gen)) = Some C ->
  (1 <= C)%Z ->
  (Z.of_nat (length configs) < 2 ^ 32)%Z ->
  (length configs < fuel)%nat ->
  exists events groups res,
    generateCertificates hosts sched gen configs fuel
    = Some (events, inr res)
    /\ events = Starting (mode (options gen)) (length configs)
                  :: flat_map (groupEvents sched (length configs)) groups
    /\ concat groups = seq 0 (length configs)
    /\ Forall (fun group => (1 <= Z.of_nat (length group) <= C)%Z) groups
    /\ Z.of_nat (length groups) = ceilDiv (Z.of_nat (length configs)) C
    /\ Forall (fun group => Permutation (settleOrder sched group) group) groups
    /\ forall n, (0 <= outstanding (firstn n events) <= C)%Z.
Proof.
  intros Hwhole Hlimit Hlength Hfuel.
  rewrite (generateCertificates_runs hosts sched gen C Hwhole Hlimit configs
                                     Hlength fuel Hfuel).
  set (total := length configs) in *.
  set (groups := groupsFrom C total fuel 0).
  assert (Hsized : Forall (fun group =>
                             (1 <= Z.of_nat (length group) <= C)%Z) groups)
    by (apply (groups_sized C Hlimit configs); lia).
  do 3 eexists. split; [reflexivity|]. split; [reflexivity|].
  split; [|split; [exact Hsized|split; [|split]]].
  - unfold groups.
    rewrite (groups_cover C Hlimit configs) by lia.
    fold total. f_equal. simpl. lia.
  - unfold groups.
    rewrite (groups_counted C Hlimit configs) by lia.
    fold total. f_equal. lia.
  - apply Forall_forall. intros group _. apply settleOrder_perm.
  - intros [|n]; [simpl; lia|].
    cbn [firstn outstanding].
    apply groups_bounded; [|lia].
    eapply Forall_impl; [|exact Hsized]. cbv beta. intros; lia.
Qed.

Lemma generateCertificates_groups_witness :
  wholeValue (concurrency (options (demoGenerator production 2))) = Some 2%Z
  /\ exists events groups res,
       generateCertificates (fun _ => quietHost) secondFirst
                            (demoGenerator production 2)
                            [ada; nameless; grace] 4
       = Some (events, inr res)
       /\ concat groups = [0; 1; 2]%nat
       /\ Z.of_nat (length groups) = 2%Z
       /\ forall n, (0 <= outstanding (firstn n events) <= 2)%Z.
Proof.
  split; [reflexivity|].
  destruct (generateCertificates_groups
              (fun _ => quietHost) secondFirst (demoGenerator production 2)
              [ada; nameless; grace] 2 4)
    as (events & groups & res & Hrun & _ & Hcover & _ & Hcount & _ & Hpeak).
  - reflexivity.
  - lia.
  - vm_compute; reflexivity.
  - simpl; lia.
  - exists events, groups, res. repeat split; try assumption; apply Hpeak.
Defined.

(** * Further properties of the code *)

(** ** The file helpers of utils.ts *)

Lemma bind_call {A B : Type} (ev : Effect) (answer : A) (f : A -> M B) :
  bind (call ev (inr answer)) f = (ev :: calls (f answer), outcome (f answer)).
Proof. unfold bind, call, calls, outcome. simpl. now destruct (f answer). Qed.

Lemma filterMissing_runs (h : Host) (filePaths : list jsstring) :
  filterMissing h filePaths
  = (map CallExistsSync filePaths,
     inr (filter (fun path => negb (existsSync h path)) filePaths)).
Proof.
  induction filePaths as [|path rest IH]; [reflexivity|].
  cbn [filterMissing]. rewrite bind_call, IH. cbn [map filter].
  unfold bind, ret, calls, outcome. cbn [fst snd]. rewrite app_nil_r.
  destruct (existsSync h path); reflexivity.
Qed.

Lemma nothing_missing (h : Host) (filePaths : list jsstring) :
  (0 <? length (filter (fun path => negb (existsSync h path)) filePaths))%nat
  = negb (forallb (existsSync h) filePaths).
Proof.
  induction filePaths as [|path rest IH]; [reflexivity|].
  cbn [filter forallb]. destruct (existsSync h path); [exact IH|reflexivity].
Qed.

Lemma validateFilesExist_calls (h : Host) (filePaths : list jsstring) :
  calls (validateFilesExist h filePaths) = map CallExistsSync filePaths.
Proof.
  unfold validateFilesExist. rewrite filterMissing_runs.
  unfold bind. rewrite nothing_missing.
  destruct (forallb (existsSync h) filePaths); cbn [negb];
    unfold throw, ret, calls; cbn [fst]; apply app_nil_r.
Qed.

Lemma validateFilesExist_outcome (h : Host) (filePaths : list jsstring) :
  outcome (validateFilesExist h filePaths)
  = if forallb (existsSync h) filePaths then inr tt
    else inl (FileNotFoundError
                (js "Missing required files: "
                    ++ joinWith (js ", ")
                         (filter (fun path => negb (existsSync h path))
                                 filePaths))
                None).
Proof.
  unfold validateFilesExist. rewrite filterMissing_runs.
  unfold bind. rewrite nothing_missing.
  destruct (forallb (existsSync h) filePaths); reflexivity.
Qed.

(** X1. [validateFilesExist] probes every path once, in order, also after a
    path was found missing; it passes exactly when all of them exist, and
    otherwise throws a [FileNotFoundError] that names the missing paths, and
    only them, in order, separated by ", ", behind the class prefix and
    "Missing required files: ". *)
Theorem validateFilesExist_report (h : Host) (filePaths : list jsstring) :
  calls (validateFilesExist h filePaths) = map CallExistsSync filePaths
  /\ outcome (validateFilesExist h filePaths)
     = if forallb (existsSync h) filePaths then inr tt
       else inl (mkJsError ClassFileNotFoundError (js "FileNotFoundError")
                   (js "File not found: Missing required files: "
                       ++ joinWith (js ", ")
                            (filter (fun path => negb (existsSync h path))
                                    filePaths))
                   None).
Proof.
  split; [apply validateFilesExist_calls|].
  rewrite validateFilesExist_outcome.
  destruct (forallb (existsSync h) filePaths); reflexivity.
Qed.

(** ** The constructor of CertificateGenerator *)

Lemma blank_testName (o : option jsstring) :
  negb (truthyString o)
  || match o with
     | Some n => (length (trim n) =? 0)%nat
     | None => true
     end
  = match o with
    | Some n => isBlank n
    | None => true
    end.
Proof.
  destruct o as [n|]; [|reflexivity]. rewrite trim_blank.
  destruct n; reflexivity.
Qed.

Lemma validateOptions_refuses (h : Host) (opts : GeneratorOptions) :
  refusedInMemory opts = true ->
  exists msg, validateOptions h opts = ([], inl (InvalidConfigError msg)).
Proof.
  unfold refusedInMemory, validateOptions. rewrite blank_testName.
  destruct (isEmptyString (templatePath opts)),
    (isEmptyString (fontPath opts)), (isEmptyString (outputDir opts)),
    (PrimFloat.leb (concurrency opts) 0);
    cbn [orb]; try (intros _; eexists; reflexivity).
  intros ->. eexists; reflexivity.
Qed.

Lemma validateOptions_accepts (h : Host) (opts : GeneratorOptions) :
  refusedInMemory opts = false ->
  validateOptions h opts
  = bind (validateFilesExist h [templatePath opts; fontPath opts])
         (fun _ => ensureDir h (outputDir opts)).
Proof.
  unfold refusedInMemory, validateOptions. rewrite blank_testName.
  destruct (isEmptyString (templatePath opts)),
    (isEmptyString (fontPath opts)), (isEmptyString (outputDir opts)),
    (PrimFloat.leb (concurrency opts) 0);
    cbn [orb]; try discriminate.
  now intros ->.
Qed.

(** X2. Options that [validateOptions] can refuse by looking at them (an
    empty path, a concurrency of zero or less, test mode without a
    non-blank test name) are refused with an [InvalidConfigError] before the
    constructor has called anything: no probe, no directory, no read. *)
Theorem newCertificateGenerator_refuses (h : Host) (opts : GeneratorOptions) :
  refusedInMemory opts = true ->
  calls (newCertificateGenerator h opts) = []
  /\ exists msg,
       outcome (newCertificateGenerator h opts)
       = inl (InvalidConfigError msg).
Proof.
  intros Hrefused. unfold newCertificateGenerator.
  destruct (validateOptions_refuses h opts Hrefused) as [msg ->].
  split; [reflexivity|]. exists msg. reflexivity.
Qed.

Lemma newCertificateGenerator_refuses_witness :
  refusedInMemory (demoOptions production 0) = true
  /\ calls (newCertificateGenerator quietHost (demoOptions production 0)) = [].
Proof.
  split; [reflexivity|].
  apply (newCertificateGenerator_refuses quietHost (demoOptions production 0)).
  reflexivity.
Defined.

(** X3. When the options pass but the template or the font does not exist,
    the constructor throws the [FileNotFoundError] that names the missing
    files, having only probed the two paths: the output directory is not
    created and nothing is read. *)
Theorem newCertificateGenerator_missing_asset
        (h : Host) (opts : GeneratorOptions) :
  refusedInMemory opts = false ->
  existsSync h (templatePath opts) && existsSync h (fontPath opts) = false ->
  calls (newCertificateGenerator h opts)
  = [CallExistsSync (templatePath opts); CallExistsSync (fontPath opts)]
  /\ outcome (newCertificateGenerator h opts)
     = inl (FileNotFoundError
              (js "Missing required files: "
                  ++ joinWith (js ", ")
                       (filter (fun path => negb (existsSync h path))
                               [templatePath opts; fontPath opts]))
              None).
Proof.
  intros Haccepted Hmissing. unfold newCertificateGenerator.
  rewrite (validateOptions_accepts h opts Haccepted).
  pose proof (validateFilesExist_calls
                h [templatePath opts; fontPath opts]) as Hcalls.
  pose proof (validateFilesExist_outcome
                h [templatePath opts; fontPath opts]) as Houtcome.
  cbn [forallb] in Houtcome. rewrite andb_true_r, Hmissing in Houtcome.
  destruct (validateFilesExist h [templatePath opts; fontPath opts])
    as [t res].
  unfold calls, outcome in *. cbn [fst snd] in *. subst t res.
  split; reflexivity.
Qed.

Lemma newCertificateGenerator_missing_asset_witness :
  refusedInMemory (demoOptions production 2) = false
  /\ existsSync missingFontHost (fontPath (demoOptions production 2)) = false
  /\ outcome (newCertificateGenerator missingFontHost
                                      (demoOptions production 2))
     = inl (FileNotFoundError
              (js "Missing required files: assets/font.ttf") None).
Proof.
  split; [reflexivity|]. split; [reflexivity|].
  apply (newCertificateGenerator_missing_asset
           missingFontHost (demoOptions production 2)); reflexivity.
Defined.

Lemma tryCatch_returned {A : Type} (m : M A) (handler : JsError -> M A)
      (a : A) :
  (forall e, threw (outcome (handler e)) = true) ->
  outcome (tryCatch m handler) = inr a -> outcome m = inr a.
Proof.
  intros Hhandler. destruct m as [t [e|b]]; simpl; [|auto].
  specialize (Hhandler e). destruct (handler e) as [t' [e'|b]]; simpl in *;
    congruence.
Qed.

Lemma call_returned {A : Type} (ev : Effect) (answer : JsError + A) (a : A) :
  outcome (call ev answer) = inr a -> answer = inr a.
Proof. auto. Qed.

(** A generator that was constructed kept its options, which passed the
    checks made in memory. *)
Lemma constructed_options (h : Host) (opts : GeneratorOptions)
      (gen : CertificateGenerator) :
  outcome (newCertificateGenerator h opts) = inr gen ->
  options gen = opts /\ refusedInMemory opts = false.
Proof.
  unfold newCertificateGenerator. intros H.
  apply bind_returned in H as (done & Hvalid & H).
  apply bind_returned in H as (buffers & Hload & H).
  simpl in H. inversion H; subst gen; clear H. cbn [options].
  split; [reflexivity|].
  destruct (refusedInMemory opts) eqn:Hr; [|reflexivity].
  destruct (validateOptions_refuses h opts Hr) as [msg Hmsg].
  rewrite Hmsg in Hvalid. discriminate.
Qed.

(** X4. A generator that was constructed has the options it was given; its
    three paths are not empty, its concurrency is not zero or less -- it is a
    positive number or NaN, and at least one if it is a whole number --, in
    test mode its test name is not blank, the template and the font existed,
    and its two buffers are what [readFileSync] returned for them. *)
Theorem newCertificateGenerator_invariant
        (h : Host) (opts : GeneratorOptions) (gen : CertificateGenerator) :
  outcome (newCertificateGenerator h opts) = inr gen ->
  options gen = opts
  /\ refusedInMemory opts = false
  /\ PrimFloat.leb (concurrency opts) 0 = false
  /\ (forall C, wholeValue (concurrency opts) = Some C -> (1 <= C)%Z)
  /\ existsSync h (templatePath opts) = true
  /\ existsSync h (fontPath opts) = true
  /\ readFileSync h (templatePath opts) = inr (templateBuffer gen)
  /\ readFileSync h (fontPath opts) = inr (fontBuffer gen).
Proof.
  unfold newCertificateGenerator. intros H.
  apply bind_returned in H as (done & Hvalid & H).
  apply bind_returned in H as (buffers & Hload & H).
  simpl in H. inversion H; subst gen; clear H. cbn [options templateBuffer fontBuffer].
  assert (Haccepted : refusedInMemory opts = false).
  { destruct (refusedInMemory opts) eqn:Hr; [|reflexivity].
    destruct (validateOptions_refuses h opts Hr) as [msg Hmsg].
    rewrite Hmsg in Hvalid. discriminate. }
  rewrite (validateOptions_accepts h opts Haccepted) in Hvalid.
  apply bind_returned in Hvalid as (found & Hfiles & _).
  rewrite validateFilesExist_outcome in Hfiles.
  cbn [forallb] in Hfiles. rewrite andb_true_r in Hfiles.
  destruct (existsSync h (templatePath opts)) eqn:Htemplate;
    [|discriminate].
  destruct (existsSync h (fontPath opts)) eqn:Hfont; [|discriminate].
  unfold loadAssets in Hload.
  apply tryCatch_returned in Hload; [|reflexivity].
  apply bind_returned in Hload as (template & Htread & Hload).
  apply bind_returned in Hload as (font & Hfread & Hload).
  apply bind_returned in Hload as (logged & _ & Hload).
  simpl in Hload. inversion Hload; subst buffers; clear Hload.
  apply call_returned in Htread, Hfread. cbn [fst snd].
  assert (Hlimit : PrimFloat.leb (concurrency opts) 0 = false).
  { unfold refusedInMemory in Haccepted.
    destruct (PrimFloat.leb (concurrency opts) 0); [|reflexivity].
    rewrite orb_true_r in Haccepted. discriminate. }
  repeat split; try assumption.
  intros C HC. rewrite (leb_whole_zero _ C HC) in Hlimit.
  apply Z.leb_gt in Hlimit. lia.
Qed.

Lemma newCertificateGenerator_invariant_witness :
  outcome (newCertificateGenerator quietHost (demoOptions test 3))
  = inr {| options := demoOptions test 3;
           templateBuffer := [37; 80; 68; 70]%N;
           fontBuffer := [37; 80; 68; 70]%N |}
  /\ PrimFloat.leb (concurrency (demoOptions test 3)) 0 = false.
Proof.
  split; [reflexivity|].
  apply (newCertificateGenerator_invariant quietHost (demoOptions test 3)
           {| options := demoOptions test 3;
              templateBuffer := [37; 80; 68; 70]%N;
              fontBuffer := [37; 80; 68; 70]%N |}).
  reflexivity.
Defined.

(** X5. When the options pass, the files exist and the output directory is
    there, a read that fails is reported as a [FileNotFoundError] with the
    message "File not found: Failed to load required assets" and the error
    of [readFileSync] as its cause. *)
Theorem newCertificateGenerator_unreadable
        (h : Host) (opts : GeneratorOptions) (e : JsError) :
  refusedInMemory opts = false ->
  existsSync h (templatePath opts) = true ->
  existsSync h (fontPath opts) = true ->
  existsSync h (outputDir opts) = true ->
  readFileSync h (templatePath opts) = inl e
  \/ (exists template, readFileSync h (templatePath opts) = inr template)
     /\ readFileSync h (fontPath opts) = inl e ->
  outcome (newCertificateGenerator h opts)
  = inl (mkJsError ClassFileNotFoundError (js "FileNotFoundError")
           (js "File not found: Failed to load required assets") (Some e)).
Proof.
  intros Haccepted Htemplate Hfont Hdir Hread.
  unfold newCertificateGenerator.
  rewrite (validateOptions_accepts h opts Haccepted).
  unfold validateFilesExist, ensureDir, loadAssets.
  cbn [filterMissing]. rewrite !bind_call, Htemplate, Hfont, Hdir.
  destruct Hread as [Ht|[[template Ht] Hf]]; rewrite Ht; [|rewrite Hf];
    reflexivity.
Qed.

Lemma newCertificateGenerator_unreadable_witness :
  readFileSync unreadableHost (templatePath (demoOptions production 2))
  = inl (Error (js "EACCES: permission denied"))
  /\ outcome (newCertificateGenerator unreadableHost
                                      (demoOptions production 2))
     = inl (FileNotFoundError (js "Failed to load required assets")
              (Some (Error (js "EACCES: permission denied")))).
Proof.
  split; [reflexivity|].
  apply (newCertificateGenerator_unreadable
           unreadableHost (demoOptions production 2)
           (Error (js "EACCES: permission denied")));
    try reflexivity.
  left. reflexivity.
Defined.

(** ** The render of one item: what is written, and when *)

Ltac unfold_render :=
  unfold generateCertificate, render, wrapRGB, ensureDirForFile, ensureDir,
    tryCatch, bind, call, callVoid, emit, ret, throw, calls, outcome.

Ltac answer_in H :=
  match type of H with
  | context [match ?x with _ => _ end] =>
      match x with
      | context [match _ with _ => _ end] => fail 1
      | _ => destruct x eqn:?; cbn [fst snd app negb] in H
      end
  end.

Ltac answer :=
  match goal with
  | |- context [match ?x with _ => _ end] =>
      match x with
      | context [match _ with _ => _ end] => fail 1
      | _ => destruct x eqn:?; cbn [fst snd app negb]
      end
  end.

(** X6. A render that returns has written exactly one file: the bytes that
    [save] returned, to the path it returns, which is the path that
    [generateOutputPath] resolves for the item. *)
Theorem generateCertificate_written
        (h : Host) (gen : CertificateGenerator) (config : CertificateConfig)
        (path : jsstring) :
  outcome (generateCertificate h gen config) = inr path ->
  path = generateOutputPath h (options gen) config
  /\ exists pdfBytes,
       save h = inr pdfBytes
       /\ filter isWrite (calls (generateCertificate h gen config))
          = [CallWriteFileSync path pdfBytes].
Proof.
  unfold_render. intros H.
  repeat answer_in H; try discriminate H.
  all: inversion H; subst path; clear H.
  all: split; [reflexivity|]; eexists; split; [reflexivity|].
  all: repeat answer; try discriminate; reflexivity.
Qed.

(** X7. A render that fails has written nothing, unless the write itself is
    what failed: either [writeFileSync] was never called, or it was called
    once, with the saved bytes and the resolved path, and threw. *)
Theorem generateCertificate_failed_write
        (h : Host) (gen : CertificateGenerator) (config : CertificateConfig)
        (e : JsError) :
  outcome (generateCertificate h gen config) = inl e ->
  filter isWrite (calls (generateCertificate h gen config)) = []
  \/ exists pdfBytes refusal,
       save h = inr pdfBytes
       /\ writeFileSync h (generateOutputPath h (options gen) config) pdfBytes
          = Some refusal
       /\ e = rethrown config refusal
       /\ filter isWrite (calls (generateCertificate h gen config))
          = [CallWriteFileSync (generateOutputPath h (options gen) config)
                               pdfBytes].
Proof.
  unfold_render. intros H.
  repeat answer_in H; try discriminate H.
  all: repeat answer; try discriminate.
  all: try (left; reflexivity).
  all: right; do 2 eexists; split; [reflexivity|];
    split; [eassumption|]; split; [|reflexivity].
  all: unfold rethrown;
    repeat match goal with
           | Hi : instanceofCertificateGeneratorError _ = _ |- _ =>
               rewrite Hi
           end;
    inversion H; reflexivity.
Qed.

Lemma generateCertificate_written_witness :
  outcome (generateCertificate quietHost (demoGenerator production 2) ada)
  = inr (js "/out/ada_lovelace_ada_x_com_2025-03-14.pdf")
  /\ filter isWrite
       (calls (generateCertificate quietHost (demoGenerator production 2) ada))
     = [CallWriteFileSync (js "/out/ada_lovelace_ada_x_com_2025-03-14.pdf")
                          [37; 80; 68; 70]%N].
Proof.
  split; [reflexivity|].
  destruct (generateCertificate_written
              quietHost (demoGenerator production 2) ada
              (js "/out/ada_lovelace_ada_x_com_2025-03-14.pdf") eq_refl)
    as (_ & pdfBytes & Hsave & Hwrites).
  vm_compute in Hsave. inversion Hsave; subst pdfBytes. exact Hwrites.
Defined.

Lemma generateCertificate_failed_write_witness :
  outcome (generateCertificate emptyTemplateHost (demoGenerator production 2)
                               ada)
  = inl (CertificateGeneratorError (js "Template PDF has no pages") None)
  /\ (filter isWrite
        (calls (generateCertificate emptyTemplateHost
                                    (demoGenerator production 2) ada)) = []
      \/ exists pdfBytes refusal,
           save emptyTemplateHost = inr pdfBytes
           /\ writeFileSync emptyTemplateHost
                (generateOutputPath emptyTemplateHost
                   (options (demoGenerator production 2)) ada) pdfBytes
              = Some refusal
           /\ CertificateGeneratorError (js "Template PDF has no pages") None
              = rethrown ada refusal
           /\ filter isWrite
                (calls (generateCertificate emptyTemplateHost
                          (demoGenerator production 2) ada))
              = [CallWriteFileSync
                   (generateOutputPath emptyTemplateHost
                      (options (demoGenerator production 2)) ada)
                   pdfBytes]).
Proof.
  split; [reflexivity|].
  apply (generateCertificate_failed_write
           emptyTemplateHost (demoGenerator production 2) ada).
  reflexivity.
Defined.

(** ** The batch driver: the result of any batch *)

Lemma one_entry_each (hosts : nat -> Host) (gen : CertificateGenerator)
      (items : list (nat * CertificateConfig)) :
  (length (flat_map (pathsOf hosts gen) items)
   + length (flat_map (failuresOf hosts gen) items) = length items)%nat.
Proof.
  induction items as [|item items IH]; [reflexivity|].
  cbn [flat_map length]. rewrite !length_app.
  pose proof (item_in_one_sequence hosts gen item). lia.
Qed.

Lemma failuresOf_configs (hosts : nat -> Host) (gen : CertificateGenerator)
      (items : list (nat * CertificateConfig)) :
  map config (flat_map (failuresOf hosts gen) items)
  = map snd (filter (fun item => threw (ended hosts gen item)) items).
Proof.
  induction items as [|item items IH]; [reflexivity|].
  cbn [flat_map filter]. rewrite map_app, IH. unfold failuresOf.
  destruct (ended hosts gen item); reflexivity.
Qed.

(** X8. For every batch, of fewer than 2^32 items as every array, and every
    concurrency that is a whole number of at least one,
    [generateCertificates] returns, within N + 1 iterations of its loop;
    [successful] holds the paths of the renders that returned and [failed]
    the items whose render threw, both in the order of the batch, whatever
    the order in which the renders settled; together they have as many
    entries as the batch has items. *)
Theorem generateCertificates_partition
        (hosts : nat -> Host) (sched : list nat -> nat)
        (gen : CertificateGenerator) (configs : list CertificateConfig)
        (C : Z) (fuel : nat) :
  wholeValue (concurrency (options gen)) = Some C ->
  (1 <= C)%Z ->
  (Z.of_nat (length configs) < 2 ^ 32)%Z ->
  (length configs < fuel)%nat ->
  exists events res,
    generateCertificates hosts sched gen configs fuel
    = Some (events, inr res)
    /\ successful res = flat_map (pathsOf hosts gen) (indexed configs)
    /\ map config (failed res)
       = map snd (filter (fun item => threw (ended hosts gen item))
                         (indexed configs))
    /\ (length (successful res) + length (failed res) = length configs)%nat.
Proof.
  intros Hwhole Hlimit Hlength Hfuel.
  rewrite (generateCertificates_runs hosts sched gen C Hwhole Hlimit configs
                                     Hlength fuel Hfuel).
  do 2 eexists. split; [reflexivity|]. cbn [successful failed].
  split; [reflexivity|]. split; [apply failuresOf_configs|].
  rewrite one_entry_each. apply indexedFrom_length.
Qed.

Lemma generateCertificates_partition_witness :
  wholeValue (concurrency (options (demoGenerator production 2))) = Some 2%Z
  /\ exists events res,
       generateCertificates (fun _ => quietHost) secondFirst
                            (demoGenerator production 2)
                            [nameless; ada; nameless; grace] 5
       = Some (events, inr res)
       /\ successful res
          = [js "/out/ada_lovelace_ada_x_com_2025-03-14.pdf";
             js "/out/grace_hopper_grace_x_com_2025-03-14.pdf"]
       /\ map config (failed res) = [nameless; nameless].
Proof.
  split; [reflexivity|].
  destruct (generateCertificates_partition
              (fun _ => quietHost) secondFirst (demoGenerator production 2)
              [nameless; ada; nameless; grace] 2 5)
    as (events & res & Hrun & Hpaths & Hfailed & _).
  - reflexivity.
  - lia.
  - vm_compute; reflexivity.
  - simpl; lia.
  - exists events, res. split; [exact Hrun|].
    split; [rewrite Hpaths|rewrite Hfailed]; reflexivity.
Defined.

Lemma generateCertificate_any_limit (h : Host) (limit : float)
      (gen : CertificateGenerator) (config : CertificateConfig) :
  generateCertificate h (withConcurrency limit gen) config
  = generateCertificate h gen config.
Proof. destruct gen as [[] ? ?]. reflexivity. Qed.

Lemma outcomes_any_limit (hosts : nat -> Host) (limit : float)
      (gen : CertificateGenerator) (items : list (nat * CertificateConfig)) :
  flat_map (pathsOf hosts (withConcurrency limit gen)) items
  = flat_map (pathsOf hosts gen) items
  /\ flat_map (failuresOf hosts (withConcurrency limit gen)) items
     = flat_map (failuresOf hosts gen) items.
Proof.
  induction items as [|item items [IHp IHf]]; [split; reflexivity|].
  cbn [flat_map]. rewrite IHp, IHf.
  unfold pathsOf, failuresOf, ended.
  rewrite generateCertificate_any_limit. split; reflexivity.
Qed.

(** X9. The result of a batch depends neither on the concurrency limit nor
    on the order in which the renders settle: in the same world, two runs
    with any two limits that are whole numbers of at least one and any two
    schedules return, within N + 1 iterations, the same [successful] and the
    same [failed]. (An array has fewer than 2^32 elements.) *)
Theorem generateCertificates_same_result
        (hosts : nat -> Host) (sched sched' : list nat -> nat)
        (limit limit' : float) (C C' : Z) (fuel fuel' : nat)
        (gen : CertificateGenerator) (configs : list CertificateConfig) :
  wholeValue limit = Some C -> (1 <= C)%Z ->
  wholeValue limit' = Some C' -> (1 <= C')%Z ->
  (Z.of_nat (length configs) < 2 ^ 32)%Z ->
  (length configs < fuel)%nat -> (length configs < fuel')%nat ->
  exists events events' res,
    generateCertificates hosts sched (withConcurrency limit gen) configs fuel
    = Some (events, inr res)
    /\ generateCertificates hosts sched' (withConcurrency limit' gen) configs
                            fuel'
       = Some (events', inr res).
Proof.
  intros Hwhole Hlimit Hwhole' Hlimit' Hlength Hfuel Hfuel'.
  rewrite (generateCertificates_runs hosts sched (withConcurrency limit gen)
             C Hwhole Hlimit configs Hlength fuel Hfuel).
  rewrite (generateCertificates_runs hosts sched' (withConcurrency limit' gen)
             C' Hwhole' Hlimit' configs Hlength fuel' Hfuel').
  destruct (outcomes_any_limit hosts limit gen (indexed configs)) as [-> ->].
  destruct (outcomes_any_limit hosts limit' gen (indexed configs)) as [-> ->].
  do 3 eexists. split; reflexivity.
Qed.

Lemma generateCertificates_same_result_witness :
  wholeValue 1 = Some 1%Z /\ wholeValue 3 = Some 3%Z
  /\ exists events events' res,
       generateCertificates (fun _ => quietHost) secondFirst
         (withConcurrency 1 (demoGenerator production 2))
         [ada; nameless; grace] 4
       = Some (events, inr res)
       /\ generateCertificates (fun _ => quietHost) (fun _ => O)
            (withConcurrency 3 (demoGenerator production 2))
            [ada; nameless; grace] 7
          = Some (events', inr res).
Proof.
  split; [reflexivity|]. split; [reflexivity|].
  apply (generateCertificates_same_result
           (fun _ => quietHost) secondFirst (fun _ => O) 1 3 1 3 4 7
           (demoGenerator production 2) [ada; nameless; grace]);
    first [reflexivity|lia|simpl; lia].
Defined.

(** X10. With a concurrency that is a whole number of at least one, every
    error that a batch reports in [failed] is of the class
    [CertificateGeneratorError] or of a subclass: the "Unknown error" that
    [generateCertificates] keeps for a failure without an error is never
    reported. (An array has fewer than 2^32 elements, and the loop is given
    more than N iterations.) *)
Theorem generateCertificates_failed_errors
        (hosts : nat -> Host) (sched : list nat -> nat)
        (gen : CertificateGenerator) (configs : list CertificateConfig)
        (C : Z) (fuel : nat) :
  wholeValue (concurrency (options gen)) = Some C ->
  (1 <= C)%Z ->
  (Z.of_nat (length configs) < 2 ^ 32)%Z ->
  (length configs < fuel)%nat ->
  exists events res,
    generateCertificates hosts sched gen configs fuel
    = Some (events, inr res)
    /\ Forall (fun failure =>
                 instanceofCertificateGeneratorError (error failure) = true)
              (failed res).
Proof.
  intros Hwhole Hlimit Hlength Hfuel.
  rewrite (generateCertificates_runs hosts sched gen C Hwhole Hlimit configs
                                     Hlength fuel Hfuel).
  do 2 eexists. split; [reflexivity|]. cbn [failed].
  apply Forall_forall. intros failure Hin.
  apply in_flat_map in Hin as (item & _ & Hin).
  unfold failuresOf, ended in Hin.
  rewrite generateCertificate_outcome in Hin.
  destruct (validateCertificateConfig (options gen) (snd item))
    as [invalid|] eqn:Hvalid.
  - destruct Hin as [<-|[]]. cbn [error].
    apply validate_class in Hvalid.
    unfold instanceofCertificateGeneratorError. now rewrite Hvalid.
  - destruct (outcome (render (hosts (fst item)) gen (snd item)));
      [|destruct Hin].
    destruct Hin as [<-|[]]. cbn [error]. apply rethrown_instanceof.
Qed.

Lemma generateCertificates_failed_errors_witness :
  wholeValue (concurrency (options (demoGenerator production 2))) = Some 2%Z
  /\ exists events res,
       generateCertificates (fun _ => fullDiskHost) secondFirst
                            (demoGenerator production 2) [ada; nameless] 3
       = Some (events, inr res)
       /\ Forall (fun failure =>
                    instanceofCertificateGeneratorError (error failure) = true)
                 (failed res).
Proof.
  split; [reflexivity|].
  apply (generateCertificates_failed_errors
           (fun _ => fullDiskHost) secondFirst (demoGenerator production 2)
           [ada; nameless] 2 3);
    first [reflexivity|lia|simpl; lia].
Defined.

(** X11. With a concurrency of zero, which the constructor refuses, the
    loop of [generateCertificates] never ends on a batch that is not empty:
    adding the limit leaves [i] at 0, and however many iterations the loop is
    given, it is still running. *)
Theorem batchLoop_never_ends
        (hosts : nat -> Host) (sched : list nat -> nat)
        (gen : CertificateGenerator) (configs : list CertificateConfig)
        (fuel : nat) (acc : BatchResult) :
  wholeValue (concurrency (options gen)) = Some 0%Z ->
  configs <> [] ->
  (Z.of_nat (length configs) < 2 ^ 32)%Z ->
  (0 + concurrency (options gen))%float = 0%float
  /\ batchLoop hosts sched gen configs fuel 0 acc = None.
Proof.
  intros Hlimit Hconfigs Hlength.
  assert (Hstays : (0 + concurrency (options gen))%float = 0%float).
  { apply whole_zero in Hlimit as [s Hlimit].
    apply Prim2SF_inj. rewrite add_spec, Hlimit. destruct s; reflexivity. }
  assert (Htest : PrimFloat.ltb 0 (arrayLength configs) = true).
  { rewrite (ltb_whole_numbers 0 (arrayLength configs) 0
                               (Z.of_nat (length configs))).
    - apply Z.ltb_lt. destruct configs; [congruence|]. simpl length. lia.
    - reflexivity.
    - apply wholeValue_wholeNumber.
      change (2 ^ 32)%Z with 4294967296%Z in Hlength.
      change (2 ^ 53)%Z with 9007199254740992%Z. lia.
    - lia.
    - lia. }
  split; [exact Hstays|]. revert acc.
  induction fuel as [|fuel IH]; intros acc; [reflexivity|].
  cbn [batchLoop]. rewrite Htest, Hstays, chunk_resolves, IH. reflexivity.
Qed.

Lemma batchLoop_never_ends_witness :
  wholeValue (concurrency (options (demoGenerator production 0))) = Some 0%Z
  /\ batchLoop (fun _ => quietHost) secondFirst (demoGenerator production 0)
               [ada; grace] 1000 0 {| successful := []; failed := [] |}
     = None.
Proof.
  split; [reflexivity|].
  apply (batchLoop_never_ends (fun _ => quietHost) secondFirst
           (demoGenerator production 0) [ada; grace] 1000).
  - reflexivity.
  - discriminate.
  - vm_compute; reflexivity.
Defined.

(** ** isValidEmail *)

Section RegexFacts.

Lemma matches_cat (r1 r2 : Regex) (s : jsstring) :
  Matches (Cat r1 r2) s <->
  exists s1 s2, s = s1 ++ s2 /\ Matches r1 s1 /\ Matches r2 s2.
Proof.
  split.
  - intros H. inversion H; subst. eauto.
  - intros (s1 & s2 & -> & H1 & H2). now constructor.
Qed.

Lemma matches_alt (r1 r2 : Regex) (s : jsstring) :
  Matches (Alt r1 r2) s <-> Matches r1 s \/ Matches r2 s.
Proof.
  split.
  - intros H. inversion H; subst; auto.
  - intros [H|H]; [now apply MatchesAltLeft|now apply MatchesAltRight].
Qed.

Lemma matches_unit (class : codeunit -> bool) (s : jsstring) :
  Matches (Unit class) s <-> exists c, s = [c] /\ class c = true.
Proof.
  split.
  - intros H. inversion H; subst. eauto.
  - intros (c & -> & Hc). now constructor.
Qed.

Lemma matches_never (s : jsstring) : ~ Matches Never s.
Proof. intros H. inversion H. Qed.

Lemma matches_empty (s : jsstring) : Matches Empty s <-> s = [].
Proof.
  split; [intros H; now inversion H|intros ->; constructor].
Qed.

Lemma nullable_matches (r : Regex) : nullable r = true <-> Matches r [].
Proof.
  induction r as [| |class|r1 IH1 r2 IH2|r1 IH1 r2 IH2|r IH]; simpl.
  - split; [discriminate|intros H; inversion H].
  - split; [constructor|reflexivity].
  - split; [discriminate|intros H; inversion H].
  - rewrite andb_true_iff, IH1, IH2, matches_cat. split.
    + intros [H1 H2]. exists [], []. auto.
    + intros (s1 & s2 & Hs & H1 & H2). symmetry in Hs.
      apply app_eq_nil in Hs as [-> ->]. auto.
  - rewrite orb_true_iff, IH1, IH2, matches_alt. reflexivity.
  - split; [constructor|reflexivity].
Qed.

(** A star that matches a string with a first unit spends that unit in one
    of its rounds. *)
Lemma matches_star_cons (r : Regex) (c : codeunit) (s : jsstring) :
  Matches (Star r) (c :: s) ->
  exists s1 s2, s = s1 ++ s2 /\ Matches r (c :: s1) /\ Matches (Star r) s2.
Proof.
  intros H. remember (Star r) as starred eqn:Hr.
  remember (c :: s) as whole eqn:Hw.
  revert s Hw.
  induction H as [| | | | | |r' s1 s2 H1 _ H2 IH2]; intros rest Hw;
    try discriminate.
  inversion Hr; subst r'. destruct s1 as [|c' s1].
  - simpl in Hw. apply IH2; assumption.
  - simpl in Hw. inversion Hw; subst. eauto.
Qed.

Lemma derive_matches (c : codeunit) (r : Regex) (s : jsstring) :
  Matches (derive c r) s <-> Matches r (c :: s).
Proof.
  revert s.
  induction r as [| |class|r1 IH1 r2 IH2|r1 IH1 r2 IH2|r IH]; intros s;
    cbn [derive].
  - split; intros H; inversion H.
  - split; intros H; inversion H.
  - destruct (class c) eqn:Hc.
    + rewrite matches_empty, matches_unit. split.
      * intros ->. eauto.
      * intros (c' & Hs & _). now inversion Hs.
    + split; [intros H; inversion H|].
      rewrite matches_unit. intros (c' & Hs & Hc').
      inversion Hs; subst. congruence.
  - rewrite matches_alt, !matches_cat. split.
    + intros [(s1 & s2 & -> & H1 & H2)|H].
      * exists (c :: s1), s2. rewrite <- IH1. auto.
      * destruct (nullable r1) eqn:Hnull; [|now apply matches_never in H].
        exists [], (c :: s). rewrite <- nullable_matches, <- IH2. auto.
    + intros (s1 & s2 & Hs & H1 & H2). destruct s1 as [|c' s1].
      * right. simpl in Hs. subst s2.
        apply nullable_matches in H1. rewrite H1. now apply IH2.
      * left. simpl in Hs. inversion Hs; subst.
        exists s1, s2. rewrite IH1. auto.
  - rewrite !matches_alt, IH1, IH2. reflexivity.
  - rewrite matches_cat. split.
    + intros (s1 & s2 & -> & H1 & H2). apply IH in H1.
      change (c :: s1 ++ s2) with ((c :: s1) ++ s2). now constructor.
    + intros H. apply matches_star_cons in H as (s1 & s2 & -> & H1 & H2).
      exists s1, s2. rewrite IH. auto.
Qed.

(** The derivative matcher decides what the pattern matches. *)
Lemma regexTest_matches (r : Regex) (s : jsstring) :
  regexTest r s = true <-> Matches r s.
Proof.
  revert r. induction s as [|c s IH]; intros r; simpl.
  - apply nullable_matches.
  - rewrite IH. apply derive_matches.
Qed.

Lemma matches_star_class (class : codeunit -> bool) (s : jsstring) :
  Matches (Star (Unit class)) s <-> forallb class s = true.
Proof.
  split.
  - intros H. remember (Star (Unit class)) as starred eqn:Hr.
    induction H as [| | | | | |r' s1 s2 H1 _ H2 IH2]; try discriminate;
      [reflexivity|].
    inversion Hr; subst r'. apply matches_unit in H1 as (c & -> & Hc).
    simpl. now rewrite Hc, IH2.
  - induction s as [|c s IH]; simpl; [constructor|].
    intros H. apply andb_true_iff in H as [Hc Hs].
    change (c :: s) with ([c] ++ s). constructor; [now constructor|auto].
Qed.

Lemma matches_plus_class (class : codeunit -> bool) (s : jsstring) :
  Matches (Plus (Unit class)) s <-> s <> [] /\ forallb class s = true.
Proof.
  unfold Plus. rewrite matches_cat. split.
  - intros (s1 & s2 & -> & H1 & H2).
    apply matches_unit in H1 as (c & -> & Hc).
    apply matches_star_class in H2. simpl. rewrite Hc, H2.
    split; [discriminate|reflexivity].
  - intros [Hne Hall]. destruct s as [|c s]; [congruence|].
    simpl in Hall. apply andb_true_iff in Hall as [Hc Hs].
    exists [c], s. split; [reflexivity|].
    split; [now constructor|now apply matches_star_class].
Qed.

End RegexFacts.

Lemma email_parts (email : jsstring) :
  isValidEmail email = true ->
  exists localPart domain tail,
    email = localPart ++ atSign :: domain ++ fullStop :: tail
    /\ localPart <> [] /\ domain <> [] /\ tail <> []
    /\ forallb notSpaceNorAt localPart = true
    /\ forallb notSpaceNorAt domain = true
    /\ forallb notSpaceNorAt tail = true.
Proof.
  unfold isValidEmail, emailRegex. rewrite regexTest_matches.
  intros H.
  apply matches_cat in H as (localPart & rest & -> & Hlocal & H).
  apply matches_cat in H as (at_ & rest' & -> & Hat & H).
  apply matches_cat in H as (domain & rest'' & -> & Hdomain & H).
  apply matches_cat in H as (dot & tail & -> & Hdot & Htail).
  apply matches_unit in Hat as (c & -> & Hc). apply N.eqb_eq in Hc.
  apply matches_unit in Hdot as (d & -> & Hd). apply N.eqb_eq in Hd.
  subst c d.
  apply matches_plus_class in Hlocal as [? ?].
  apply matches_plus_class in Hdomain as [? ?].
  apply matches_plus_class in Htail as [? ?].
  exists localPart, domain, tail. simpl. repeat split; assumption.
Qed.

(** X12. [isValidEmail] accepts exactly the strings of the shape
    local@domain.tail in which the three parts are not empty and hold
    neither white space nor an at sign. *)
Theorem isValidEmail_shape (email : jsstring) :
  isValidEmail email = true <->
  exists localPart domain tail,
    email = localPart ++ atSign :: domain ++ fullStop :: tail
    /\ localPart <> [] /\ domain <> [] /\ tail <> []
    /\ forallb notSpaceNorAt localPart = true
    /\ forallb notSpaceNorAt domain = true
    /\ forallb notSpaceNorAt tail = true.
Proof.
  split; [apply email_parts|].
  unfold isValidEmail, emailRegex. rewrite regexTest_matches.
  intros (localPart & domain & tail & -> & Hl & Hd & Ht & Hal & Had & Hat).
  constructor; [now apply matches_plus_class|].
  change (atSign :: domain ++ fullStop :: tail)
    with ([atSign] ++ domain ++ [fullStop] ++ tail).
  constructor; [constructor; apply N.eqb_refl|].
  constructor; [now apply matches_plus_class|].
  constructor; [constructor; apply N.eqb_refl|].
  now apply matches_plus_class.
Qed.

Section EmailFacts.

Lemma sameString_eq (a b : jsstring) : sameString a b = true <-> a = b.
Proof.
  revert b. induction a as [|c a IH]; intros [|d b]; simpl;
    try (split; [discriminate|discriminate]); [tauto|].
  rewrite andb_true_iff, N.eqb_eq, IH. split.
  - intros [-> ->]. reflexivity.
  - intros H. inversion H. auto.
Qed.

Lemma notSpaceNorAt_visible (c : codeunit) :
  notSpaceNorAt c = true -> isWhiteSpace c = false.
Proof.
  unfold notSpaceNorAt. destruct (isWhiteSpace c); [discriminate|reflexivity].
Qed.

Lemma visible_all (class : codeunit -> bool) (s : jsstring) :
  (forall c, class c = true -> isWhiteSpace c = false) ->
  forallb class s = true ->
  forallb (fun c => negb (isWhiteSpace c)) s = true.
Proof.
  intros Hclass. induction s as [|c s IH]; [reflexivity|]. simpl.
  intros H. apply andb_true_iff in H as [Hc Hs].
  now rewrite (Hclass c Hc), IH.
Qed.

(** An address that [isValidEmail] accepts has no white space in it. *)
Lemma valid_email_visible (email : jsstring) :
  isValidEmail email = true ->
  forallb (fun c => negb (isWhiteSpace c)) email = true.
Proof.
  intros H. apply email_parts in H
    as (l & d & t & -> & _ & _ & _ & Hl & Hd & Ht).
  rewrite forallb_app. cbn [forallb]. rewrite forallb_app. cbn [forallb].
  rewrite !(visible_all notSpaceNorAt) by auto using notSpaceNorAt_visible.
  reflexivity.
Qed.

Lemma trimStart_visible (s : jsstring) :
  forallb (fun c => negb (isWhiteSpace c)) s = true -> trimStart s = s.
Proof.
  destruct s as [|c s]; [reflexivity|]. simpl.
  destruct (isWhiteSpace c); [discriminate|reflexivity].
Qed.

Lemma trim_visible (s : jsstring) :
  forallb (fun c => negb (isWhiteSpace c)) s = true -> trim s = s.
Proof.
  intros H. unfold trim, trimEnd. rewrite (trimStart_visible s H).
  rewrite trimStart_visible; [apply rev_involutive|].
  apply forallb_forall. intros c Hin. apply in_rev in Hin.
  rewrite forallb_forall in H. auto.
Qed.

Lemma visible_not_blank (s : jsstring) :
  s <> [] -> forallb (fun c => negb (isWhiteSpace c)) s = true ->
  isBlank s = false.
Proof.
  destruct s as [|c s]; [congruence|]. simpl. intros _ H.
  apply andb_true_iff in H as [Hc _].
  unfold isBlank. simpl. destruct (isWhiteSpace c); [discriminate|reflexivity].
Qed.

Lemma valid_email_not_empty (email : jsstring) :
  isValidEmail email = true -> email <> [].
Proof. intros H ->. discriminate H. Qed.

End EmailFacts.

(** X13. An address that [isValidEmail] accepts holds no white space, so
    the [trim] that [loadPersonData] applies to it leaves it as it is, and it
    holds exactly one at sign. *)
Theorem valid_email_trimmed (email : jsstring) :
  isValidEmail email = true ->
  trim email = email
  /\ isBlank email = false
  /\ length (filter (fun c => (c =? atSign)%N) email) = 1%nat.
Proof.
  intros H. pose proof (valid_email_visible email H) as Hvisible.
  split; [now apply trim_visible|].
  split; [apply visible_not_blank;
          [now apply valid_email_not_empty|assumption]|].
  apply email_parts in H
    as (l & d & t & -> & _ & _ & _ & Hl & Hd & Ht).
  assert (Hnone : forall s, forallb notSpaceNorAt s = true ->
                            filter (fun c => (c =? atSign)%N) s = []).
  { induction s as [|c s IH]; [reflexivity|]. simpl.
    intros Hs. apply andb_true_iff in Hs as [Hc Hs].
    unfold notSpaceNorAt in Hc.
    destruct (c =? atSign)%N; [now rewrite orb_true_r in Hc|auto]. }
  rewrite filter_app. cbn [filter]. rewrite N.eqb_refl, filter_app.
  cbn [filter]. change (fullStop =? atSign)%N with false. cbn iota.
  now rewrite !Hnone by assumption.
Qed.

Lemma valid_email_trimmed_witness :
  isValidEmail (js "ada@x.com") = true
  /\ trim (js "ada@x.com") = js "ada@x.com".
Proof.
  split; [reflexivity|].
  apply (valid_email_trimmed (js "ada@x.com")). reflexivity.
Defined.

(** ** loadPersonData *)

Section PersonDataFacts.

Variable rt : Runtime.

Lemma string_member (v : option Json) :
  negb (truthyJson v) || negb (typeofString v) = false ->
  exists s, v = Some (JString s) /\ s <> [].
Proof.
  destruct v as [[|b|n|s|items|members]|]; simpl; try discriminate.
  { destruct b; discriminate. }
  { destruct (truthyNumber n); discriminate. }
  destruct s; [discriminate|]. intros _. eexists. split; [reflexivity|].
  discriminate.
Qed.

(** An item goes through the first [forEach] exactly when it is an object
    or an array, its name is a string that is not blank and its email is a
    string that [isValidEmail] accepts. Neither the index nor the persons
    validated so far matter. *)
Lemma validateItems_cons (index : nat) (item : Json) (rest : list Json)
      (validatedData : list PersonData.t) :
  (accepted rt item = true
   /\ exists person,
        recordOf rt item person
        /\ validateItems rt index (item :: rest) validatedData
           = validateItems rt (S index) rest (validatedData ++ [person]))
  \/ (accepted rt item = false
      /\ exists suffix,
           validateItems rt index (item :: rest) validatedData
           = inl (DataValidationError
                    (js "Item at index " ++ indexString index ++ suffix))).
Proof.
  unfold accepted. cbn [validateItems].
  destruct (negb (truthyJson (Some item)) || negb (typeofObject (Some item)));
    [right; split; [reflexivity|eexists; reflexivity]|].
  destruct (negb (truthyJson (getMember (js "name") item))
            || negb (typeofString (getMember (js "name") item))) eqn:Hname;
    [right; split; [reflexivity|eexists; reflexivity]|].
  apply string_member in Hname as (n & Hn & Hne). rewrite Hn.
  cbn [orb stringOf]. rewrite trim_blank.
  destruct (isBlank n) eqn:Hblank;
    [right; split; [reflexivity|eexists; reflexivity]|].
  destruct (negb (truthyJson (getMember (js "email") item))
            || negb (typeofString (getMember (js "email") item))) eqn:Hemail.
  { right. split; [reflexivity|].
    eexists. unfold invalidEmail. reflexivity. }
  apply string_member in Hemail as (e & He & Hee). rewrite He.
  cbn [orb stringOf].
  destruct (isValidEmail e) eqn:Hvalid; cbn [negb].
  - left. split; [reflexivity|]. eexists. split; [|reflexivity].
    exists n, e. cbn [PersonData.name PersonData.email].
    rewrite (trim_visible e) by now apply valid_email_visible.
    repeat split; assumption.
  - right. split; [reflexivity|].
    eexists. unfold invalidEmail. reflexivity.
Qed.

Lemma validateItems_returned (data : list Json) (index : nat)
      (validatedData persons : list PersonData.t) :
  validateItems rt index data validatedData = inr persons ->
  exists added,
    persons = validatedData ++ added /\ Forall2 (recordOf rt) data added.
Proof.
  revert index validatedData.
  induction data as [|item rest IH]; intros index validatedData H.
  - simpl in H. inversion H. exists []. rewrite app_nil_r.
    split; [reflexivity|constructor].
  - destruct (validateItems_cons index item rest validatedData)
      as [(_ & person & Hperson & Hstep)|(_ & suffix & Hstep)];
      rewrite Hstep in H; [|discriminate].
    apply IH in H as (added & -> & Hadded).
    exists (person :: added). rewrite <- app_assoc.
    split; [reflexivity|now constructor].
Qed.

Lemma validateItems_all_accepted (data : list Json) (index : nat)
      (validatedData : list PersonData.t) :
  forallb (accepted rt) data = true ->
  exists added,
    validateItems rt index data validatedData = inr (validatedData ++ added)
    /\ length added = length data.
Proof.
  revert index validatedData.
  induction data as [|item rest IH]; intros index validatedData H.
  - exists []. rewrite app_nil_r. split; reflexivity.
  - cbn [forallb] in H. apply andb_true_iff in H as [Hitem Hrest].
    destruct (validateItems_cons index item rest validatedData)
      as [(_ & person & _ & Hstep)|(Hrefused & _)]; [|congruence].
    destruct (IH (S index) (validatedData ++ [person]) Hrest)
      as (added & Hrun & Hlen).
    exists (person :: added). rewrite Hstep, Hrun, <- app_assoc.
    split; [reflexivity|simpl; now rewrite Hlen].
Qed.

(** The first item that is refused stops the loop, and the error names its
    index. *)
Lemma validateItems_first_refused (good : list Json) (bad : Json)
      (rest : list Json) (index : nat) (validatedData : list PersonData.t) :
  forallb (accepted rt) good = true ->
  accepted rt bad = false ->
  exists suffix,
    validateItems rt index (good ++ bad :: rest) validatedData
    = inl (DataValidationError
             (js "Item at index " ++ indexString (index + length good)
                 ++ suffix)).
Proof.
  revert index validatedData.
  induction good as [|item good IH]; intros index validatedData Hgood Hbad.
  - rewrite Nat.add_0_r. cbn [app].
    destruct (validateItems_cons index bad rest validatedData)
      as [(Haccepted & _)|(_ & suffix & Hstep)]; [congruence|eauto].
  - cbn [forallb] in Hgood. apply andb_true_iff in Hgood as [Hitem Hgood].
    cbn [app length].
    destruct (validateItems_cons index item (good ++ bad :: rest)
                                 validatedData)
      as [(_ & person & _ & Hstep)|(Hrefused & _)]; [|congruence].
    rewrite Hstep, Nat.add_succ_r. apply (IH (S index)); assumption.
Qed.

Lemma findDuplicates_none (persons : list PersonData.t)
      (emailSet duplicates : list jsstring) :
  findDuplicates persons emailSet duplicates = [] <->
  duplicates = []
  /\ NoDup (map PersonData.email persons)
  /\ forall person, In person persons ->
                    ~ In (PersonData.email person) emailSet.
Proof.
  revert emailSet duplicates.
  induction persons as [|person rest IH]; intros emailSet duplicates.
  - simpl. split; [intros ->; repeat split; [constructor|tauto]|tauto].
  - cbn [findDuplicates map].
    destruct (existsb (sameString (PersonData.email person)) emailSet)
      eqn:Hmet.
    + rewrite IH. split.
      * intros (Hd & _). now apply app_eq_nil in Hd as [_ Hd].
      * intros (_ & _ & Hfresh). exfalso.
        apply existsb_exists in Hmet as (e & Hin & He).
        apply sameString_eq in He. subst e.
        apply (Hfresh person); [now left|assumption].
    + assert (Hnew : ~ In (PersonData.email person) emailSet).
      { intros Hin. apply Bool.not_true_iff_false in Hmet. apply Hmet.
        apply existsb_exists. exists (PersonData.email person).
        split; [assumption|now apply sameString_eq]. }
      rewrite IH. split.
      * intros (-> & Hnodup & Hfresh). split; [reflexivity|]. split.
        -- constructor; [|assumption]. intros Hin.
           apply in_map_iff in Hin as (other & Hsame & Hin).
           apply (Hfresh other Hin). left. congruence.
        -- intros other [<-|Hin]; [assumption|].
           intros Hmember. apply (Hfresh other Hin). now right.
      * intros (-> & Hnodup & Hfresh). inversion Hnodup as [|? ? Hnotin Hrest].
        split; [reflexivity|]. split; [assumption|].
        intros other Hin [Hsame|Hmember].
        -- apply Hnotin. apply in_map_iff. exists other. auto.
        -- apply (Hfresh other); [now right|assumption].
Qed.

Lemma own_errors_kept :
  includes (js "FileNotFoundError") (js "JSON") = false
  /\ includes (js "DataValidationError") (js "JSON") = false.
Proof. split; reflexivity. Qed.

End PersonDataFacts.

Ltac unfold_load :=
  unfold loadPersonData, tryCatch, bind, call, pure, ret, throw, calls,
    outcome.

Lemma loadPersonData_returns_records
      (rt : Runtime) (filePath : jsstring) (persons : list PersonData.t) :
  outcome (loadPersonData rt filePath) = inr persons ->
  exists items, Forall2 (recordOf rt) items persons.
Proof.
  unfold_load. intros H.
  destruct (existsSync (fs rt) filePath); cbn [negb fst snd app] in H;
    [|discriminate H].
  destruct (readFileSync_utf8 rt filePath) as [e|fileContent];
    cbn [fst snd app] in H;
    [destruct (includes (errorName e) (js "JSON")); discriminate H|].
  destruct (JSON_parse rt fileContent) as [e|data]; cbn [fst snd app] in H;
    [destruct (includes (errorName e) (js "JSON")); discriminate H|].
  destruct data as [|b|n|s|items|members]; try discriminate H.
  destruct (validateItems rt 0 items []) as [e|validatedData] eqn:Hitems;
    cbn [fst snd app] in H;
    [destruct (includes (errorName e) (js "JSON")); discriminate H|].
  destruct (findDuplicates validatedData [] []) as [|d ds];
    cbn [length Nat.ltb Nat.leb fst snd app] in H; [|discriminate H].
  inversion H; subst persons; clear H.
  apply validateItems_returned in Hitems as (added & -> & Hadded).
  exists items. exact Hadded.
Qed.

(** X14. When [loadPersonData] returns, the file existed and held a JSON
    array; the persons are the records of the array, one for one and in
    order, each with the name of its record trimmed, which is not blank, and
    with the address of its record, which [isValidEmail] accepts, in lower
    case; and no two persons have the same address. *)
Theorem loadPersonData_returns
        (rt : Runtime) (filePath : jsstring) (persons : list PersonData.t) :
  outcome (loadPersonData rt filePath) = inr persons ->
  existsSync (fs rt) filePath = true
  /\ exists fileContent items,
       readFileSync_utf8 rt filePath = inr fileContent
       /\ JSON_parse rt fileContent = inr (JArray items)
       /\ Forall2 (recordOf rt) items persons
       /\ NoDup (map PersonData.email persons).
Proof.
  unfold_load. intros H.
  destruct (existsSync (fs rt) filePath); cbn [negb fst snd app] in H;
    [|discriminate H].
  split; [reflexivity|].
  destruct (readFileSync_utf8 rt filePath) as [e|fileContent] eqn:Hread;
    cbn [fst snd app] in H;
    [destruct (includes (errorName e) (js "JSON")); discriminate H|].
  destruct (JSON_parse rt fileContent) as [e|data] eqn:Hparse;
    cbn [fst snd app] in H;
    [destruct (includes (errorName e) (js "JSON")); discriminate H|].
  destruct data as [|b|n|s|items|members]; try discriminate H.
  destruct (validateItems rt 0 items []) as [e|validatedData] eqn:Hitems;
    cbn [fst snd app] in H;
    [destruct (includes (errorName e) (js "JSON")); discriminate H|].
  destruct (findDuplicates validatedData [] []) as [|d ds] eqn:Hdups;
    cbn [length Nat.ltb Nat.leb fst snd app] in H; [|discriminate H].
  inversion H; subst persons; clear H.
  exists fileContent, items. split; [reflexivity|]. split; [assumption|].
  apply validateItems_returned in Hitems as (added & -> & Hadded).
  apply findDuplicates_none in Hdups as (_ & Hnodup & _).
  split; assumption.
Qed.

Lemma loadPersonData_returns_witness :
  outcome (loadPersonData demoRuntime (js "emails.json"))
  = inr [{| PersonData.name := js "Ada Lovelace";
            PersonData.email := js "ada@x.com" |};
         {| PersonData.name := js "Grace Hopper";
            PersonData.email := js "grace@x.com" |}]
  /\ NoDup [js "ada@x.com"; js "grace@x.com"].
Proof.
  split; [reflexivity|].
  destruct (loadPersonData_returns demoRuntime (js "emails.json") _ eq_refl)
    as (_ & fileContent & items & _ & _ & _ & Hnodup).
  exact Hnodup.
Defined.

(** X15. When the data file does not exist, [loadPersonData] throws the
    [FileNotFoundError] of the path, with the message "File not found: "
    followed by the path, and has only probed the path: nothing is read. *)
Theorem loadPersonData_missing_file (rt : Runtime) (filePath : jsstring) :
  existsSync (fs rt) filePath = false ->
  loadPersonData rt filePath
  = ([CallExistsSync filePath],
     inl (mkJsError ClassFileNotFoundError (js "FileNotFoundError")
                    (js "File not found: " ++ filePath) None)).
Proof. unfold_load. intros ->. reflexivity. Qed.

Lemma loadPersonData_missing_file_witness :
  existsSync (fs noDataRuntime) (js "assets/font.ttf") = false
  /\ outcome (loadPersonData noDataRuntime (js "assets/font.ttf"))
     = inl (FileNotFoundError (js "assets/font.ttf") None).
Proof.
  split; [reflexivity|].
  rewrite (loadPersonData_missing_file noDataRuntime (js "assets/font.ttf"));
    reflexivity.
Defined.

(** X16. What [JSON.parse] throws is turned into a [DataValidationError]
    "Invalid JSON format: ..." only if the name of the error contains "JSON";
    an error with any other name, as the SyntaxError of [JSON.parse], leaves
    [loadPersonData] as it is. *)
Theorem loadPersonData_parse_error
        (rt : Runtime) (filePath fileContent : jsstring) (e : JsError) :
  existsSync (fs rt) filePath = true ->
  readFileSync_utf8 rt filePath = inr fileContent ->
  JSON_parse rt fileContent = inl e ->
  outcome (loadPersonData rt filePath)
  = inl (if includes (errorName e) (js "JSON")
         then DataValidationError (js "Invalid JSON format: " ++ message e)
         else e)
  /\ includes (js "SyntaxError") (js "JSON") = false.
Proof.
  unfold_load. intros -> -> ->. cbn [negb fst snd app].
  destruct (includes (errorName e) (js "JSON")); split; reflexivity.
Qed.

Lemma loadPersonData_parse_error_witness :
  JSON_parse brokenJsonRuntime (js "[ not json")
  = inl (mkJsError ClassError (js "SyntaxError")
                   (js "JSON Parse error: Unexpected EOF") None)
  /\ outcome (loadPersonData brokenJsonRuntime (js "emails.json"))
     = inl (mkJsError ClassError (js "SyntaxError")
                      (js "JSON Parse error: Unexpected EOF") None).
Proof.
  split; [reflexivity|].
  destruct (loadPersonData_parse_error
              brokenJsonRuntime (js "emails.json") (js "[ not json")
              (mkJsError ClassError (js "SyntaxError")
                         (js "JSON Parse error: Unexpected EOF") None)
              eq_refl eq_refl eq_refl) as [Houtcome _].
  exact Houtcome.
Defined.

(** X17. The first record that the checks refuse ends the load: when the
    records before it are all accepted, [loadPersonData] throws a
    [DataValidationError] whose message names the index of that record,
    whatever comes after it. *)
Theorem loadPersonData_first_refused
        (rt : Runtime) (filePath fileContent : jsstring)
        (good : list Json) (bad : Json) (rest : list Json) :
  existsSync (fs rt) filePath = true ->
  readFileSync_utf8 rt filePath = inr fileContent ->
  JSON_parse rt fileContent = inr (JArray (good ++ bad :: rest)) ->
  forallb (accepted rt) good = true ->
  accepted rt bad = false ->
  exists suffix,
    outcome (loadPersonData rt filePath)
    = inl (mkJsError ClassDataValidationError (js "DataValidationError")
             (js "Data validation error: Item at index "
                 ++ indexString (length good) ++ suffix)
             None).
Proof.
  intros Hexists Hread Hparse Hgood Hbad.
  destruct (validateItems_first_refused rt good bad rest 0 [] Hgood Hbad)
    as [suffix Hitems].
  exists suffix. unfold_load.
  rewrite Hexists, Hread. cbn [negb fst snd app].
  rewrite Hparse. cbn [fst snd app]. rewrite Hitems.
  cbn [fst snd app Nat.add].
  unfold DataValidationError. cbn [errorName].
  rewrite (proj2 own_errors_kept). reflexivity.
Qed.

(** X18. Two records with the same address, once in lower case, are not
    loaded: when every record passes the checks, [loadPersonData] returns
    exactly when the addresses of the persons are pairwise different, and
    otherwise throws the [DataValidationError] "Duplicate emails found". *)
Theorem loadPersonData_duplicates
        (rt : Runtime) (filePath fileContent : jsstring) (items : list Json)
        (persons : list PersonData.t) :
  existsSync (fs rt) filePath = true ->
  readFileSync_utf8 rt filePath = inr fileContent ->
  JSON_parse rt fileContent = inr (JArray items) ->
  validateItems rt 0 items [] = inr persons ->
  (NoDup (map PersonData.email persons) ->
   outcome (loadPersonData rt filePath) = inr persons)
  /\ (~ NoDup (map PersonData.email persons) ->
      outcome (loadPersonData rt filePath)
      = inl (DataValidationError
               (js "Duplicate emails found: "
                   ++ joinWith (js ", ") (findDuplicates persons [] [])))).
Proof.
  intros Hexists Hread Hparse Hitems.
  assert (Hrun : outcome (loadPersonData rt filePath)
                 = match findDuplicates persons [] [] with
                   | [] => inr persons
                   | _ :: _ =>
                       inl (DataValidationError
                              (js "Duplicate emails found: "
                                  ++ joinWith (js ", ")
                                       (findDuplicates persons [] [])))
                   end).
  { unfold_load. rewrite Hexists, Hread. cbn [negb fst snd app].
    rewrite Hparse. cbn [fst snd app]. rewrite Hitems. cbn [fst snd app].
    destruct (findDuplicates persons [] []); reflexivity. }
  rewrite Hrun. split.
  - intros Hnodup.
    assert (Hnone : findDuplicates persons [] [] = [])
      by (apply findDuplicates_none; repeat split; auto).
    now rewrite Hnone.
  - intros Hdup. destruct (findDuplicates persons [] []) eqn:Hfound;
      [|reflexivity].
    exfalso. apply Hdup. now apply findDuplicates_none in Hfound.
Qed.

Lemma loadPersonData_first_refused_witness :
  forallb (accepted badRecordRuntime) [record "Ada Lovelace" "ada@x.com"]
  = true
  /\ accepted badRecordRuntime (record "Grace Hopper" "grace at x.com")
     = false
  /\ exists suffix,
       outcome (loadPersonData badRecordRuntime (js "emails.json"))
       = inl (mkJsError ClassDataValidationError (js "DataValidationError")
                (js "Data validation error: Item at index "
                    ++ indexString 1 ++ suffix)
                None).
Proof.
  split; [reflexivity|]. split; [reflexivity|].
  apply (loadPersonData_first_refused
           badRecordRuntime (js "emails.json")
           (js "[ a record without address ]")
           [record "Ada Lovelace" "ada@x.com"]
           (record "Grace Hopper" "grace at x.com") [JNull]);
    reflexivity.
Defined.

Lemma loadPersonData_duplicates_witness :
  validateItems duplicateRuntime 0
    [record "Ada Lovelace" "Ada@X.com"; record "Ada L." "ada@x.com"] []
  = inr [{| PersonData.name := js "Ada Lovelace";
            PersonData.email := js "ada@x.com" |};
         {| PersonData.name := js "Ada L.";
            PersonData.email := js "ada@x.com" |}]
  /\ outcome (loadPersonData duplicateRuntime (js "emails.json"))
     = inl (DataValidationError (js "Duplicate emails found: ada@x.com")).
Proof.
  split; [reflexivity|].
  destruct (loadPersonData_duplicates
              duplicateRuntime (js "emails.json")
              (js "[ the same address twice ]")
              [record "Ada Lovelace" "Ada@X.com"; record "Ada L." "ada@x.com"]
              [{| PersonData.name := js "Ada Lovelace";
                  PersonData.email := js "ada@x.com" |};
               {| PersonData.name := js "Ada L.";
                  PersonData.email := js "ada@x.com" |}]
              eq_refl eq_refl eq_refl eq_refl) as [_ Hdup].
  rewrite Hdup; [reflexivity|].
  intros Hnodup. inversion Hnodup as [|? ? Hnotin _]. apply Hnotin.
  left. reflexivity.
Defined.

(** ** The data loader and the generator together *)

Section LoaderFacts.

Lemma lowerUnit_space (c : codeunit) :
  isWhiteSpace (lowerUnit c) = isWhiteSpace c.
Proof.
  unfold lowerUnit, isUpper.
  destruct (N.leb_spec 65 c), (N.leb_spec c 90); cbn [andb];
    try reflexivity.
  unfold isWhiteSpace.
  repeat match goal with
         | |- context [(?a <=? ?b)%N] => destruct (N.leb_spec a b); try lia
         | |- context [(?a =? ?b)%N] => destruct (N.eqb_spec a b); try lia
         end; reflexivity.
Qed.

Lemma toLowerCase_blank (s : jsstring) :
  isBlank (toLowerCase s) = isBlank s.
Proof.
  unfold isBlank, toLowerCase. induction s as [|c s IH]; [reflexivity|].
  simpl. now rewrite lowerUnit_space, IH.
Qed.

Lemma toLowerCaseOf_blank (rt : Runtime) (s : jsstring) :
  (forall u, isBlank (toLowerCase_unicode rt u) = isBlank u) ->
  isBlank (toLowerCaseOf rt s) = isBlank s.
Proof.
  intros Hunicode. unfold toLowerCaseOf.
  destruct (forallb isAscii s); [apply toLowerCase_blank|apply Hunicode].
Qed.

Lemma trim_twice_blank (s : jsstring) : isBlank (trim s) = isBlank s.
Proof.
  unfold trim, trimEnd.
  assert (Hstart : forall u, isBlank (trimStart u) = isBlank u).
  { induction u as [|c u IH]; [reflexivity|]. simpl.
    destruct (isWhiteSpace c) eqn:Hc; [exact IH|]. unfold isBlank. simpl.
    now rewrite Hc. }
  assert (Hrev : forall u, isBlank (rev u) = isBlank u).
  { intros u. unfold isBlank.
    destruct (forallb isWhiteSpace u) eqn:Hu.
    - apply forallb_forall. intros c Hin. apply in_rev in Hin.
      rewrite forallb_forall in Hu. auto.
    - apply Bool.not_true_iff_false. intros Hr.
      apply Bool.not_true_iff_false in Hu. apply Hu.
      apply forallb_forall. intros c Hin. rewrite forallb_forall in Hr.
      apply Hr. now apply in_rev in Hin. }
  now rewrite Hrev, Hstart, Hrev, Hstart.
Qed.

End LoaderFacts.

(** X19. In test mode the loader touches no file and returns exactly one
    item, named by the test name, without email, output path or position;
    on a generator that was constructed from the same configuration this
    item fails validation only through the configured font size. *)
Theorem test_mode_item
        (h : Host) (rt : Runtime) (config : AppConfig.t)
        (gen : CertificateGenerator) :
  AppConfig.mode config = test ->
  outcome (newCertificateGenerator h (generatorOptions config)) = inr gen ->
  exists item,
    loadCertificateConfigs rt config = ([], inr [item])
    /\ AppConfig.testName config = Some (name item)
    /\ email item = None /\ outputPath item = None /\ position item = None
    /\ threw (validateCertificateConfig (options gen) item)
       = fontSizeRejected item.
Proof.
  intros Hmode Hgen.
  apply constructed_options in Hgen as [Hoptions Haccepted].
  unfold refusedInMemory in Haccepted.
  cbn [generatorOptions mode testName] in Haccepted.
  rewrite Hmode in Haccepted. cbn [isTest andb] in Haccepted.
  apply orb_false_iff in Haccepted as [_ Hname].
  destruct (AppConfig.testName config) as [n|] eqn:Htest; [|discriminate].
  unfold loadCertificateConfigs, loadTestModeConfigs.
  rewrite Hmode, Htest.
  assert (Hn : truthyString (Some n) = true)
    by (destruct n; [discriminate Hname|reflexivity]).
  rewrite Hn. cbn [negb]. eexists. split; [reflexivity|].
  cbn [name email outputPath position]. repeat split.
  rewrite validate_threw, Hoptions. cbn [name email generatorOptions mode].
  rewrite Hname, Hmode. cbn [isProduction andb orb].
  apply orb_false_r.
Qed.

Lemma test_mode_item_witness :
  AppConfig.mode (demoAppConfig test) = test
  /\ exists item,
       loadCertificateConfigs demoRuntime (demoAppConfig test)
       = ([], inr [item])
       /\ AppConfig.testName (demoAppConfig test) = Some (name item).
Proof.
  split; [reflexivity|].
  destruct (test_mode_item quietHost demoRuntime (demoAppConfig test)
              {| options := generatorOptions (demoAppConfig test);
                 templateBuffer := [37; 80; 68; 70]%N;
                 fontBuffer := [37; 80; 68; 70]%N |} eq_refl eq_refl)
    as (item & Hload & Hname & _).
  exists item. split; assumption.
Defined.

(** X20. A test name that is not empty but blank gets through the loader,
    as the name of the one item, and is refused by the constructor with an
    [InvalidConfigError], before any file is touched. *)
Theorem blank_test_name
        (h : Host) (rt : Runtime) (config : AppConfig.t) (n : jsstring) :
  AppConfig.mode config = test ->
  AppConfig.testName config = Some n ->
  n <> [] ->
  isBlank n = true ->
  (exists item,
      loadCertificateConfigs rt config = ([], inr [item]) /\ name item = n)
  /\ calls (newCertificateGenerator h (generatorOptions config)) = []
  /\ exists msg,
       outcome (newCertificateGenerator h (generatorOptions config))
       = inl (InvalidConfigError msg).
Proof.
  intros Hmode Htest Hne Hblank. split.
  - unfold loadCertificateConfigs, loadTestModeConfigs.
    rewrite Hmode, Htest. destruct n as [|c n]; [congruence|].
    eexists. split; reflexivity.
  - assert (Hrefused : refusedInMemory (generatorOptions config) = true).
    { unfold refusedInMemory. cbn [generatorOptions mode testName].
      rewrite Hmode, Htest, Hblank. cbn [isTest andb]. apply orb_true_r. }
    unfold newCertificateGenerator.
    destruct (validateOptions_refuses h _ Hrefused) as [msg ->].
    split; [reflexivity|]. exists msg. reflexivity.
Qed.

Lemma blank_test_name_witness :
  AppConfig.testName blankTestConfig = Some (js "   ")
  /\ isBlank (js "   ") = true
  /\ exists msg,
       outcome (newCertificateGenerator quietHost
                                        (generatorOptions blankTestConfig))
       = inl (InvalidConfigError msg).
Proof.
  split; [reflexivity|]. split; [reflexivity|].
  apply (blank_test_name quietHost demoRuntime blankTestConfig (js "   "));
    try reflexivity.
  discriminate.
Defined.

(** X21. In production mode the loader returns one item for each record of
    the data file, in order, with the address of the record as its email
    and without an override of the path; each of them has a name and an
    email that are not blank, so the validation of the generator refuses it
    only through the configured font size. (The runtime is taken to lower
    the case of a string without blanking it.) *)
Theorem production_items
        (rt : Runtime) (config : AppConfig.t) (opts : GeneratorOptions)
        (configs : list CertificateConfig) :
  (forall s, isBlank (toLowerCase_unicode rt s) = isBlank s) ->
  AppConfig.mode config = production ->
  outcome (loadCertificateConfigs rt config) = inr configs ->
  exists persons,
    outcome (loadPersonData rt (AppConfig.emailsJsonPath config))
    = inr persons
    /\ map name configs = map PersonData.name persons
    /\ map email configs = map (fun p => Some (PersonData.email p)) persons
    /\ Forall (fun item =>
                 isBlank (name item) = false
                 /\ outputPath item = None
                 /\ threw (validateCertificateConfig opts item)
                    = fontSizeRejected item)
              configs.
Proof.
  intros Hunicode Hmode Hload.
  unfold loadCertificateConfigs, loadProductionModeConfigs in Hload.
  rewrite Hmode in Hload.
  apply bind_returned in Hload as (persons & Hpersons & Hmap).
  simpl in Hmap. inversion Hmap; subst configs; clear Hmap.
  exists persons. split; [assumption|].
  rewrite !map_map. cbn [name email]. split; [reflexivity|].
  split; [reflexivity|].
  apply loadPersonData_returns_records in Hpersons as (items & Hrecords).
  apply Forall_forall. intros item Hin.
  apply in_map_iff in Hin as (person & <- & Hin).
  cbn [name outputPath].
  assert (Hperson : exists record, recordOf rt record person).
  { clear - Hrecords Hin. induction Hrecords as [|i p restItems restPersons Hip _ IH];
      [destruct Hin|].
    destruct Hin as [<-|Hin]; [eauto|auto]. }
  destruct Hperson as (record & n & e & _ & Hn & _ & He & Hname & Hemail).
  assert (Hvisible : isBlank (PersonData.name person) = false)
    by (rewrite Hname, trim_twice_blank; exact Hn).
  assert (Haddress : isBlank (PersonData.email person) = false).
  { rewrite Hemail, toLowerCaseOf_blank by assumption.
    apply visible_not_blank;
      [now apply valid_email_not_empty|now apply valid_email_visible]. }
  split; [assumption|]. split; [reflexivity|].
  rewrite validate_threw. cbn [name email]. rewrite Hvisible, Haddress.
  cbn [orb]. now rewrite andb_false_r, orb_false_r.
Qed.

Lemma production_items_witness :
  AppConfig.mode (demoAppConfig production) = production
  /\ exists persons,
       outcome (loadPersonData demoRuntime
                  (AppConfig.emailsJsonPath (demoAppConfig production)))
       = inr persons
       /\ map name [ada; grace] = map PersonData.name persons.
Proof.
  split; [reflexivity|].
  destruct (production_items
              demoRuntime (demoAppConfig production)
              (demoOptions production 2)
              [{| name := js "Ada Lovelace"; email := Some (js "ada@x.com");
                  outputPath := None; fontSize := Some 54%float;
                  fontColor := Some {| r := 93; g := 97; b := 103 |};
                  position := None |};
               {| name := js "Grace Hopper"; email := Some (js "grace@x.com");
                  outputPath := None; fontSize := Some 54%float;
                  fontColor := Some {| r := 93; g := 97; b := 103 |};
                  position := None |}])
    as (persons & Hpersons & Hnames & _).
  - exact toLowerCase_blank.
  - reflexivity.
  - reflexivity.
  - exists persons. split; [exact Hpersons|exact Hnames].
Defined.

(** ** wrapRGB *)

Lemma channels_in_unit_range :
  forallb (fun k => unitRange (channel (Z.of_nat k) / 255)%float)
          (seq 0 256) = true.
Proof. vm_compute. reflexivity. Qed.

Lemma channel_in_unit_range (n : Z) :
  (0 <= n <= 255)%Z -> unitRange (channel n / 255)%float = true.
Proof.
  intros Hn. pose proof channels_in_unit_range as Hall.
  rewrite forallb_forall in Hall.
  rewrite <- (Z2Nat.id n) by lia. apply Hall. apply in_seq. lia.
Qed.

(** X22. For a colour whose three channels are integers from 0 to 255,
    [wrapRGB] calls [rgb] once, with three components between 0 and 1, which
    is the range that [rgb] accepts; its outcome is the outcome of that
    call. *)
Theorem wrapRGB_unit_range (h : Host) (cr cg cb : Z) :
  (0 <= cr <= 255)%Z -> (0 <= cg <= 255)%Z -> (0 <= cb <= 255)%Z ->
  exists ur ug ub,
    wrapRGB h {| r := channel cr; g := channel cg; b := channel cb |}
    = ([CallRgb ur ug ub], rgb h ur ug ub)
    /\ unitRange ur = true /\ unitRange ug = true /\ unitRange ub = true.
Proof.
  intros Hr Hg Hb. do 3 eexists. split; [reflexivity|].
  cbn [r g b]. auto using channel_in_unit_range.
Qed.

Lemma wrapRGB_unit_range_witness :
  (0 <= 93 <= 255)%Z
  /\ exists ur ug ub,
       wrapRGB quietHost
               {| r := channel 93; g := channel 97; b := channel 103 |}
       = ([CallRgb ur ug ub], rgb quietHost ur ug ub)
       /\ unitRange ur = true /\ unitRange ug = true /\ unitRange ub = true.
Proof.
  split; [lia|].
  apply (wrapRGB_unit_range quietHost 93 97 103); lia.
Defined.

(** ** What the sanitizer keeps *)


Section SanitizerKeeps.

Lemma collapse_keeps (s : jsstring) :
  filter notUnderscore (collapseUnderscores s) = filter notUnderscore s
  /\ (length (collapseUnderscores s) <= length s)%nat.
Proof.
  induction s as [|c t [IHf IHl]]; [split; reflexivity|].
  rewrite collapse_cons. unfold notUnderscore in *.
  destruct (isUnderscore c) eqn:Hc.
  - destruct t as [|c' t'].
    + split; reflexivity.
    + destruct (isUnderscore c') eqn:Hc'.
      * cbn [filter]. rewrite Hc. cbn [negb]. rewrite IHf.
        split; [reflexivity|simpl in *; lia].
      * cbn [filter]. rewrite Hc. cbn [negb]. rewrite IHf.
        split; [reflexivity|simpl in *; lia].
  - cbn [filter]. rewrite Hc. cbn [negb]. rewrite IHf.
    split; [reflexivity|simpl in *; lia].
Qed.

Lemma removeLeading_keeps (s : jsstring) :
  filter notUnderscore (removeLeadingUnderscore s) = filter notUnderscore s
  /\ (length (removeLeadingUnderscore s) <= length s)%nat.
Proof.
  destruct s as [|c t]; [split; reflexivity|]. simpl. unfold notUnderscore.
  destruct (isUnderscore c) eqn:Hc; simpl; rewrite ?Hc; split;
    (reflexivity || lia).
Qed.

Lemma removeTrailing_keeps (s : jsstring) :
  filter notUnderscore (removeTrailingUnderscore s) = filter notUnderscore s
  /\ (length (removeTrailingUnderscore s) <= length s)%nat.
Proof.
  induction s as [|c t [IHf IHl]]; [split; reflexivity|].
  destruct t as [|c' t'].
  - simpl. unfold notUnderscore. destruct (isUnderscore c) eqn:Hc; simpl;
      rewrite ?Hc; split; (reflexivity || lia).
  - change (removeTrailingUnderscore (c :: c' :: t'))
      with (c :: removeTrailingUnderscore (c' :: t')).
    cbn [filter]. rewrite IHf. split; [reflexivity|].
    cbn [length] in IHl |- *. lia.
Qed.

Lemma lowered_unit_kept (c : codeunit) :
  notUnderscore (lowerUnit (if matchesNonAlnum c then underscore else c))
  = isAlnum c.
Proof.
  unfold isAlnum, notUnderscore, matchesNonAlnum, lowerUnit, isUpper, isLower,
    isDigit, isUnderscore, underscore.
  destruct (N.leb_spec 97 c), (N.leb_spec c 122), (N.leb_spec 65 c),
    (N.leb_spec c 90), (N.leb_spec 48 c), (N.leb_spec c 57); simpl;
    repeat match goal with
           | |- context [(?a <=? ?b)%N] => destruct (N.leb_spec a b)
           | |- context [(?a =? ?b)%N] => destruct (N.eqb_spec a b)
           end; simpl in *; try reflexivity; lia.
Qed.

Lemma lowered_keeps (s : jsstring) :
  filter notUnderscore (toLowerCase (replaceNonAlnum s))
  = map lowerUnit (filter isAlnum s).
Proof.
  unfold toLowerCase, replaceNonAlnum. rewrite map_map.
  induction s as [|c t IH]; [reflexivity|].
  cbn [map filter]. rewrite IH, lowered_unit_kept.
  destruct (isAlnum c) eqn:Hc; [|reflexivity].
  unfold isAlnum in Hc. apply negb_true_iff in Hc. now rewrite Hc.
Qed.

(** Without its underscores, a sanitized name is the letters and digits of
    the name, in lower case and in order. *)
Lemma sanitize_keeps (s : jsstring) :
  filter notUnderscore (sanitizeFilename s)
  = map lowerUnit (filter isAlnum s).
Proof.
  unfold sanitizeFilename, removeEdgeUnderscores.
  rewrite (proj1 (removeTrailing_keeps _)), (proj1 (removeLeading_keeps _)),
    (proj1 (collapse_keeps _)).
  apply lowered_keeps.
Qed.

Lemma only_underscores_clean (s : jsstring) :
  filter notUnderscore s = [] -> cleanFilename s = true -> s = [].
Proof.
  destruct s as [|c t]; [reflexivity|]. intros Hfilter Hclean. exfalso.
  unfold cleanFilename, noEdgeUnderscore in Hclean.
  apply andb_true_iff in Hclean as [_ Hedge].
  apply andb_true_iff in Hedge as [Hhead _]. cbn [hd] in Hhead.
  cbn [filter] in Hfilter. unfold notUnderscore in Hfilter.
  destruct (isUnderscore c); [discriminate Hhead|discriminate Hfilter].
Qed.

End SanitizerKeeps.

(** X23. The sanitizer loses no letter and no digit and adds none: without
    its underscores, a sanitized name is the ASCII letters and digits of the
    name, in lower case and in their order; and it is never longer than the
    name. *)
Theorem sanitizeFilename_keeps_alnum (s : jsstring) :
  filter notUnderscore (sanitizeFilename s) = map lowerUnit (filter isAlnum s)
  /\ (length (sanitizeFilename s) <= length s)%nat.
Proof.
  split; [apply sanitize_keeps|].
  unfold sanitizeFilename, removeEdgeUnderscores.
  pose proof (proj2 (removeTrailing_keeps
                       (removeLeadingUnderscore
                          (collapseUnderscores
                             (toLowerCase (replaceNonAlnum s)))))).
  pose proof (proj2 (removeLeading_keeps
                       (collapseUnderscores
                          (toLowerCase (replaceNonAlnum s))))).
  pose proof (proj2 (collapse_keeps (toLowerCase (replaceNonAlnum s)))).
  unfold toLowerCase, replaceNonAlnum in *. rewrite !length_map in *. lia.
Qed.

(** X24. The sanitized name is empty exactly when the name holds no ASCII
    letter and no digit: every such name, whatever its other characters,
    gives the same file name. *)
Theorem sanitizeFilename_empty (s : jsstring) :
  sanitizeFilename s = [] <-> forallb matchesNonAlnum s = true.
Proof.
  split.
  - intros Hempty. pose proof (sanitize_keeps s) as Hkept.
    rewrite Hempty in Hkept. cbn [filter] in Hkept.
    symmetry in Hkept. apply map_eq_nil in Hkept.
    apply forallb_forall. intros c Hin.
    destruct (matchesNonAlnum c) eqn:Hc; [reflexivity|].
    assert (Hc' : In c (filter isAlnum s))
      by (apply filter_In; unfold isAlnum; rewrite Hc; auto).
    rewrite Hkept in Hc'. destruct Hc'.
  - intros Hnone. apply only_underscores_clean; [|apply sanitize_clean].
    rewrite sanitize_keeps.
    assert (Hfilter : filter isAlnum s = []).
    { induction s as [|c t IH]; [reflexivity|]. cbn [forallb] in Hnone.
      apply andb_true_iff in Hnone as [Hc Ht]. cbn [filter].
      unfold isAlnum at 1. rewrite Hc. cbn [negb]. auto. }
    now rewrite Hfilter.
Qed.

(** X25. The names that the sanitizer leaves unchanged are exactly the clean
    file names: lower-case letters, digits and single underscores, with no
    underscore at either end. *)
Theorem sanitizeFilename_fixed_points (s : jsstring) :
  sanitizeFilename s = s <-> cleanFilename s = true.
Proof.
  split.
  - intros Hfixed. rewrite <- Hfixed. apply sanitize_clean.
  - apply clean_fixed.
Qed.

(** ** main *)

Lemma no_failures (hosts : nat -> Host) (gen : CertificateGenerator)
      (items : list (nat * CertificateConfig)) :
  (0 <? length (flat_map (failuresOf hosts gen) items))%nat
  = negb (forallb (fun item => negb (threw (ended hosts gen item))) items).
Proof.
  induction items as [|item items IH]; [reflexivity|].
  cbn [flat_map forallb]. rewrite length_app. unfold failuresOf at 1.
  destruct (ended hosts gen item); cbn [threw negb andb length Nat.add];
    [reflexivity|exact IH].
Qed.

(** X26. With a concurrency that is a whole number, [main] always exits
    once the configuration is loaded, within N + 1 iterations of the loop
    for N items; it exits with 0 exactly when the items were loaded, the
    generator was constructed and every render returned, and with 1 in
    every other case. (An array has fewer than 2^32 elements.) *)
Theorem mainWith_exit_code
        (h : Host) (rt : Runtime) (hosts : nat -> Host)
        (sched : list nat -> nat) (config : AppConfig.t)
        (C : Z) (fuel : nat) :
  wholeValue (AppConfig.concurrency config) = Some C ->
  (forall certificateConfigs,
      outcome (loadCertificateConfigs rt config) = inr certificateConfigs ->
      (Z.of_nat (length certificateConfigs) < 2 ^ 32)%Z
      /\ (length certificateConfigs < fuel)%nat) ->
  mainWith h rt hosts sched config fuel
  = Some match outcome (loadCertificateConfigs rt config),
               outcome (newCertificateGenerator h (generatorOptions config))
         with
         | inr certificateConfigs, inr generator =>
             if allRendered hosts generator certificateConfigs
             then 0%Z else 1%Z
         | _, _ => 1%Z
         end.
Proof.
  intros Hwhole Hbatch. unfold mainWith, allRendered.
  destruct (outcome (loadCertificateConfigs rt config))
    as [e|certificateConfigs]; [reflexivity|].
  destruct (Hbatch certificateConfigs eq_refl) as [Hlength Hfuel].
  destruct (outcome (newCertificateGenerator h (generatorOptions config)))
    as [e|generator] eqn:Hgen; [reflexivity|].
  apply constructed_options in Hgen as [Hoptions Haccepted].
  assert (Hlimit : (1 <= C)%Z).
  { unfold refusedInMemory in Haccepted.
    cbn [concurrency generatorOptions] in Haccepted.
    rewrite (leb_whole_zero _ C Hwhole) in Haccepted.
    destruct (Z.leb_spec C 0) as [Hle|Hgt]; [|lia].
    rewrite orb_true_r in Haccepted. discriminate. }
  assert (Hgenerator :
            wholeValue (concurrency (options generator)) = Some C)
    by (rewrite Hoptions; exact Hwhole).
  rewrite (generateCertificates_runs hosts sched generator C Hgenerator
             Hlimit certificateConfigs Hlength fuel Hfuel).
  cbn [failed]. rewrite no_failures.
  destruct (forallb _ (indexed certificateConfigs)); reflexivity.
Qed.

Lemma mainWith_exit_code_witness :
  wholeValue (AppConfig.concurrency (demoAppConfig production)) = Some 3%Z
  /\ mainWith quietHost demoRuntime (fun _ => quietHost) secondFirst
              (demoAppConfig production) 8
     = Some 0%Z.
Proof.
  split; [reflexivity|].
  apply (mainWith_exit_code quietHost demoRuntime (fun _ => quietHost)
           secondFirst (demoAppConfig production) 3 8).
  - reflexivity.
  - intros certificateConfigs Hloaded. vm_compute in Hloaded.
    inversion Hloaded. split; [vm_compute; reflexivity|simpl; lia].
Defined.

(** ** parseColor *)

Section ParseColorFacts.

Lemma slice_rest {A : Type} (a : A) (l : list A) :
  slice (a :: l) 1 (Z.of_nat (length (a :: l))) = l.
Proof.
  unfold slice, relativeIndex.
  assert (H : (Z.of_nat (length (a :: l)) = 1 + Z.of_nat (length l))%Z)
    by (cbn [length]; lia).
  rewrite H.
  replace (1 <? 0)%Z with false by reflexivity.
  destruct (Z.ltb_spec (1 + Z.of_nat (length l)) 0) as [Hneg|_]; [lia|].
  rewrite !Z.min_l by lia.
  replace (Z.to_nat 1) with 1%nat by reflexivity. cbn [skipn].
  replace (Z.to_nat (1 + Z.of_nat (length l) - 1)) with (length l) by lia.
  apply firstn_all.
Qed.

Lemma slice_pair {A : Type} (before : list A) (c d : A) (rest : list A) :
  slice (before ++ c :: d :: rest) (Z.of_nat (length before))
        (Z.of_nat (length before) + 2)
  = [c; d].
Proof.
  unfold slice, relativeIndex. rewrite length_app. cbn [length].
  destruct (Z.ltb_spec (Z.of_nat (length before)) 0) as [Hneg|_]; [lia|].
  destruct (Z.ltb_spec (Z.of_nat (length before) + 2) 0) as [Hneg|_]; [lia|].
  rewrite !Z.min_l by lia.
  replace (Z.to_nat (Z.of_nat (length before) + 2 - Z.of_nat (length before)))
    with 2%nat by lia.
  rewrite Nat2Z.id, skipn_app, skipn_all, Nat.sub_diag. reflexivity.
Qed.

Lemma slice_beyond {A : Type} (l : list A) (i j : Z) :
  (Z.of_nat (length l) <= i)%Z -> (0 <= i)%Z -> (0 <= j)%Z ->
  slice l i j = [].
Proof.
  intros Hlen Hi Hj. unfold slice, relativeIndex.
  destruct (Z.ltb_spec i 0) as [Hneg|_]; [lia|].
  destruct (Z.ltb_spec j 0) as [Hneg|_]; [lia|].
  rewrite (Z.min_r i) by lia. rewrite Nat2Z.id, skipn_all. apply firstn_nil.
Qed.

(** The twenty-two hexadecimal digits. *)
Local Abbreviation hexUnits :=
  (map N.of_nat (seq 48 10 ++ seq 65 6 ++ seq 97 6)).

Lemma hex_digit_listed (c : codeunit) :
  isHexDigit c = true -> In c hexUnits.
Proof.
  unfold isHexDigit, radixDigit, digitValue. intros H.
  assert (Hc : (48 <= c <= 57 \/ 65 <= c <= 70 \/ 97 <= c <= 102)%N).
  { destruct (N.leb_spec 48 c), (N.leb_spec c 57); cbn [andb] in H; try lia.
    - destruct (N.leb_spec 97 c), (N.leb_spec c 122); cbn [andb] in H.
      + destruct (Z.ltb_spec (Z.of_N c - 87) 16); [lia|discriminate].
      + destruct (N.leb_spec 65 c), (N.leb_spec c 90); cbn [andb] in H;
          try discriminate.
        lia.
      + destruct (N.leb_spec 65 c), (N.leb_spec c 90); cbn [andb] in H;
          try discriminate.
        destruct (Z.ltb_spec (Z.of_N c - 55) 16); [lia|discriminate].
      + destruct (N.leb_spec 65 c), (N.leb_spec c 90); cbn [andb] in H;
          try discriminate.
        lia.
    - destruct (N.leb_spec 97 c), (N.leb_spec c 122); cbn [andb] in H;
        try lia.
      destruct (N.leb_spec 65 c), (N.leb_spec c 90); cbn [andb] in H;
        try discriminate; lia. }
  apply in_map_iff. exists (N.to_nat c). split; [lia|].
  rewrite !in_app_iff, !in_seq. lia.
Qed.

Lemma hex_pairs :
  forallb (fun c =>
             forallb (fun d =>
                        PrimFloat.Leibniz.eqb
                          (parseInt [c; d] 16)
                          (channel (16 * digitOf c + digitOf d)))
                     hexUnits)
          hexUnits
  = true.
Proof. vm_compute. reflexivity. Qed.

Lemma parseInt_hex_pair (c d : codeunit) :
  isHexDigit c = true -> isHexDigit d = true ->
  parseInt [c; d] 16 = channel (16 * digitOf c + digitOf d).
Proof.
  intros Hc Hd. apply hex_digit_listed in Hc, Hd.
  pose proof hex_pairs as Hall. rewrite forallb_forall in Hall.
  specialize (Hall c Hc). rewrite forallb_forall in Hall.
  apply FloatAxioms.Leibniz.eqb_spec, Hall, Hd.
Qed.

Lemma hex_digit_value (c : codeunit) :
  isHexDigit c = true -> (0 <= digitOf c <= 15)%Z.
Proof.
  intros Hc. apply hex_digit_listed in Hc.
  assert (Hall : forallb (fun u => (0 <=? digitOf u)%Z && (digitOf u <=? 15)%Z)
                         hexUnits = true) by (vm_compute; reflexivity).
  rewrite forallb_forall in Hall. specialize (Hall c Hc). lia.
Qed.

Lemma orDefaultNumber_number (o : option float) :
  PrimFloat.is_nan (orDefaultNumber o 0) = false.
Proof.
  unfold orDefaultNumber, truthyNumber. destruct o as [n|]; [|reflexivity].
  destruct (PrimFloat.is_zero n); [reflexivity|].
  destruct (PrimFloat.is_nan n) eqn:Hn; [reflexivity|exact Hn].
Qed.

Lemma decimal_digit_visible (c : codeunit) :
  isDecimalDigit c = true ->
  isWhiteSpace c = false /\ (c =? comma)%N = false /\ (c =? 35)%N = false
  /\ (c =? 114)%N = false /\ (c =? 43)%N = false /\ (c =? 45)%N = false
  /\ (c =? 120)%N = false /\ (c =? 88)%N = false
  /\ radixDigit 10 c = Some (digitOf c) /\ (0 <= digitOf c <= 9)%Z.
Proof.
  intros Hc.
  assert (Hin : In c (map N.of_nat (seq 48 10))).
  { unfold isDecimalDigit in Hc. apply andb_true_iff in Hc as [Hlo Hhi].
    apply N.leb_le in Hlo, Hhi. apply in_map_iff. exists (N.to_nat c).
    split; [lia|]. apply in_seq. lia. }
  cbn in Hin.
  repeat (destruct Hin as [<-|Hin]; [vm_compute; intuition congruence|]).
  destruct Hin.
Qed.

Lemma decimal_trimmed (digits : jsstring) :
  forallb isDecimalDigit digits = true -> trim digits = digits.
Proof.
  intros Hd. apply trim_visible. rewrite forallb_forall in *.
  intros c Hc. apply Hd, decimal_digit_visible in Hc as [-> _]. reflexivity.
Qed.

Lemma readDigits_decimal (digits : jsstring) (mathInt : Z) (any : bool) :
  forallb isDecimalDigit digits = true ->
  readDigits 10 digits mathInt any
  = if any || negb (isEmptyString digits)
    then Some (fold_left (fun value c => (value * 10 + digitOf c)%Z)
                         digits mathInt)
    else None.
Proof.
  revert mathInt any.
  induction digits as [|c digits IH]; intros mathInt any Hd.
  - cbn. rewrite orb_false_r. reflexivity.
  - cbn [forallb] in Hd. apply andb_true_iff in Hd as [Hc Hd].
    apply decimal_digit_visible in Hc as (_ & _ & _ & _ & _ & _ & _ & _ & Hr & _).
    cbn [readDigits fold_left isEmptyString negb]. rewrite Hr, IH by exact Hd.
    rewrite orb_true_r. reflexivity.
Qed.

Lemma parseInt_decimal (digits : jsstring) :
  isEmptyString digits = false ->
  forallb isDecimalDigit digits = true ->
  parseInt digits 0 = numberOfInteger false (decimalValue digits).
Proof.
  intros Hne Hd. unfold parseInt.
  assert (Htrim : trimStart digits = digits).
  { apply trimStart_visible. rewrite forallb_forall in *.
    intros c Hc. apply Hd, decimal_digit_visible in Hc as [-> _].
    reflexivity. }
  rewrite Htrim. destruct digits as [|c digits]; [discriminate|].
  pose proof Hd as Hall. cbn [forallb] in Hd.
  apply andb_true_iff in Hd as [Hc Hd].
  apply decimal_digit_visible in Hc
    as (_ & _ & _ & _ & Hplus & Hminus & _).
  rewrite Hplus, Hminus. cbn [orb negb andb Z.eqb].
  assert (Hprefix : match c :: digits with
                    | zero :: x :: _ =>
                        (zero =? 48)%N && ((x =? 120)%N || (x =? 88)%N)
                    | _ => false
                    end = false).
  { destruct digits as [|x digits]; [reflexivity|].
    cbn [forallb] in Hd. apply andb_true_iff in Hd as [Hx _].
    apply decimal_digit_visible in Hx
      as (_ & _ & _ & _ & _ & _ & Hlower & Hupper & _).
    rewrite Hlower, Hupper. apply andb_false_r. }
  rewrite Hprefix. rewrite readDigits_decimal by exact Hall. reflexivity.
Qed.

Lemma decimalValue_from (digits : jsstring) (start : Z) :
  (0 <= start)%Z ->
  (start <= fold_left (fun value c => (value * 10 + digitOf c)%Z)
                      digits start)%Z.
Proof.
  revert start. induction digits as [|c digits IH]; intros start Hs;
    [cbn; lia|].
  cbn [fold_left].
  assert (Hc : (0 <= digitOf c)%Z).
  { unfold digitOf, digitValue.
    destruct (N.leb_spec 48 c), (N.leb_spec c 57); cbn [andb]; try lia;
      destruct (N.leb_spec 97 c), (N.leb_spec c 122); cbn [andb]; try lia;
      destruct (N.leb_spec 65 c), (N.leb_spec c 90); cbn [andb]; lia. }
  specialize (IH (start * 10 + digitOf c)%Z). lia.
Qed.

Lemma bytes_exact :
  forallb (fun k =>
             PrimFloat.Leibniz.eqb
               (numberOfInteger false (Z.of_nat k)) (channel (Z.of_nat k))
             && PrimFloat.Leibniz.eqb
                  (orDefaultNumber (Some (channel (Z.of_nat k))) 0)
                  (channel (Z.of_nat k)))
          (seq 0 256)
  = true.
Proof. vm_compute. reflexivity. Qed.

Lemma byte_exact (n : Z) :
  (0 <= n <= 255)%Z ->
  numberOfInteger false n = channel n
  /\ orDefaultNumber (Some (channel n)) 0 = channel n.
Proof.
  intros Hn. pose proof bytes_exact as Hall. rewrite forallb_forall in Hall.
  specialize (Hall (Z.to_nat n)). rewrite Z2Nat.id in Hall by lia.
  assert (Hin : In (Z.to_nat n) (seq 0 256)) by (apply in_seq; lia).
  apply Hall, andb_true_iff in Hin as [Hnumber Hdefault].
  split; apply FloatAxioms.Leibniz.eqb_spec; assumption.
Qed.

Lemma decimalByte_parsed (digits : jsstring) :
  decimalByte digits = true ->
  forallb isDecimalDigit digits = true
  /\ parseInt digits 0 = channel (decimalValue digits)
  /\ orDefaultNumber (Some (channel (decimalValue digits))) 0
     = channel (decimalValue digits)
  /\ exists c rest, digits = c :: rest /\ isDecimalDigit c = true.
Proof.
  unfold decimalByte. rewrite !andb_true_iff, negb_true_iff, Z.leb_le.
  intros [[Hne Hd] Hmax].
  assert (Hbyte : (0 <= decimalValue digits <= 255)%Z).
  { split; [apply decimalValue_from; lia|exact Hmax]. }
  destruct (byte_exact _ Hbyte) as [Hnumber Hdefault].
  repeat split; [exact Hd| |exact Hdefault|].
  - rewrite parseInt_decimal by assumption. exact Hnumber.
  - destruct digits as [|c rest]; [discriminate|].
    exists c, rest. cbn [forallb] in Hd.
    apply andb_true_iff in Hd as [Hc _]. split; [reflexivity|exact Hc].
Qed.

Lemma splitOn_part (digits rest part : jsstring) :
  forallb isDecimalDigit digits = true ->
  splitOn comma (digits ++ comma :: rest) part
  = (part ++ digits) :: splitOn comma rest [].
Proof.
  revert part. induction digits as [|c digits IH]; intros part Hd.
  - cbn. rewrite app_nil_r. reflexivity.
  - cbn [forallb] in Hd. apply andb_true_iff in Hd as [Hc Hd].
    apply decimal_digit_visible in Hc as (_ & Hcomma & _).
    cbn [app splitOn]. rewrite Hcomma, IH by exact Hd.
    rewrite <- app_assoc. reflexivity.
Qed.

Lemma splitOn_last (digits part : jsstring) :
  forallb isDecimalDigit digits = true ->
  splitOn comma digits part = [part ++ digits].
Proof.
  revert part. induction digits as [|c digits IH]; intros part Hd.
  - cbn. rewrite app_nil_r. reflexivity.
  - cbn [forallb] in Hd. apply andb_true_iff in Hd as [Hc Hd].
    apply decimal_digit_visible in Hc as (_ & Hcomma & _).
    cbn [splitOn]. rewrite Hcomma, IH by exact Hd.
    rewrite <- app_assoc. reflexivity.
Qed.

Lemma digitRuns_run (digits rest run : jsstring) (c : codeunit) :
  forallb isDecimalDigit digits = true ->
  isDecimalDigit c = false ->
  isEmptyString (run ++ digits) = false ->
  digitRuns (digits ++ c :: rest) run = (run ++ digits) :: digitRuns rest [].
Proof.
  revert run. induction digits as [|d digits IH]; intros run Hd Hc Hne.
  - rewrite app_nil_r in *. cbn [app digitRuns]. rewrite Hc, Hne. reflexivity.
  - cbn [forallb] in Hd. apply andb_true_iff in Hd as [Hdigit Hd].
    cbn [app digitRuns]. rewrite Hdigit, IH; try assumption.
    + rewrite <- app_assoc. reflexivity.
    + rewrite <- app_assoc. exact Hne.
Qed.

End ParseColorFacts.

(** X27. A colour written as '#' and six hexadecimal digits, of either case
    and whatever follows them, is parsed to the three bytes that the digits
    write, two by two: each channel is an integer from 0 to 255. *)
Theorem parseColor_hex (c1 c2 c3 c4 c5 c6 : codeunit) (rest : jsstring) :
  forallb isHexDigit [c1; c2; c3; c4; c5; c6] = true ->
  parseColor (35%N :: c1 :: c2 :: c3 :: c4 :: c5 :: c6 :: rest)
  = {| r := channel (16 * digitOf c1 + digitOf c2);
       g := channel (16 * digitOf c3 + digitOf c4);
       b := channel (16 * digitOf c5 + digitOf c6) |}
  /\ (0 <= 16 * digitOf c1 + digitOf c2 <= 255)%Z
  /\ (0 <= 16 * digitOf c3 + digitOf c4 <= 255)%Z
  /\ (0 <= 16 * digitOf c5 + digitOf c6 <= 255)%Z.
Proof.
  cbn [forallb]. rewrite !andb_true_iff.
  intros (H1 & H2 & H3 & H4 & H5 & H6 & _).
  split.
  - unfold parseColor.
    replace (startsWith _ (js "#")) with true by reflexivity.
    rewrite slice_rest.
    rewrite (slice_pair [] c1 c2 (c3 :: c4 :: c5 :: c6 :: rest)
             : slice (c1 :: c2 :: c3 :: c4 :: c5 :: c6 :: rest) 0 2 = _).
    rewrite (slice_pair [c1; c2] c3 c4 (c5 :: c6 :: rest)
             : slice (c1 :: c2 :: c3 :: c4 :: c5 :: c6 :: rest) 2 4 = _).
    rewrite (slice_pair [c1; c2; c3; c4] c5 c6 rest
             : slice (c1 :: c2 :: c3 :: c4 :: c5 :: c6 :: rest) 4 6 = _).
    rewrite !parseInt_hex_pair by assumption. reflexivity.
  - pose proof (hex_digit_value c1 H1). pose proof (hex_digit_value c2 H2).
    pose proof (hex_digit_value c3 H3). pose proof (hex_digit_value c4 H4).
    pose proof (hex_digit_value c5 H5). pose proof (hex_digit_value c6 H6).
    lia.
Qed.

Lemma parseColor_hex_witness :
  parseColor (js "#5d6167")
  = {| r := channel 93; g := channel 97; b := channel 103 |}.
Proof.
  apply (parseColor_hex 53%N 100%N 54%N 49%N 54%N 55%N []). reflexivity.
Defined.

(** X28. A colour written as '#' and fewer than five characters, as the
    three-digit form "#fff", has no blue channel: the third number is NaN. *)
Theorem parseColor_short_hex (hex : jsstring) :
  (length hex <= 4)%nat ->
  PrimFloat.is_nan (b (parseColor (35%N :: hex))) = true.
Proof.
  intros Hlen. unfold parseColor.
  replace (startsWith _ (js "#")) with true by (destruct hex; reflexivity).
  rewrite slice_rest. cbn [b].
  rewrite (slice_beyond hex 4 6) by lia. reflexivity.
Qed.

Lemma parseColor_short_hex_witness :
  PrimFloat.is_nan (b (parseColor (js "#fff"))) = true.
Proof. apply (parseColor_short_hex (js "fff")). vm_compute. lia. Defined.

(** X29. Outside the two prefixed formats a channel is never NaN: a part
    that is missing or is not a number is taken for 0. *)
Theorem parseColor_default_numbers (colorStr : jsstring) :
  startsWith colorStr (js "#") = false ->
  startsWith colorStr (js "rgb(") = false ->
  PrimFloat.is_nan (r (parseColor colorStr)) = false
  /\ PrimFloat.is_nan (g (parseColor colorStr)) = false
  /\ PrimFloat.is_nan (b (parseColor colorStr)) = false.
Proof.
  intros Hhash Hrgb. unfold parseColor. rewrite Hhash, Hrgb.
  unfold parseColorDefault. cbn [r g b].
  auto using orDefaultNumber_number.
Qed.

Lemma parseColor_default_numbers_witness :
  PrimFloat.is_nan (r (parseColor (js "red"))) = false.
Proof.
  apply (parseColor_default_numbers (js "red")); reflexivity.
Defined.

(** X30. The two decimal formats agree: three decimal numbers from 0 to 255,
    separated by commas, are parsed to these three numbers, and so are the
    same three inside "rgb(" and ")". *)
Theorem parseColor_decimal (d1 d2 d3 : jsstring) :
  decimalByte d1 = true -> decimalByte d2 = true -> decimalByte d3 = true ->
  parseColor (d1 ++ comma :: d2 ++ comma :: d3)
  = {| r := channel (decimalValue d1);
       g := channel (decimalValue d2);
       b := channel (decimalValue d3) |}
  /\ parseColor (js "rgb(" ++ d1 ++ comma :: d2 ++ comma :: d3 ++ js ")")
     = {| r := channel (decimalValue d1);
          g := channel (decimalValue d2);
          b := channel (decimalValue d3) |}.
Proof.
  intros H1 H2 H3.
  apply decimalByte_parsed in H1 as (Hd1 & Hp1 & Ho1 & c & rest & -> & Hc).
  apply decimalByte_parsed in H2 as (Hd2 & Hp2 & Ho2 & _).
  apply decimalByte_parsed in H3 as (Hd3 & Hp3 & Ho3 & _).
  split.
  - unfold parseColor.
    apply decimal_digit_visible in Hc as (_ & _ & Hhash & Hr & _).
    replace (startsWith _ (js "#")) with false
      by (cbn; rewrite Hhash; reflexivity).
    replace (startsWith _ (js "rgb(")) with false
      by (cbn; rewrite Hr; reflexivity).
    unfold parseColorDefault.
    rewrite (splitOn_part (c :: rest)), (splitOn_part d2), splitOn_last
      by assumption.
    cbn [app map nth_error].
    rewrite !decimal_trimmed by assumption.
    rewrite Hp1, Hp2, Hp3, Ho1, Ho2, Ho3. reflexivity.
  - unfold parseColor.
    replace (startsWith _ (js "#")) with false by reflexivity.
    replace (startsWith _ (js "rgb(")) with true
      by (cbn; destruct rest; reflexivity).
    unfold matchDigits.
    change (js "rgb(" ++ (c :: rest) ++ comma :: d2 ++ comma :: d3 ++ js ")")
      with (114%N :: 103%N :: 98%N :: 40%N
              :: (c :: rest) ++ comma :: d2 ++ comma :: d3 ++ [41%N]).
    cbn [digitRuns isDecimalDigit N.leb N.compare Pos.compare Pos.compare_cont
         andb isEmptyString].
    rewrite (digitRuns_run (c :: rest)), (digitRuns_run d2),
      (digitRuns_run d3) by (try assumption; try reflexivity;
                              destruct d2, d3; try discriminate; reflexivity).
    cbn [digitRuns isDecimalDigit N.leb N.compare Pos.compare Pos.compare_cont
         andb isEmptyString app length Nat.leb nth].
    rewrite Hp1, Hp2, Hp3. reflexivity.
Qed.

Lemma parseColor_decimal_witness :
  parseColor (js "93,97,103")
  = {| r := channel 93; g := channel 97; b := channel 103 |}
  /\ parseColor (js "rgb(93,97,103)")
     = {| r := channel 93; g := channel 97; b := channel 103 |}.
Proof.
  apply (parseColor_decimal (js "93") (js "97") (js "103")); reflexivity.
Defined.
